(** * BassAid fretboard widget (source/PluginEditor.cpp)

    A shallow embedding of [FretboardComponent] and of the helpers in the
    anonymous namespace of PluginEditor.cpp, with the properties of the
    design document stated over it.

    Numeric conventions.  A C++ [int] is a [Z]; every value the component
    handles stays far inside the 32-bit range, and the integer operators
    [/] and [%] are the truncating [Z.quot] and [Z.rem].  A [float] or a
    [double] is a rational [Q] holding the real value the source computes,
    and [==] on [Q] stands for equality of these values.  The rounding of
    single precision is written out in one place, the fret computation of
    [mouseDown], where [std::floor] turns a [float] quotient into an
    integer and the last bit decides which fret is played; the board's
    left edge and width are whole numbers of pixels there, which a [float]
    holds exactly.  Elsewhere an equality is one of real values, and a
    statement that decides between alternatives (which cell a click falls
    in, whether a highlight is still visible) leaves the margin that
    rounding needs.  The monotonic clock
    [juce::Time::getMillisecondCounterHiRes() * 1e-3] is an argument [now]
    of the operations that read it. *)

From Stdlib Require Import ZArith QArith Qround Qpower Qabs.
From Stdlib Require Import Bool String Ascii List.
From Stdlib Require Import DecimalString DecimalPos DecimalZ.
From Stdlib Require Import Lia Lqa Permutation.
Import ListNotations.

Set Implicit Arguments.

(** ** The JUCE operations the component calls

    Written after juce_MathsFunctions.h, juce_Point.h and juce_Rectangle.h. *)
Module Juce.

Definition Qltb (x y : Q) : bool := negb (Qle_bool y x).

(** [jmax (a, b)] is [a < b ? b : a]; [jmin (a, b)] is [b < a ? b : a]. *)
Definition jmaxZ (a b : Z) : Z := if (a <? b)%Z then b else a.
Definition jmax (a b : Q) : Q := if Qltb a b then b else a.
Definition jmin (a b : Q) : Q := if Qltb b a then b else a.

(** [jlimit (lo, hi, v)] is [v < lo ? lo : (hi < v ? hi : v)]. *)
Definition jlimitZ (lo hi v : Z) : Z :=
  if (v <? lo)%Z then lo else if (hi <? v)%Z then hi else v.
Definition jlimit (lo hi v : Q) : Q :=
  if Qltb v lo then lo else if Qltb hi v then hi else v.

(** [std::round]: to the nearest integer, halves away from zero. *)
Definition round (x : Q) : Q :=
  if Qltb x 0 then inject_Z (- Qfloor (- x + (1 # 2)))
  else inject_Z (Qfloor (x + (1 # 2))).

(** [juce::String (int)]: the decimal numeral. *)
Definition String_of_int (n : Z) : string :=
  NilZero.string_of_int (Z.to_int n).

Record Point : Type := mkPoint { x : Q; y : Q }.

(** [juce::Rectangle<float>]: position of the top-left corner, width and
    height. *)
Record Rectangle : Type := mkRectangle { pos : Point; w : Q; h : Q }.

Definition rect (x0 y0 w0 h0 : Q) : Rectangle :=
  mkRectangle (mkPoint x0 y0) w0 h0.

(** The default-constructed (empty) rectangle. *)
Definition emptyRectangle : Rectangle := rect 0 0 0 0.

Definition getX (r : Rectangle) : Q := x (pos r).
Definition getY (r : Rectangle) : Q := y (pos r).
Definition getWidth (r : Rectangle) : Q := w r.
Definition getHeight (r : Rectangle) : Q := h r.
Definition getRight (r : Rectangle) : Q := x (pos r) + w r.
Definition getBottom (r : Rectangle) : Q := y (pos r) + h r.
Definition getCentreY (r : Rectangle) : Q := y (pos r) + h r / 2.
Definition getCentre (r : Rectangle) : Point :=
  mkPoint (x (pos r) + w r / 2) (y (pos r) + h r / 2).

(** [contains (point)]: the rectangle is closed on its left and top edge
    and open on its right and bottom edge. *)
Definition contains (r : Rectangle) (p : Point) : bool :=
  Qle_bool (x (pos r)) (x p) && Qle_bool (y (pos r)) (y p)
  && Qltb (x p) (x (pos r) + w r) && Qltb (y p) (y (pos r) + h r).

(** [expanded] and [reduced] never produce a negative size. *)
Definition expanded2 (r : Rectangle) (dx dy : Q) : Rectangle :=
  let nw := jmax 0 (w r + dx * 2) in
  let nh := jmax 0 (h r + dy * 2) in
  rect (x (pos r) - dx) (y (pos r) - dy) nw nh.
Definition expanded (r : Rectangle) (d : Q) : Rectangle := expanded2 r d d.
Definition reduced2 (r : Rectangle) (dx dy : Q) : Rectangle :=
  expanded2 r (- dx) (- dy).
Definition reduced (r : Rectangle) (d : Q) : Rectangle := reduced2 r d d.

Definition withLeft (r : Rectangle) (newLeft : Q) : Rectangle :=
  rect newLeft (y (pos r)) (jmax 0 (x (pos r) + w r - newLeft)) (h r).
Definition withTrimmedLeft (r : Rectangle) (amount : Q) : Rectangle :=
  withLeft r (x (pos r) + amount).
Definition withY (r : Rectangle) (newY : Q) : Rectangle :=
  rect (x (pos r)) newY (w r) (h r).
Definition withHeight (r : Rectangle) (newHeight : Q) : Rectangle :=
  rect (x (pos r)) (y (pos r)) (w r) (jmax 0 newHeight).
Definition setX (r : Rectangle) (newX : Q) : Rectangle :=
  rect newX (y (pos r)) (w r) (h r).
Definition setWidth (r : Rectangle) (newWidth : Q) : Rectangle :=
  rect (x (pos r)) (y (pos r)) newWidth (h r).

(** [getLocalBounds().toFloat()] of a component of the given size. *)
Definition localBounds (width height : Z) : Rectangle :=
  rect 0 0 (inject_Z width) (inject_Z height).

End Juce.
Import Juce.

(** ** Single precision

    The value a C++ [float] takes when a real result is stored in it, after
    IEEE 754 binary32: 24 significant bits, exponents from -126, rounding
    to the nearest value, a result halfway between two values going to the
    one with an even last bit.  Results of magnitude [2^128] or more, which
    overflow, do not occur here. *)
Module Float32.

(** [floor (log2 q)] of a positive rational. *)
Definition ilog2 (q : Q) : Z :=
  let d := (Z.log2 (Qnum q) - Z.log2 (Zpos (Qden q)))%Z in
  if Qle_bool (2 ^ d) q then d else (d - 1)%Z.

(** The nearest integer, ties to the even one. *)
Definition nearestEven (v : Q) : Z :=
  let f := Qfloor v in
  let d := v - inject_Z f in
  if Qltb d (1 # 2) then f
  else if Qltb (1 # 2) d then (f + 1)%Z
  else if Z.even f then f else (f + 1)%Z.

(** The distance between neighbouring [float] values around [q]. *)
Definition ulp (q : Q) : Q := 2 ^ (Z.max (ilog2 (Qabs q)) (-126) - 23).

Definition round (q : Q) : Q :=
  if Qeq_bool q 0 then 0
  else inject_Z (nearestEven (q / ulp q)) * ulp q.

(** Half a unit in the last place: relative to a value in the normal
    range, and absolute below it. *)
Definition unitRoundoff : Q := 1 # 2 ^ 24.
Definition tiny : Q := 1 # 2 ^ 150.

End Float32.

(** ** Helpers and constants of the anonymous namespace *)

Definition kPluginBg : Z := 0xff849483.
Definition kWoodEdge : Z := 0xff8b5a2b.
Definition kBoardFill : Z := 0xffd2a679.
Definition kStringBlack : Z := 0xff000000.
Definition kFretSilver : Z := 0xffa0a0a0.
Definition kFretOutline : Z := 0xff000000.
Definition kNutBlack : Z := 0xff000000.
Definition kInlayFill : Z := 0xffffffff.
Definition kInlayStroke : Z := 0xff000000.
Definition kOpenFill : Z := 0xfff5f5f5.
Definition kOpenStroke : Z := 0xff000000.
Definition kHighlightBB : Z := 0xff67b8ff.

Definition kNumStrings : Z := 4.
Definition kNumFrets : Z := 12.

Definition kNoteNames : list string :=
  ["C"; "C#"; "D"; "D#"; "E"; "F"; "F#"; "G"; "G#"; "A"; "A#"; "B"]%string.

(** Reading the C array [kNoteNames[idx]]: [None] stands for an access
    outside the twelve entries. *)
Definition noteNameAt (idx : Z) : option string :=
  if (idx <? 0)%Z then None else nth_error kNoteNames (Z.to_nat idx).

Definition midiToNote (midi : Z) : option string :=
  let n := jmaxZ 0 midi in
  let idx := Z.rem n 12 in
  let oct := (Z.quot n 12 - 1)%Z in
  match noteNameAt idx with
  | Some name => Some (name ++ String_of_int oct)%string
  | None => None
  end.

Definition baseMidiForString (stringIdx : Z) : Z :=
  match stringIdx with
  | 0%Z => 43
  | 1%Z => 38
  | 2%Z => 33
  | _ => 28
  end.

(** Cubic ease-out 0..1. *)
Definition easeOutCubic01 (t : Q) : Q :=
  let t := jlimit 0 1 t in
  1 - (1 - t) ^ 3.

(** ** Data of the component *)

(** A C array of [kNumStrings] elements.  [index4] is the subscript
    [arr[i]]; [None] stands for an access outside the array. *)
Record Array4 (A : Type) : Type :=
  mkArray4 { at0 : A; at1 : A; at2 : A; at3 : A }.

Definition index4 (A : Type) (arr : Array4 A) (i : Z) : option A :=
  match i with
  | 0%Z => Some (at0 arr)
  | 1%Z => Some (at1 arr)
  | 2%Z => Some (at2 arr)
  | 3%Z => Some (at3 arr)
  | _ => None
  end.

(** The result of [for (int s = 0; s < kNumStrings; ++s) arr[s] = f (s)]. *)
Definition tabulate4 (A : Type) (f : Z -> A) : Array4 A :=
  mkArray4 (f 0%Z) (f 1%Z) (f 2%Z) (f 3%Z).

Definition stringIndices : list Z := [0; 1; 2; 3]%Z.

Inductive Colour : Type :=
| Argb (argb : Z)
| WithAlpha (argb : Z) (alpha : Q).

(** [juce::Path]: the shapes added since the last [clear()].  [Line] is a
    [startNewSubPath] followed by one [lineTo]. *)
Inductive PathElement : Type :=
| RoundedRectangle (r : Rectangle) (cornerSize : Q)
| Line (x1 y1 x2 y2 : Q)
| Ellipse (r : Rectangle).

Definition Path : Type := list PathElement.

(** The calls received by a [juce::Graphics]. *)
Inductive DrawOp : Type :=
| FillAll (c : Colour)
| FillPath (c : Colour) (p : Path)
| FillRoundedRectangle (c : Colour) (r : Rectangle) (cornerSize : Q)
| StrokePath (c : Colour) (p : Path) (thickness : Q)
| FillEllipse (c : Colour) (r : Rectangle)
| DrawEllipse (c : Colour) (r : Rectangle) (thickness : Q).

(** [juce::Image]: its size and what has been drawn into it. *)
Record Image : Type :=
  mkImage { imageWidth : Z; imageHeight : Z; imageOps : list DrawOp }.

Record Animation : Type := mkAnimation {
  t0 : Q;
  duration : Q;
  stringIdx : Z;
  fretIdx : Z;
  isOpen : bool;
  noteName : string;
  center : Point;
  bounds : Rectangle
}.

(** The members of [FretboardComponent], with the size of the component
    ([getWidth()], [getHeight()]).  [staticLayer = None] is the null image.
    [onNotePlayed] tells whether a callback is registered; calling it is
    recorded as the effect [NotePlayed]. *)
Record Fretboard : Type := mkFretboard {
  width : Z;
  height : Z;
  onNotePlayed : bool;
  active : list Animation;
  staticLayer : option Image;
  boardBounds : Rectangle;
  rowRects : Array4 Rectangle;
  openCircles : Array4 Rectangle;
  openRadius : Q;
  edgePath : Path;
  fretLines : Path;
  stringLines : Path;
  inlaysPath : Path;
  nutPath : Path
}.

(** What an operation does besides changing the members, in program order:
    drawing on the [Graphics] of [paint] (a shape, or the cached image at
    the origin), rebuilding the static layer, calling the callback,
    appending to [active] and asking for a repaint of a region ([Repaint]
    carries the region before [toNearestInt]). *)
Inductive Effect : Type :=
| Draw (op : DrawOp)
| DrawImageAt (img : option Image)
| StaticRebuilt (w h : Z)
| NotePlayed (name : string)
| HighlightAdded (a : Animation)
| Repaint (region : Rectangle).

(** The component as constructed. *)
Definition newFretboard : Fretboard := {|
  width := 0; height := 0;
  onNotePlayed := false;
  active := [];
  staticLayer := None;
  boardBounds := emptyRectangle;
  rowRects := tabulate4 (fun _ => emptyRectangle);
  openCircles := tabulate4 (fun _ => emptyRectangle);
  openRadius := 0;
  edgePath := []; fretLines := []; stringLines := [];
  inlaysPath := []; nutPath := []
|}.

(** ** A monad for the member functions: state, effects and failure

    [None] is an access outside an array, which the source never checks. *)
Definition M (A : Type) : Type :=
  Fretboard -> option (A * Fretboard * list Effect).

Definition ret (A : Type) (a : A) : M A := fun st => Some (a, st, []).

Definition bind (A B : Type) (m : M A) (k : A -> M B) : M B :=
  fun st =>
    match m st with
    | None => None
    | Some (a, st1, e1) =>
        match k a st1 with
        | None => None
        | Some (b, st2, e2) => Some (b, st2, e1 ++ e2)
        end
    end.

Definition get : M Fretboard := fun st => Some (st, st, []).
Definition modify (f : Fretboard -> Fretboard) : M unit :=
  fun st => Some (tt, f st, []).
Definition emit (e : Effect) : M unit := fun st => Some (tt, st, [e]).
Definition lift (A : Type) (o : option A) : M A :=
  fun st => match o with Some a => Some (a, st, []) | None => None end.
Definition when (b : bool) (m : M unit) : M unit := if b then m else ret tt.

Declare Scope fretboard_scope.
Delimit Scope fretboard_scope with fb.
Notation "x <- m ;; k" := (bind m (fun x => k))
  (at level 61, m at next level, right associativity) : fretboard_scope.
Notation "m ;; k" := (bind m (fun _ => k))
  (at level 61, right associativity) : fretboard_scope.
Open Scope fretboard_scope.

(** The state and the effects of a run. *)
Definition stateOf (A : Type) (r : option (A * Fretboard * list Effect))
  : option Fretboard :=
  match r with Some (_, st, _) => Some st | None => None end.
Definition effectsOf (A : Type) (r : option (A * Fretboard * list Effect))
  : list Effect :=
  match r with Some (_, _, e) => e | None => [] end.

(** ** Layout: the locals of [rebuildStatic] *)

Definition margin : Q := 16.
Definition leftOpenPad : Q := 64.
Definition edgeThickness : Q := 10.
Definition openGap : Q := 12.
Definition singleInlays : list Z := [3; 5; 7; 9]%Z.

Section Layout.
(** [getWidth()] and [getHeight()] when [rebuildStatic] runs. *)
Variables wd ht : Z.

Definition outer : Rectangle := reduced (localBounds wd ht) margin.
Definition boardOuter : Rectangle := withTrimmedLeft outer leftOpenPad.
Definition boardBoundsFor : Rectangle := reduced boardOuter edgeThickness.

Definition rowH : Q := getHeight boardBoundsFor / inject_Z kNumStrings.
Definition rowRectFor (s : Z) : Rectangle :=
  let r := withHeight
             (withY boardBoundsFor (getY boardBoundsFor + inject_Z s * rowH))
             rowH in
  reduced2 r 0 (jmin 3 (getHeight r * (12 # 100))).
Definition rowRectsFor : Array4 Rectangle := tabulate4 rowRectFor.

Definition edgePathFor : Path := [RoundedRectangle boardOuter 8].

Definition stringLinesFor : Path :=
  map (fun s =>
         let y := getCentreY (rowRectFor s) + (1 # 2) in
         Line (round (getX boardBoundsFor) + (1 # 2)) y
              (round (getRight boardBoundsFor) + (1 # 2)) y)
      stringIndices.

Definition cwFor : Q := getWidth boardBoundsFor / inject_Z kNumFrets.
Definition fretLinesFor : Path :=
  map (fun f =>
         let x := round (getX boardBoundsFor + inject_Z f * cwFor) + (1 # 2) in
         Line x (getY boardBoundsFor) x (getBottom boardBoundsFor))
      [1; 2; 3; 4; 5; 6; 7; 8; 9; 10; 11; 12]%Z.

Definition nutPathFor : Path :=
  let x := round (getX boardBoundsFor) + (1 # 2) in
  [Line x (getY boardBoundsFor) x (getBottom boardBoundsFor)].

Definition inlayR : Q :=
  jlimit 8 20 (getHeight boardBoundsFor * (52 # 1000)).
Definition inlaysPathFor : Path :=
  map (fun idx =>
         let cx := getX boardBoundsFor + (inject_Z idx - (1 # 2)) * cwFor in
         let cy := getCentreY boardBoundsFor in
         Ellipse (rect (cx - inlayR) (cy - inlayR) (2 * inlayR) (2 * inlayR)))
      singleInlays
  ++
  (let cx := getX boardBoundsFor + (12 - (1 # 2)) * cwFor in
   let y1 := getY boardBoundsFor + getHeight boardBoundsFor * (28 # 100) in
   let y2 := getY boardBoundsFor + getHeight boardBoundsFor * (72 # 100) in
   [Ellipse (rect (cx - inlayR) (y1 - inlayR) (2 * inlayR) (2 * inlayR));
    Ellipse (rect (cx - inlayR) (y2 - inlayR) (2 * inlayR) (2 * inlayR))]).

Definition openRadiusFor : Q :=
  jlimit 12 22 (getHeight boardBoundsFor * (65 # 1000)).
Definition openCircleFor (s : Z) : Rectangle :=
  let cy := getCentreY (rowRectFor s) in
  let nutX := round (getX boardBoundsFor) + (1 # 2) in
  let cx := nutX - (openRadiusFor + openGap) in
  rect (cx - openRadiusFor) (cy - openRadiusFor)
       (2 * openRadiusFor) (2 * openRadiusFor).
Definition openCirclesFor : Array4 Rectangle := tabulate4 openCircleFor.

(** What [rebuildStatic] draws into the new image, in order. *)
Definition staticOps : list DrawOp :=
  [ FillAll (Argb kPluginBg);
    FillPath (Argb kWoodEdge) edgePathFor;
    FillRoundedRectangle (Argb kBoardFill) boardBoundsFor 6;
    StrokePath (Argb kStringBlack) stringLinesFor (3 # 2);
    StrokePath (Argb kFretOutline) fretLinesFor (26 # 10);
    StrokePath (Argb kFretSilver) fretLinesFor 2;
    StrokePath (Argb kNutBlack) nutPathFor (5 # 2);
    FillPath (Argb kInlayFill) inlaysPathFor;
    StrokePath (Argb kInlayStroke) inlaysPathFor 1 ]
  ++ flat_map (fun s =>
                 [ FillEllipse (Argb kOpenFill) (openCircleFor s);
                   DrawEllipse (Argb kOpenStroke) (openCircleFor s) 1 ])
              stringIndices.

(** The members after the body of [rebuildStatic] has run. *)
Definition rebuilt (st : Fretboard) : Fretboard := {|
  width := width st; height := height st;
  onNotePlayed := onNotePlayed st;
  active := active st;
  staticLayer := Some (mkImage wd ht staticOps);
  boardBounds := boardBoundsFor;
  rowRects := rowRectsFor;
  openCircles := openCirclesFor;
  openRadius := openRadiusFor;
  edgePath := edgePathFor; fretLines := fretLinesFor;
  stringLines := stringLinesFor;
  inlaysPath := inlaysPathFor; nutPath := nutPathFor
|}.
End Layout.

(** ** Member functions of [FretboardComponent] *)

Definition rebuildStatic : M unit :=
  st <- get ;;
  if (width st <=? 2)%Z || (height st <=? 2)%Z then ret tt
  else
    emit (StaticRebuilt (width st) (height st)) ;;
    modify (rebuilt (width st) (height st)).

Definition setActive (l : list Animation) (st : Fretboard) : Fretboard := {|
  width := width st; height := height st;
  onNotePlayed := onNotePlayed st;
  active := l;
  staticLayer := staticLayer st;
  boardBounds := boardBounds st;
  rowRects := rowRects st;
  openCircles := openCircles st;
  openRadius := openRadius st;
  edgePath := edgePath st; fretLines := fretLines st;
  stringLines := stringLines st;
  inlaysPath := inlaysPath st; nutPath := nutPath st
|}.

(** [active.add (a)] appends at the end. *)
Definition addActive (a : Animation) (st : Fretboard) : Fretboard :=
  setActive (active st ++ [a]) st.

(** The circle of radius [openRadius] around a center, as [triggerNote] and
    [paint] both build it. *)
Definition circleAround (c : Point) (radius : Q) : Rectangle :=
  rect (x c - radius) (y c - radius) (2 * radius) (2 * radius).

Definition triggerNote (sIdx fIdx : Z) (now : Q) : M unit :=
  if (sIdx <? 0)%Z || (sIdx >=? kNumStrings)%Z then ret tt
  else if (fIdx <? 0)%Z || (fIdx >? kNumFrets)%Z then ret tt
  else
    st0 <- get ;;
    when (Qle_bool (openRadius st0) 0) rebuildStatic ;;
    st <- get ;;
    name <- lift (midiToNote (baseMidiForString sIdx + fIdx)) ;;
    c <- (if (fIdx =? 0)%Z
          then
            oc <- lift (index4 (openCircles st) sIdx) ;;
            ret (getCentre oc)
          else
            let cw := getWidth (boardBounds st) / inject_Z kNumFrets in
            let cx := getX (boardBounds st)
                      + (inject_Z fIdx - (1 # 2)) * cw in
            row <- lift (index4 (rowRects st) sIdx) ;;
            ret (mkPoint cx (getCentreY row))) ;;
    let a := {| t0 := now; duration := 18 # 10;
                stringIdx := sIdx; fretIdx := fIdx;
                isOpen := (fIdx =? 0)%Z;
                noteName := name;
                center := c;
                bounds := expanded (circleAround c (openRadius st)) 3 |} in
    when (onNotePlayed st) (emit (NotePlayed name)) ;;
    modify (addActive a) ;;
    emit (HighlightAdded a) ;;
    emit (Repaint (bounds a)).

(** [active.remove (i)]. *)
Definition removeAt (A : Type) (i : nat) (l : list A) : list A :=
  firstn i l ++ skipn (S i) l.

(** The local [alpha] of [paint], from the local [t]. *)
Definition fadeAlpha (t : Q) : Q := 1 - easeOutCubic01 t.

(** The local [t] of [paint]: the fraction of the highlight's life that has
    elapsed at [now]. *)
Definition lifeFraction (a : Animation) (now : Q) : Q :=
  (now - t0 a) / duration a.

(** The loop [for (int i = active.size(); --i >= 0;)] of [paint], entered
    with [i = n]: the index visited first is [n - 1]. *)
Fixpoint paintLoop (n : nat) (now : Q) : M unit :=
  match n with
  | O => ret tt
  | S i =>
      st <- get ;;
      a <- lift (nth_error (active st) i) ;;
      let t := lifeFraction a now in
      if Qle_bool 1 t
      then modify (fun st => setActive (removeAt i (active st)) st) ;;
           paintLoop i now
      else
        let alpha := fadeAlpha t in
        emit (Draw (FillEllipse (WithAlpha kHighlightBB alpha)
                                (circleAround (center a) (openRadius st)))) ;;
        paintLoop i now
  end.

Definition staticLayerStale (st : Fretboard) : bool :=
  match staticLayer st with
  | None => true
  | Some img =>
      negb (imageWidth img =? width st)%Z
      || negb (imageHeight img =? height st)%Z
  end.

Definition paint (now : Q) : M unit :=
  emit (Draw (FillAll (Argb kPluginBg))) ;;
  st0 <- get ;;
  when (staticLayerStale st0) rebuildStatic ;;
  st <- get ;;
  emit (DrawImageAt (staticLayer st)) ;;
  paintLoop (length (active st)) now.

Definition resized : M unit := rebuildStatic.

(** The loop [for (int s = 0; s < kNumStrings; ++s) if (arr[s].contains (p))]
    stopped at the first hit. *)
Definition firstContaining (arr : Array4 Rectangle) (p : Point) : option Z :=
  find (fun s => match index4 arr s with
                 | Some r => contains r p
                 | None => false
                 end)
       stringIndices.

(** The locals [xRel] and [cw] are [float]s, and so is the quotient handed
    to [std::floor]: each is rounded to single precision. *)
Definition mouseDown (p : Point) (now : Q) : M unit :=
  st <- get ;;
  match firstContaining (openCircles st) p with
  | Some s => triggerNote s 0 now
  | None =>
      if negb (contains (boardBounds st) p) then ret tt
      else
        match firstContaining (rowRects st) p with
        | None => ret tt
        | Some sIdx =>
            let xRel := Float32.round (x p - getX (boardBounds st)) in
            let cw := Float32.round
                        (getWidth (boardBounds st) / inject_Z kNumFrets) in
            let fIdx := (Qfloor (Float32.round (xRel / cw)) + 1)%Z in
            let fIdx := jlimitZ 1 kNumFrets fIdx in
            triggerNote sIdx fIdx now
        end
  end.

Definition cellRect (st : Fretboard) (sIdx fIdx : Z) : option Rectangle :=
  let cw := getWidth (boardBounds st) / inject_Z kNumFrets in
  match index4 (rowRects st) sIdx with
  | Some r =>
      Some (setWidth
              (setX r (getX (boardBounds st) + inject_Z (fIdx - 1) * cw))
              cw)
  | None => None
  end.

(** ** The host

    [Component::setBounds] stores the new size and calls [resized()] when the
    size has changed; assigning [onNotePlayed] registers or clears the
    callback. *)
Definition setDims (wd ht : Z) (st : Fretboard) : Fretboard := {|
  width := wd; height := ht;
  onNotePlayed := onNotePlayed st;
  active := active st;
  staticLayer := staticLayer st;
  boardBounds := boardBounds st;
  rowRects := rowRects st;
  openCircles := openCircles st;
  openRadius := openRadius st;
  edgePath := edgePath st; fretLines := fretLines st;
  stringLines := stringLines st;
  inlaysPath := inlaysPath st; nutPath := nutPath st
|}.

Definition setSize (wd ht : Z) : M unit :=
  let wd := jmaxZ 0 wd in
  let ht := jmaxZ 0 ht in
  st <- get ;;
  if (wd =? width st)%Z && (ht =? height st)%Z then ret tt
  else modify (setDims wd ht) ;; resized.

Definition setCallback (registered : bool) (st : Fretboard) : Fretboard := {|
  width := width st; height := height st;
  onNotePlayed := registered;
  active := active st;
  staticLayer := staticLayer st;
  boardBounds := boardBounds st;
  rowRects := rowRects st;
  openCircles := openCircles st;
  openRadius := openRadius st;
  edgePath := edgePath st; fretLines := fretLines st;
  stringLines := stringLines st;
  inlaysPath := inlaysPath st; nutPath := nutPath st
|}.

Inductive Op : Type :=
| OpSetSize (wd ht : Z)
| OpResized
| OpSetCallback (registered : bool)
| OpPaint (now : Q)
| OpMouseDown (p : Point) (now : Q)
| OpTriggerNote (sIdx fIdx : Z) (now : Q).

Definition run (op : Op) : M unit :=
  match op with
  | OpSetSize wd ht => setSize wd ht
  | OpResized => resized
  | OpSetCallback b => modify (setCallback b)
  | OpPaint now => paint now
  | OpMouseDown p now => mouseDown p now
  | OpTriggerNote s f now => triggerNote s f now
  end.

(** The states the component can be in: the constructed one and those an
    operation leads to. *)
Inductive reachable : Fretboard -> Prop :=
| reachable_new : reachable newFretboard
| reachable_run : forall st op st' evs,
    reachable st -> run op st = Some (tt, st', evs) -> reachable st'.

(** Running a list of operations from a state. *)
Fixpoint runAll (ops : list Op) : M unit :=
  match ops with
  | [] => ret tt
  | op :: rest => run op ;; runAll rest
  end.

(** ** Notions used in the statements *)

(** The guard of [rebuildStatic], and what a call does to the members and
    to the effects. *)
Definition degenerate (st : Fretboard) : bool :=
  (width st <=? 2)%Z || (height st <=? 2)%Z.
Definition afterRebuild (st : Fretboard) : Fretboard :=
  if degenerate st then st else rebuilt (width st) (height st) st.
Definition rebuildEffects (st : Fretboard) : list Effect :=
  if degenerate st then [] else [StaticRebuilt (width st) (height st)].

(** The members and the effects after the first statement of [triggerNote],
    [if (openRadius <= 0.0f) rebuildStatic()]. *)
Definition ensured (st : Fretboard) : Fretboard :=
  if Qle_bool (openRadius st) 0 then afterRebuild st else st.
Definition ensureEffects (st : Fretboard) : list Effect :=
  if Qle_bool (openRadius st) 0 then rebuildEffects st else [].

(** The center [triggerNote] resolves from the geometry of [st]. *)
Definition centerFor (st : Fretboard) (sIdx fIdx : Z) : option Point :=
  if (fIdx =? 0)%Z
  then option_map getCentre (index4 (openCircles st) sIdx)
  else
    let cw := getWidth (boardBounds st) / inject_Z kNumFrets in
    let cx := getX (boardBounds st) + (inject_Z fIdx - (1 # 2)) * cw in
    option_map (fun row => mkPoint cx (getCentreY row))
               (index4 (rowRects st) sIdx).

(** The geometry members are those [rebuildStatic] computes for a size. *)
Definition geometryIs (wd ht : Z) (st : Fretboard) : Prop :=
  boardBounds st = boardBoundsFor wd ht
  /\ rowRects st = rowRectsFor wd ht
  /\ openCircles st = openCirclesFor wd ht
  /\ openRadius st = openRadiusFor wd ht.

(** The test [t >= 1.0] of [paint], and its complement. *)
Definition expired (now : Q) (a : Animation) : bool :=
  Qle_bool 1 (lifeFraction a now).
Definition alive (now : Q) (a : Animation) : bool := negb (expired now a).

(** What [paint] draws for a highlight that is still alive. *)
Definition highlightDraw (st : Fretboard) (now : Q) (a : Animation) : Effect :=
  Draw (FillEllipse (WithAlpha kHighlightBB (fadeAlpha (lifeFraction a now)))
                    (circleAround (center a) (openRadius st))).

(** The opacity of a highlight when [elapsed] seconds have passed since its
    creation: [paint] computes it at [elapsed = now - t0]. *)
Definition opacity (a : Animation) (elapsed : Q) : Q :=
  fadeAlpha (elapsed / duration a).

Definition isStaticRebuilt (e : Effect) : bool :=
  match e with StaticRebuilt _ _ => true | _ => false end.
Definition countRebuilds (evs : list Effect) : nat :=
  length (filter isStaticRebuilt evs).

(** The name of the highlight appended last, after a run. *)
Definition lastNoteName (A : Type)
  (r : option (A * Fretboard * list Effect)) : option string :=
  match stateOf r with
  | Some st => option_map noteName (nth_error (rev (active st)) 0)
  | None => None
  end.

(** A point lies within distance [radius] of [c]. *)
Definition withinCircle (c : Point) (radius : Q) (p : Point) : bool :=
  Qle_bool ((x p - x c) ^ 2 + (y p - y c) ^ 2) (radius ^ 2).

(** A point lies in the half-open square of half-side [radius] around [c]. *)
Definition withinSquare (c : Point) (radius : Q) (p : Point) : Prop :=
  x c - radius <= x p /\ x p < x c + radius
  /\ y c - radius <= y p /\ y p < y c + radius.

(** The highlight [triggerNote] builds once the name and the center are
    known. *)
Definition newHighlight (st : Fretboard) (sIdx fIdx : Z) (now : Q)
  (name : string) (c : Point) : Animation := {|
  t0 := now; duration := 18 # 10;
  stringIdx := sIdx; fretIdx := fIdx;
  isOpen := (fIdx =? 0)%Z;
  noteName := name;
  center := c;
  bounds := expanded (circleAround c (openRadius st)) 3
|}.

(** The members and the effects after the second statement of [paint],
    which rebuilds the static layer when it is missing or has another size. *)
Definition refreshed (st : Fretboard) : Fretboard :=
  if staticLayerStale st then afterRebuild st else st.
Definition refreshEffects (st : Fretboard) : list Effect :=
  if staticLayerStale st then rebuildEffects st else [].

(** Each open-string target is the square around a circle of radius
    [openRadius]. *)
Definition openCirclesFit (st : Fretboard) : Prop :=
  0 <= openRadius st
  /\ forall s oc, index4 (openCircles st) s = Some oc ->
                  exists c, oc = circleAround c (openRadius st).

(** Every highlight has the fixed duration, a component of a size that
    [rebuildStatic] accepts has the geometry of that size, and the
    open-string targets fit [openRadius]. *)
Definition wellFormed (st : Fretboard) : Prop :=
  Forall (fun a => duration a = 18 # 10) (active st)
  /\ (degenerate st = false -> geometryIs (width st) (height st) st)
  /\ openCirclesFit st.

(** The outcome of the scan [for (s = 0; s < kNumStrings; ++s)] over an
    array of rectangles: [s] is the first index whose rectangle contains
    the point, or no rectangle contains it. *)
Definition firstHit (arr : Array4 Rectangle) (p : Point) (s : Z) : Prop :=
  (exists r, index4 arr s = Some r /\ contains r p = true)
  /\ (forall s' r', (0 <= s' < s)%Z -> index4 arr s' = Some r' ->
                    contains r' p = false).

(** The quotient [xRel / cw] of [mouseDown], as single precision gives
    it, and the quotient of the real values. *)
Definition fretQuotient (st : Fretboard) (p : Point) : Q :=
  Float32.round
    (Float32.round (x p - getX (boardBounds st))
     / Float32.round (getWidth (boardBounds st) / 12)).
Definition exactQuotient (st : Fretboard) (p : Point) : Q :=
  (x p - getX (boardBounds st)) / (getWidth (boardBounds st) / 12).

(** The fret [mouseDown] resolves for a point inside the board. *)
Definition fretAt (st : Fretboard) (p : Point) : Z :=
  jlimitZ 1 12 (Qfloor (fretQuotient st p) + 1).

(** A point keeps a thousandth of the width of a rectangle away from its
    left and its right edge. *)
Definition clearOfSides (r : Rectangle) (p : Point) : Prop :=
  getX r + getWidth r * (1 # 1000) <= x p
  /\ x p <= getRight r - getWidth r * (1 # 1000).

(** A point lies in a rectangle or within a thousandth of its width beside
    it. *)
Definition nearlyContains (r : Rectangle) (p : Point) : Prop :=
  getX r - getWidth r * (1 # 1000) <= x p
  /\ x p < getRight r + getWidth r * (1 # 1000)
  /\ getY r <= y p /\ y p < getBottom r.

(** ** The note names as the design document gives them *)

Definition specChromatic : list string :=
  ["C"; "C#"; "D"; "D#"; "E"; "F"; "F#"; "G"; "G#"; "A"; "A#"; "B"]%string.
Definition specBase (row : Z) : Z :=
  nth (Z.to_nat row) [43; 38; 33; 28]%Z 0%Z.
(** Name at [midi mod 12], octave [floor (midi / 12) - 1]. *)
Definition specNoteName (midi : Z) : string :=
  (nth (Z.to_nat (midi mod 12)) specChromatic EmptyString ++
   String_of_int (midi / 12 - 1))%string.

(** ** Sample inputs *)

(** The component as [PluginEditor] sets it up: the callback is registered,
    then [setSize (980, 340)] gives the fretboard the area 960 x 292. *)
Definition editorOps : list Op := [OpSetCallback true; OpSetSize 960 292].
Definition editorBoard : Fretboard :=
  rebuilt 960 292 (setDims 960 292 (setCallback true newFretboard)).

(** A highlight as [triggerNote (0, 0)] creates it at time 0. *)
Definition sampleHighlight : Animation := {|
  t0 := 0; duration := 18 # 10; stringIdx := 0; fretIdx := 0;
  isOpen := true; noteName := "G2";
  center := getCentre (openCircleFor 960 292 0);
  bounds := expanded (circleAround (getCentre (openCircleFor 960 292 0))
                                   (openRadiusFor 960 292)) 3
|}.

(** The top-left corner of the first open-string target of [editorBoard]. *)
Definition cornerPoint : Point :=
  mkPoint (getX (openCircleFor 960 292 0)) (getY (openCircleFor 960 292 0)).

(** [editorBoard] after [triggerNote (0, 0)] at time 0. *)
Definition playedBoard : Fretboard := addActive sampleHighlight editorBoard.

(** The center of the third open-string target of [editorBoard], a point of
    the fifth fret cell of its top row, and a point in its margin. *)
Definition thirdOpenPoint : Point := getCentre (openCircleFor 960 292 2).
Definition fifthCellPoint : Point := mkPoint 400 60.

(** The fretboard after [setSize (300, 292)], and the [float]
    197.3333282470703125 in its top row, a hair left of the line between
    the seventh and the eighth fret. *)
Definition slimBoard : Fretboard :=
  rebuilt 300 292 (setDims 300 292 newFretboard).
Definition belowSeventhLine : Point := mkPoint (12932437 # 65536) 60.

(** ** Integer rectangles and rounding

    [juce::Rectangle<int>] with the operations [timerCallback] and
    [PluginEditor::resized] call, after juce_Rectangle.h, and [roundToInt]
    after juce_MathsFunctions.h: to the nearest integer, a value halfway
    between two integers going to the even one. *)
Module JuceInt.

Definition jminZ (a b : Z) : Z := if (b <? a)%Z then b else a.

Definition roundToInt (v : Q) : Z :=
  let f := Qfloor v in
  let d := v - inject_Z f in
  if Qltb d (1 # 2) then f
  else if Qltb (1 # 2) d then (f + 1)%Z
  else if Z.even f then f else (f + 1)%Z.

Record IntRectangle : Type :=
  mkIntRectangle { ix : Z; iy : Z; iw : Z; ih : Z }.

(** The default-constructed rectangle. *)
Definition emptyIntRectangle : IntRectangle := mkIntRectangle 0 0 0 0.

Definition isEmpty (r : IntRectangle) : bool :=
  (iw r <=? 0)%Z || (ih r <=? 0)%Z.

Definition getUnion (r other : IntRectangle) : IntRectangle :=
  if isEmpty other then r
  else if isEmpty r then other
  else
    let newX := jminZ (ix r) (ix other) in
    let newY := jminZ (iy r) (iy other) in
    mkIntRectangle newX newY
      (jmaxZ (ix r + iw r) (ix other + iw other) - newX)
      (jmaxZ (iy r + ih r) (iy other + ih other) - newY).

Definition expanded (r : IntRectangle) (d : Z) : IntRectangle :=
  let nw := jmaxZ 0 (iw r + d * 2) in
  let nh := jmaxZ 0 (ih r + d * 2) in
  mkIntRectangle (ix r - d) (iy r - d) nw nh.
Definition reduced (r : IntRectangle) (d : Z) : IntRectangle :=
  expanded r (- d).

(** [removeFromTop (amount)]: the strip taken off, and what is left. *)
Definition removeFromTop (r : IntRectangle) (amount : Z)
  : IntRectangle * IntRectangle :=
  let taken := mkIntRectangle (ix r) (iy r) (iw r) (jminZ amount (ih r)) in
  (taken,
   mkIntRectangle (ix r) (iy r + ih taken) (iw r) (ih r - ih taken)).

(** [Rectangle<float>::toNearestInt]: position and size are rounded. *)
Definition toNearestInt (r : Rectangle) : IntRectangle :=
  mkIntRectangle (roundToInt (x (pos r))) (roundToInt (y (pos r)))
                 (roundToInt (w r)) (roundToInt (h r)).

Definition toFloat (r : IntRectangle) : Rectangle :=
  rect (inject_Z (ix r)) (inject_Z (iy r))
       (inject_Z (iw r)) (inject_Z (ih r)).

End JuceInt.

(** ** The periodic tick *)

(** The loop of [timerCallback] over [active], entered with [dirty]. *)
Definition dirtyUnion (dirty : JuceInt.IntRectangle) (l : list Animation)
  : JuceInt.IntRectangle :=
  fold_left
    (fun dirty a =>
       let b := JuceInt.toNearestInt (bounds a) in
       if JuceInt.isEmpty dirty then b else JuceInt.getUnion dirty b)
    l dirty.

(** [timerCallback]: the region handed to [repaint], an integer rectangle,
    is recorded with its coordinates as they are. *)
Definition timerCallback : M unit :=
  st <- get ;;
  match active st with
  | [] => ret tt
  | _ =>
      let dirty := dirtyUnion JuceInt.emptyIntRectangle (active st) in
      emit (Repaint (JuceInt.toFloat (JuceInt.expanded dirty 2)))
  end.

(** ** The editor window

    [PluginEditor] owns the fretboard and the label; the callback it
    registers writes the note into the label.  The bounds of the label and
    the inspector button are left out. *)
Record PluginEditor : Type := mkPluginEditor {
  editorWidth : Z;
  editorHeight : Z;
  fretboard : Fretboard;
  lastNoteLabel : string
}.

(** The local [area] of [PluginEditor::resized] when it reaches
    [fretboard->setBounds (area)]. *)
Definition fretboardArea (edW edH : Z) : JuceInt.IntRectangle :=
  let area := JuceInt.reduced (JuceInt.mkIntRectangle 0 0 edW edH) 10 in
  snd (JuceInt.removeFromTop area 28).

(** The lambda assigned to [onNotePlayed]. *)
Definition noteLabelText (note : string) : string :=
  ("Note: " ++ note)%string.

(** The label after the callbacks among the effects of a member function
    have run. *)
Definition labelAfter (evs : list Effect) (label : string) : string :=
  fold_left (fun l e => match e with
                        | NotePlayed note => noteLabelText note
                        | _ => l
                        end)
            evs label.

(** Running a member function of the fretboard inside the editor. *)
Definition onFretboard (m : M unit) (ed : PluginEditor)
  : option (PluginEditor * list Effect) :=
  match m (fretboard ed) with
  | Some (_, fb, evs) =>
      Some (mkPluginEditor (editorWidth ed) (editorHeight ed) fb
                           (labelAfter evs (lastNoteLabel ed)),
            evs)
  | None => None
  end.

(** [PluginEditor::resized]. *)
Definition editorResized (ed : PluginEditor)
  : option (PluginEditor * list Effect) :=
  let area := fretboardArea (editorWidth ed) (editorHeight ed) in
  onFretboard (setSize (JuceInt.iw area) (JuceInt.ih area)) ed.

(** [setSize] of the editor window: the size is stored and [resized] runs
    when it has changed. *)
Definition editorSetSize (edW edH : Z) (ed : PluginEditor)
  : option (PluginEditor * list Effect) :=
  let edW := jmaxZ 0 edW in
  let edH := jmaxZ 0 edH in
  if (edW =? editorWidth ed)%Z && (edH =? editorHeight ed)%Z
  then Some (ed, [])
  else editorResized
         (mkPluginEditor edW edH (fretboard ed) (lastNoteLabel ed)).

(** The constructor of [PluginEditor]. *)
Definition newPluginEditor : option (PluginEditor * list Effect) :=
  editorSetSize 980 340
    (mkPluginEditor 0 0 (setCallback true newFretboard)
                    "Click a fret or an open circle").

(** ** Reading a note name back *)

Definition parseInt (s : string) : option Z :=
  option_map Z.of_int (NilZero.int_of_string s).

Definition naturalIndex (letter : ascii) : option Z :=
  if Ascii.eqb letter "C" then Some 0%Z
  else if Ascii.eqb letter "D" then Some 2%Z
  else if Ascii.eqb letter "E" then Some 4%Z
  else if Ascii.eqb letter "F" then Some 5%Z
  else if Ascii.eqb letter "G" then Some 7%Z
  else if Ascii.eqb letter "A" then Some 9%Z
  else if Ascii.eqb letter "B" then Some 11%Z
  else None.

Definition sharpIndex (letter : ascii) : option Z :=
  if Ascii.eqb letter "C" then Some 1%Z
  else if Ascii.eqb letter "D" then Some 3%Z
  else if Ascii.eqb letter "F" then Some 6%Z
  else if Ascii.eqb letter "G" then Some 8%Z
  else if Ascii.eqb letter "A" then Some 10%Z
  else None.

(** The pitch a name stands for: the inverse of [midiToNote], by which names
    are shown to determine pitches. *)
Definition noteToMidi (name : string) : option Z :=
  match name with
  | String letter (String a rest as tail) =>
      let '(idx, digits) :=
        if Ascii.eqb a "#" then (sharpIndex letter, rest)
        else (naturalIndex letter, tail) in
      match idx, parseInt digits with
      | Some i, Some oct => Some (12 * (oct + 1) + i)%Z
      | _, _ => None
      end
  | _ => None
  end.

(** ** Further notions used in the statements *)

(** The static layer is the drawing [rebuildStatic] makes for the size. *)
Definition layerIsFor (wd ht : Z) (st : Fretboard) : Prop :=
  staticLayer st = Some (mkImage wd ht (staticOps wd ht)).

(** The bounds of a highlight leave room for a circle of radius 0 or more
    and the margin of 3 on each side. *)
Definition roomy (a : Animation) : Prop :=
  6 <= w (bounds a) /\ 6 <= h (bounds a).

(** Every point of [inner] is a point of [outer]. *)
Definition covers (outer inner : Rectangle) : Prop :=
  forall p, contains inner p = true -> contains outer p = true.

(** The regions of the [Repaint] effects. *)
Definition repaintRegions (evs : list Effect) : list Rectangle :=
  flat_map (fun e => match e with Repaint r => [r] | _ => [] end) evs.

(** The opacities of the highlights drawn. *)
Definition drawnAlphas (evs : list Effect) : list Q :=
  flat_map (fun e => match e with
                     | Draw (FillEllipse (WithAlpha _ alpha) _) => [alpha]
                     | _ => []
                     end) evs.

(** One integer rectangle encloses another. *)
Definition encloses (u b : JuceInt.IntRectangle) : Prop :=
  (JuceInt.ix u <= JuceInt.ix b)%Z /\ (JuceInt.iy u <= JuceInt.iy b)%Z
  /\ (JuceInt.ix b + JuceInt.iw b <= JuceInt.ix u + JuceInt.iw u)%Z
  /\ (JuceInt.iy b + JuceInt.ih b <= JuceInt.iy u + JuceInt.ih u)%Z.

(** ** Further sample inputs *)

(** The fretboard after [setSize (100, 292)] and after [setSize (960, 40)]:
    too narrow and too flat for a board. *)
Definition narrowBoard : Fretboard :=
  rebuilt 100 292 (setDims 100 292 newFretboard).
Definition flatBoard : Fretboard :=
  rebuilt 960 40 (setDims 960 40 newFretboard).

(** The fretboard after [setSize (1000, 292)], whose board ends at
    [x = 974], and the last [float] to the left of that edge. *)
Definition wideBoard : Fretboard :=
  rebuilt 1000 292 (setDims 1000 292 newFretboard).
Definition lastBeforeRightEdge : Point := mkPoint (974 - (1 # 16384)) 60.

(** * Properties *)

Unset Implicit Arguments.

(** ** Comparisons *)

Lemma Qltb_lt (a b : Q) : Qltb a b = true <-> a < b.
Proof.
  unfold Qltb. rewrite negb_true_iff.
  split; intro H.
  - apply Qnot_le_lt. intro Hle. apply Qle_bool_iff in Hle. congruence.
  - destruct (Qle_bool b a) eqn:E; [|reflexivity].
    apply Qle_bool_iff in E. exfalso. exact (Qlt_not_le _ _ H E).
Qed.

Lemma Qltb_ge (a b : Q) : Qltb a b = false <-> b <= a.
Proof.
  unfold Qltb. rewrite negb_false_iff. apply Qle_bool_iff.
Qed.

Lemma Qle_bool_gt (a b : Q) : Qle_bool a b = false <-> b < a.
Proof.
  rewrite <- Qltb_lt. unfold Qltb. now rewrite negb_true_iff.
Qed.

Lemma contains_spec (r : Rectangle) (p : Point) :
  contains r p = true <->
  getX r <= x p /\ getY r <= y p /\ x p < getRight r /\ y p < getBottom r.
Proof.
  unfold contains, getX, getY, getRight, getBottom.
  rewrite !andb_true_iff, !Qle_bool_iff, !Qltb_lt. tauto.
Qed.

(** ** Single precision *)

Lemma nearestEven_near (v : Q) :
  v - (1 # 2) <= inject_Z (Float32.nearestEven v)
  /\ inject_Z (Float32.nearestEven v) <= v + (1 # 2).
Proof.
  unfold Float32.nearestEven. cbv zeta.
  pose proof (Qfloor_le v) as F1. pose proof (Qlt_floor v) as F2.
  rewrite inject_Z_plus in F2. change (inject_Z 1) with 1 in F2.
  destruct (Qltb (v - inject_Z (Qfloor v)) (1 # 2)) eqn:E1.
  - apply Qltb_lt in E1. split; lra.
  - apply Qltb_ge in E1.
    destruct (Qltb (1 # 2) (v - inject_Z (Qfloor v))) eqn:E2.
    + rewrite inject_Z_plus. change (inject_Z 1) with 1. split; lra.
    + apply Qltb_ge in E2.
      destruct (Z.even (Qfloor v));
        [|rewrite inject_Z_plus; change (inject_Z 1) with 1]; split; lra.
Qed.

Lemma nearestEven_nonneg (v : Q) : 0 <= v -> (0 <= Float32.nearestEven v)%Z.
Proof.
  intro H.
  assert (F : (0 <= Qfloor v)%Z).
  { rewrite <- (Qfloor_Z 0). now apply Qfloor_resp_le. }
  unfold Float32.nearestEven. cbv zeta.
  destruct (Qltb _ _); [exact F|].
  destruct (Qltb _ _); [lia|]. destruct (Z.even _); lia.
Qed.

Lemma pow2_pos (e : Z) : 0 < 2 ^ e.
Proof. apply Qpower_0_lt. reflexivity. Qed.

Lemma pow2_plus (a b : Z) : 2 ^ (a + b) == 2 ^ a * 2 ^ b.
Proof. apply Qpower_plus. discriminate. Qed.

Lemma pow2_inject (n : Z) : (0 <= n)%Z -> 2 ^ n == inject_Z (2 ^ n).
Proof. intro H. now rewrite (Zpower_Qpower 2 n H). Qed.

(** The binade [ilog2] finds lies below the value. *)
Lemma ilog2_le (q : Q) : 0 < q -> 2 ^ Float32.ilog2 q <= q.
Proof.
  intro Hq. unfold Float32.ilog2. cbv zeta.
  destruct (Qle_bool _ q) eqn:E; [now apply Qle_bool_iff in E|]. clear E.
  destruct q as [n d]. cbn [Qnum Qden].
  assert (Hn : (0 < n)%Z).
  { unfold Qlt in Hq. cbn in Hq. lia. }
  pose proof (Z.log2_spec n Hn) as [A _].
  pose proof (Z.log2_spec (Zpos d) (Pos2Z.is_pos d)) as [_ B].
  pose proof (Z.log2_nonneg n) as A0.
  pose proof (Z.log2_nonneg (Zpos d)) as B0.
  set (a := Z.log2 n) in *. set (b := Z.log2 (Zpos d)) in *.
  assert (P : 2 ^ (a - b - 1) * 2 ^ Z.succ b == 2 ^ a).
  { rewrite <- pow2_plus. replace (a - b - 1 + Z.succ b)%Z with a by lia.
    reflexivity. }
  rewrite (pow2_inject (Z.succ b)) in P by lia.
  rewrite (pow2_inject a) in P by lia.
  pose proof (pow2_pos (a - b - 1)) as Hp.
  set (t := 2 ^ (a - b - 1)) in *. clearbody t.
  assert (D : inject_Z (Zpos d) <= inject_Z (2 ^ Z.succ b))
    by (rewrite <- Zle_Qle; lia).
  assert (N : inject_Z (2 ^ a) <= inject_Z n) by (rewrite <- Zle_Qle; lia).
  assert (M : t * inject_Z (Zpos d) <= inject_Z n).
  { eapply Qle_trans; [|exact N]. rewrite <- P.
    apply Qmult_le_l; assumption. }
  assert (Eq : n # d == inject_Z n / inject_Z (Zpos d)) by apply Qmake_Qdiv.
  rewrite Eq. apply Qle_shift_div_l; [reflexivity | exact M].
Qed.

(** ... and the next one above it. *)
Lemma ilog2_lt (q : Q) : 0 < q -> q < 2 ^ (Float32.ilog2 q + 1).
Proof.
  intro Hq. unfold Float32.ilog2. cbv zeta.
  destruct (Qle_bool _ q) eqn:E.
  - clear E. destruct q as [n d]. cbn [Qnum Qden].
    assert (Hn : (0 < n)%Z).
    { unfold Qlt in Hq. cbn in Hq. lia. }
    pose proof (Z.log2_spec n Hn) as [_ A].
    pose proof (Z.log2_spec (Zpos d) (Pos2Z.is_pos d)) as [B _].
    pose proof (Z.log2_nonneg n) as A0.
    pose proof (Z.log2_nonneg (Zpos d)) as B0.
    set (a := Z.log2 n) in *. set (b := Z.log2 (Zpos d)) in *.
    assert (P : 2 ^ (a - b + 1) * 2 ^ b == 2 ^ Z.succ a).
    { rewrite <- pow2_plus. replace (a - b + 1 + b)%Z with (Z.succ a) by lia.
      reflexivity. }
    rewrite (pow2_inject b) in P by lia.
    rewrite (pow2_inject (Z.succ a)) in P by lia.
    pose proof (pow2_pos (a - b + 1)) as Hp.
    set (t := 2 ^ (a - b + 1)) in *. clearbody t.
    assert (D : inject_Z (2 ^ b) <= inject_Z (Zpos d))
      by (rewrite <- Zle_Qle; lia).
    assert (N : inject_Z n < inject_Z (2 ^ Z.succ a))
      by (rewrite <- Zlt_Qlt; lia).
    assert (M : inject_Z n < t * inject_Z (Zpos d)).
    { eapply Qlt_le_trans; [exact N|]. rewrite <- P.
      apply Qmult_le_l; assumption. }
    assert (Eq : n # d == inject_Z n / inject_Z (Zpos d)) by apply Qmake_Qdiv.
    rewrite Eq. apply Qlt_shift_div_r; [reflexivity | exact M].
  - replace (Z.log2 (Qnum q) - Z.log2 (Z.pos (Qden q)) - 1 + 1)%Z
      with (Z.log2 (Qnum q) - Z.log2 (Z.pos (Qden q)))%Z by lia.
    apply Qnot_le_lt. intro L. apply Qle_bool_iff in L. congruence.
Qed.

Lemma Qabs_nonneg_eq (q : Q) : 0 <= q -> Qabs q = q.
Proof.
  destruct q as [n d]. unfold Qle. cbn. intro H.
  rewrite Z.abs_eq by lia. reflexivity.
Qed.

Lemma ulp_pos (q : Q) : 0 < Float32.ulp q.
Proof. apply pow2_pos. Qed.

Lemma ulp_le (q : Q) :
  0 < q ->
  Float32.ulp q <= 2 * (q * Float32.unitRoundoff + Float32.tiny).
Proof.
  intro Hq. unfold Float32.ulp.
  rewrite (Qabs_nonneg_eq q) by lra.
  pose proof (ilog2_le q Hq) as L.
  assert (U : 2 * Float32.unitRoundoff == 2 ^ (-23)) by reflexivity.
  assert (T : 2 * Float32.tiny == 2 ^ (-126 - 23)) by reflexivity.
  assert (U0 : 0 < 2 ^ (-23)) by apply pow2_pos.
  assert (T0 : 0 < 2 ^ (-126 - 23)) by apply pow2_pos.
  set (c' := 2 ^ (-126 - 23)) in *.
  destruct (Z.max_spec (Float32.ilog2 q) (-126)) as [[_ ->] | [_ ->]].
  - fold c'. clearbody c'.
    set (u := Float32.unitRoundoff) in *. clearbody u.
    set (t := Float32.tiny) in *. clearbody t.
    assert (0 <= q * u) by (apply Qmult_le_0_compat; lra).
    lra.
  - clearbody c'.
    replace (Float32.ilog2 q - 23)%Z with (Float32.ilog2 q + -23)%Z by lia.
    rewrite pow2_plus.
    set (c := 2 ^ (-23)) in *. clearbody c.
    set (p := 2 ^ Float32.ilog2 q) in *. clearbody p.
    set (u := Float32.unitRoundoff) in *. clearbody u.
    set (t := Float32.tiny) in *. clearbody t.
    assert (p * c <= q * c) by (apply Qmult_le_compat_r; lra).
    assert (E : 2 * (q * u + t) == q * (2 * u) + 2 * t) by ring.
    rewrite E, U. lra.
Qed.

Lemma round_nonneg (q : Q) : 0 <= q -> 0 <= Float32.round q.
Proof.
  intro H. unfold Float32.round. destruct (Qeq_bool q 0); [lra|].
  pose proof (ulp_pos q) as U.
  apply Qmult_le_0_compat; [|lra].
  change 0 with (inject_Z 0). rewrite <- Zle_Qle.
  apply nearestEven_nonneg. apply Qle_shift_div_l; [exact U | lra].
Qed.

(** The rounding error is at most half a unit in the last place. *)
Lemma round_error (q : Q) :
  0 <= q ->
  q - (q * Float32.unitRoundoff + Float32.tiny) <= Float32.round q
  /\ Float32.round q <= q + (q * Float32.unitRoundoff + Float32.tiny).
Proof.
  intro H. unfold Float32.round.
  destruct (Qeq_bool q 0) eqn:E.
  { apply Qeq_bool_iff in E. rewrite E. split; vm_compute; discriminate. }
  apply Qeq_bool_neq in E.
  assert (Hq : 0 < q).
  { apply Qle_lteq in H. destruct H as [H | H]; [exact H|].
    exfalso. apply E. now symmetry. }
  pose proof (ulp_pos q) as U. pose proof (ulp_le q Hq) as UL.
  destruct (nearestEven_near (q / Float32.ulp q)) as [N1 N2].
  set (u := Float32.ulp q) in *. clearbody u.
  set (m := inject_Z (Float32.nearestEven (q / u))) in *. clearbody m.
  set (e := q * Float32.unitRoundoff + Float32.tiny) in *. clearbody e.
  assert (Eq : q / u * u == q) by (field; lra).
  assert (M1 : (q / u - (1 # 2)) * u <= m * u)
    by (apply Qmult_le_compat_r; lra).
  assert (M2 : m * u <= (q / u + (1 # 2)) * u)
    by (apply Qmult_le_compat_r; lra).
  assert (E1 : (q / u - (1 # 2)) * u == q - (1 # 2) * u)
    by (rewrite <- Eq at 2; ring).
  assert (E2 : (q / u + (1 # 2)) * u == q + (1 # 2) * u)
    by (rewrite <- Eq at 2; ring).
  rewrite E1 in M1. rewrite E2 in M2.
  split; lra.
Qed.


Lemma roundoff_values :
  Float32.unitRoundoff == 1 # 16777216
  /\ 0 < Float32.tiny /\ Float32.tiny <= 1 # 1000000000000.
Proof.
  split; [reflexivity|]. split; [reflexivity|]. discriminate.
Qed.

(** The quotient [xRel / cw] after its three roundings, against the real
    quotient [a / cw], for [a] within twelve cells of width [cw]. *)
Lemma quotient_rounding (a cw : Q) :
  0 <= a -> a <= 12 * cw -> 1 # 12 <= cw ->
  0 <= Float32.round (Float32.round a / Float32.round cw)
  /\ a - cw * (1 # 10000)
     <= Float32.round (Float32.round a / Float32.round cw) * cw
  /\ Float32.round (Float32.round a / Float32.round cw) * cw
     <= a + cw * (1 # 10000).
Proof.
  intros Ha Hb Hc.
  destruct roundoff_values as (Eu & T0 & T1).
  pose proof (round_nonneg a Ha) as A0.
  destruct (round_error a Ha) as [A1 A2].
  assert (Hc0 : 0 <= cw) by lra.
  pose proof (round_nonneg cw Hc0) as C0.
  destruct (round_error cw Hc0) as [C1 C2].
  set (A := Float32.round a) in *. clearbody A.
  set (C := Float32.round cw) in *. clearbody C.
  assert (Cpos : 0 < C) by (rewrite Eu in C1; lra).
  assert (Hr : A / C * C == A) by (field; lra).
  assert (R0 : 0 <= A / C) by (apply Qle_shift_div_l; lra).
  set (r := A / C) in *. clearbody r.
  pose proof (round_nonneg r R0) as Q0.
  destruct (round_error r R0) as [Q1 Q2].
  set (R := Float32.round r) in *. clearbody R.
  set (t := Float32.tiny) in *. clearbody t.
  rewrite Eu in *.
  assert (Rle : r <= 12 + (1 # 1000)).
  { destruct (Qlt_le_dec (12 + (1 # 1000)) r) as [G|G]; [|exact G].
    exfalso.
    assert ((12 + (1 # 1000)) * C <= r * C)
      by (apply Qmult_le_compat_r; lra).
    lra. }
  assert (M1 : (R - r) * cw <= (13 * (1 # 16777216) + t) * cw)
    by (apply Qmult_le_compat_r; lra).
  assert (M2 : (r - R) * cw <= (13 * (1 # 16777216) + t) * cw)
    by (apply Qmult_le_compat_r; lra).
  assert (M3 : r * (cw - C) <= r * (cw * (1 # 16777216) + t)).
  { rewrite !(Qmult_comm r). apply Qmult_le_compat_r; lra. }
  assert (M4 : r * (C - cw) <= r * (cw * (1 # 16777216) + t)).
  { rewrite !(Qmult_comm r). apply Qmult_le_compat_r; lra. }
  assert (M5 : r * (cw * (1 # 16777216) + t)
               <= 13 * (cw * (1 # 16777216) + t)).
  { apply Qmult_le_compat_r; lra. }
  assert (T2 : t * cw <= (1 # 1000000000000) * cw)
    by (apply Qmult_le_compat_r; lra).
  assert (T3 : 0 <= t * cw) by (apply Qmult_le_0_compat; lra).
  split; [exact Q0|].
  assert (E : R * cw == (R - r) * cw + r * (cw - C) + r * C) by ring.
  assert (E' : (r - R) * cw == - ((R - r) * cw)) by ring.
  assert (E'' : r * (C - cw) == - (r * (cw - C))) by ring.
  rewrite E, Hr. split; lra.
Qed.

(** ** Note names *)

Lemma midi_index_range (midi : Z) :
  (0 <= Z.rem (jmaxZ 0 midi) 12 <= 11)%Z.
Proof.
  assert (H : (0 <= jmaxZ 0 midi)%Z).
  { unfold jmaxZ. destruct (0 <? midi)%Z eqn:E; [apply Z.ltb_lt in E|]; lia. }
  pose proof (Z.rem_bound_pos (jmaxZ 0 midi) 12 H ltac:(lia)). lia.
Qed.

Lemma noteNameAt_defined (idx : Z) :
  (0 <= idx <= 11)%Z ->
  exists name, noteNameAt idx = Some name /\ name <> EmptyString.
Proof.
  intro H.
  assert (C : (idx = 0 \/ idx = 1 \/ idx = 2 \/ idx = 3 \/ idx = 4
               \/ idx = 5 \/ idx = 6 \/ idx = 7 \/ idx = 8 \/ idx = 9
               \/ idx = 10 \/ idx = 11)%Z) by lia.
  repeat (destruct C as [-> | C]); try subst idx;
    (eexists; split; [reflexivity | discriminate]).
Qed.

Lemma append_nonempty (a b : string) :
  a <> EmptyString -> (a ++ b)%string <> EmptyString.
Proof. destruct a; [congruence | discriminate]. Qed.

Lemma midiToNote_defined (midi : Z) :
  exists name, midiToNote midi = Some name /\ name <> EmptyString.
Proof.
  destruct (noteNameAt_defined _ (midi_index_range midi)) as (nm & E & Hne).
  exists (nm ++ String_of_int (Z.quot (jmaxZ 0 midi) 12 - 1))%string.
  unfold midiToNote. cbv zeta. rewrite E. split; [reflexivity|].
  now apply append_nonempty.
Qed.

Lemma trigger_midi_range (sIdx fIdx : Z) :
  (0 <= sIdx <= 3)%Z -> (0 <= fIdx <= 12)%Z ->
  (28 <= baseMidiForString sIdx + fIdx <= 55)%Z.
Proof.
  intros Hs Hf.
  assert (C : (sIdx = 0 \/ sIdx = 1 \/ sIdx = 2 \/ sIdx = 3)%Z) by lia.
  destruct C as [-> | [-> | [-> | ->]]]; unfold baseMidiForString; lia.
Qed.

Lemma midiToNote_spec (midi : Z) :
  (0 <= midi)%Z -> midiToNote midi = Some (specNoteName midi).
Proof.
  intro H. unfold midiToNote, specNoteName. cbv zeta.
  assert (E : jmaxZ 0 midi = midi).
  { unfold jmaxZ. destruct (0 <? midi)%Z eqn:E; [reflexivity|].
    apply Z.ltb_ge in E. lia. }
  rewrite E, Z.rem_mod_nonneg, Z.quot_div_nonneg by lia.
  pose proof (Z.mod_pos_bound midi 12 ltac:(lia)) as B.
  unfold noteNameAt.
  destruct (midi mod 12 <? 0)%Z eqn:E'; [apply Z.ltb_lt in E'; lia|].
  assert (L : (Z.to_nat (midi mod 12) < length kNoteNames)%nat)
    by (simpl; lia).
  rewrite (nth_error_nth' kNoteNames EmptyString L). reflexivity.
Qed.

(** ** Running the member functions *)

Lemma rebuildStatic_run (st : Fretboard) :
  rebuildStatic st = Some (tt, afterRebuild st, rebuildEffects st).
Proof.
  unfold rebuildStatic, afterRebuild, rebuildEffects, degenerate, bind, get.
  destruct ((width st <=? 2)%Z || (height st <=? 2)%Z); reflexivity.
Qed.

Lemma ensure_run (st : Fretboard) :
  when (Qle_bool (openRadius st) 0) rebuildStatic st
  = Some (tt, ensured st, ensureEffects st).
Proof.
  unfold when, ensured, ensureEffects.
  destruct (Qle_bool (openRadius st) 0);
    [apply rebuildStatic_run | reflexivity].
Qed.

Lemma onNotePlayed_ensured (st : Fretboard) :
  onNotePlayed (ensured st) = onNotePlayed st.
Proof.
  unfold ensured, afterRebuild.
  destruct (Qle_bool (openRadius st) 0), (degenerate st); reflexivity.
Qed.

Lemma active_ensured (st : Fretboard) : active (ensured st) = active st.
Proof.
  unfold ensured, afterRebuild.
  destruct (Qle_bool (openRadius st) 0), (degenerate st); reflexivity.
Qed.

Lemma index4_defined {A : Type} (arr : Array4 A) (i : Z) :
  (0 <= i <= 3)%Z -> exists a, index4 arr i = Some a.
Proof.
  intro H.
  assert (C : (i = 0 \/ i = 1 \/ i = 2 \/ i = 3)%Z) by lia.
  destruct C as [-> | [-> | [-> | ->]]]; eexists; reflexivity.
Qed.

Lemma centerFor_defined (st : Fretboard) (sIdx fIdx : Z) :
  (0 <= sIdx <= 3)%Z -> exists c, centerFor st sIdx fIdx = Some c.
Proof.
  intro H. unfold centerFor.
  destruct (index4_defined (openCircles st) _ H) as (oc & Eo).
  destruct (index4_defined (rowRects st) _ H) as (row & Er).
  rewrite Eo, Er. destruct (fIdx =? 0)%Z; eexists; reflexivity.
Qed.

Lemma triggerNote_out_of_range (st : Fretboard) (sIdx fIdx : Z) (now : Q) :
  ~ ((0 <= sIdx <= 3)%Z /\ (0 <= fIdx <= 12)%Z) ->
  triggerNote sIdx fIdx now st = Some (tt, st, []).
Proof.
  intro H. unfold triggerNote, kNumStrings, kNumFrets.
  destruct ((sIdx <? 0)%Z || (sIdx >=? 4)%Z) eqn:Es; [reflexivity|].
  destruct ((fIdx <? 0)%Z || (fIdx >? 12)%Z) eqn:Ef; [reflexivity|].
  exfalso. apply H.
  apply orb_false_iff in Es, Ef. destruct Es as [E1 E2], Ef as [E3 E4].
  apply Z.ltb_ge in E1, E3. rewrite Z.geb_leb in E2.
  rewrite Z.gtb_ltb in E4. apply Z.ltb_ge in E4. apply Z.leb_gt in E2. lia.
Qed.

Lemma triggerNote_in_range (st : Fretboard) (sIdx fIdx : Z) (now : Q) :
  (0 <= sIdx <= 3)%Z -> (0 <= fIdx <= 12)%Z ->
  exists name c,
    midiToNote (baseMidiForString sIdx + fIdx) = Some name
    /\ name <> EmptyString
    /\ centerFor (ensured st) sIdx fIdx = Some c
    /\ triggerNote sIdx fIdx now st
       = Some (tt,
               addActive (newHighlight (ensured st) sIdx fIdx now name c)
                         (ensured st),
               ensureEffects st
               ++ (if onNotePlayed st then [NotePlayed name] else [])
               ++ [HighlightAdded
                     (newHighlight (ensured st) sIdx fIdx now name c);
                   Repaint
                     (bounds
                        (newHighlight (ensured st) sIdx fIdx now name c))]).
Proof.
  intros Hs Hf.
  destruct (midiToNote_defined (baseMidiForString sIdx + fIdx))
    as (name & En & Hne).
  destruct (centerFor_defined (ensured st) sIdx fIdx Hs) as (c & Ec).
  exists name, c. repeat split; try assumption.
  unfold triggerNote, kNumStrings, kNumFrets.
  assert (G1 : ((sIdx <? 0)%Z || (sIdx >=? 4)%Z) = false).
  { apply orb_false_iff. split; [apply Z.ltb_ge; lia|].
    rewrite Z.geb_leb. apply Z.leb_gt. lia. }
  assert (G2 : ((fIdx <? 0)%Z || (fIdx >? 12)%Z) = false).
  { apply orb_false_iff. split; [apply Z.ltb_ge; lia|].
    rewrite Z.gtb_ltb. apply Z.ltb_ge. lia. }
  rewrite G1, G2.
  unfold bind at 1. unfold get at 1.
  unfold bind at 1. rewrite ensure_run.
  unfold bind at 1. unfold get at 1.
  unfold bind at 1. unfold lift at 1. rewrite En.
  pose proof (onNotePlayed_ensured st) as Ecb.
  unfold centerFor in Ec.
  destruct (index4_defined (openCircles (ensured st)) _ Hs) as (oc & Eo).
  destruct (index4_defined (rowRects (ensured st)) _ Hs) as (row & Er).
  rewrite Eo, Er in Ec.
  unfold bind, lift, ret, when, modify, emit. rewrite Eo, Er, Ecb.
  destruct (fIdx =? 0)%Z eqn:Ef0; simpl in Ec; injection Ec as <-;
    unfold newHighlight; rewrite Ef0;
    destruct (onNotePlayed st); simpl; rewrite ?app_nil_r; reflexivity.
Qed.

(** ** The paint pass *)

Lemma setActive_setActive (l l' : list Animation) (st : Fretboard) :
  setActive l (setActive l' st) = setActive l st.
Proof. reflexivity. Qed.

Lemma setActive_same (st : Fretboard) : setActive (active st) st = st.
Proof. destruct st; reflexivity. Qed.

Lemma removeAt_middle {A : Type} (pre post : list A) (a : A) :
  removeAt (length pre) (pre ++ a :: post) = pre ++ post.
Proof.
  unfold removeAt. induction pre as [|b pre IH]; [reflexivity|].
  simpl. simpl in IH. now rewrite IH.
Qed.

Lemma nth_error_middle {A : Type} (pre post : list A) (a : A) :
  nth_error (pre ++ a :: post) (length pre) = Some a.
Proof.
  rewrite nth_error_app2 by lia. rewrite Nat.sub_diag. reflexivity.
Qed.

Lemma paintLoop_run (now : Q) :
  forall (n : nat) (st : Fretboard) (pre post : list Animation),
    active st = pre ++ post -> length pre = n ->
    paintLoop n now st
    = Some (tt, setActive (filter (alive now) pre ++ post) st,
            map (highlightDraw st now) (rev (filter (alive now) pre))).
Proof.
  induction n as [|i IH]; intros st pre post Hact Hlen.
  - destruct pre; [|discriminate]. simpl. simpl in Hact.
    rewrite <- Hact, setActive_same. reflexivity.
  - destruct (exists_last (l := pre)) as (pre' & a & ->).
    { intro E; subst pre; discriminate. }
    rewrite length_app in Hlen. simpl in Hlen.
    assert (Hlen' : length pre' = i) by lia. subst i.
    rewrite <- app_assoc in Hact. simpl in Hact.
    rewrite filter_app. simpl filter.
    cbn [paintLoop]. unfold bind at 1. unfold get at 1.
    unfold bind at 1. unfold lift at 1.
    rewrite Hact, nth_error_middle.
    unfold alive at 2 4. unfold expired.
    destruct (Qle_bool 1 (lifeFraction a now)) eqn:Ex; cbn [negb].
    + unfold bind at 1. unfold modify at 1. cbv beta.
      rewrite Hact, removeAt_middle.
      rewrite (IH (setActive (pre' ++ post) st) pre' post eq_refl eq_refl).
      rewrite !app_nil_r. reflexivity.
    + unfold bind at 1. unfold emit at 1.
      rewrite (IH st pre' (a :: post) Hact eq_refl).
      rewrite <- app_assoc. simpl app.
      rewrite rev_app_distr. reflexivity.
Qed.

Lemma active_afterRebuild (st : Fretboard) :
  active (afterRebuild st) = active st.
Proof. unfold afterRebuild. destruct (degenerate st); reflexivity. Qed.

Lemma active_refreshed (st : Fretboard) : active (refreshed st) = active st.
Proof.
  unfold refreshed. destruct (staticLayerStale st);
    [apply active_afterRebuild | reflexivity].
Qed.

Lemma paint_run (now : Q) (st : Fretboard) :
  paint now st
  = Some (tt,
          setActive (filter (alive now) (active st)) (refreshed st),
          Draw (FillAll (Argb kPluginBg))
          :: refreshEffects st
          ++ DrawImageAt (staticLayer (refreshed st))
          :: map (highlightDraw (refreshed st) now)
                 (rev (filter (alive now) (active st)))).
Proof.
  unfold paint.
  unfold bind at 1. unfold emit at 1.
  unfold bind at 1. unfold get at 1.
  unfold bind at 1.
  assert (E : when (staticLayerStale st) rebuildStatic st
              = Some (tt, refreshed st, refreshEffects st)).
  { unfold when, refreshed, refreshEffects.
    destruct (staticLayerStale st); [apply rebuildStatic_run | reflexivity]. }
  rewrite E.
  unfold bind at 1. unfold get at 1.
  unfold bind at 1. unfold emit at 1.
  rewrite (paintLoop_run now (length (active (refreshed st))) (refreshed st)
             (active (refreshed st)) [] (eq_sym (app_nil_r _)) eq_refl).
  rewrite app_nil_r, active_refreshed. simpl. reflexivity.
Qed.

Lemma lifeFraction_lt_1 (a : Animation) (now : Q) :
  0 < duration a ->
  (lifeFraction a now < 1 <-> now - t0 a < duration a).
Proof.
  intro HD. unfold lifeFraction. split; intro H.
  - apply (Qmult_lt_r _ _ (duration a)) in H; [|exact HD].
    rewrite Qmult_1_l in H.
    setoid_replace ((now - t0 a) / duration a * duration a)
      with (now - t0 a) in H; [exact H|].
    field. intro E. rewrite E in HD. exact (Qlt_irrefl _ HD).
  - apply Qlt_shift_div_r; [exact HD|]. now rewrite Qmult_1_l.
Qed.

Lemma alive_iff (a : Animation) (now : Q) :
  0 < duration a ->
  (alive now a = true <-> now - t0 a < duration a).
Proof.
  intro HD. rewrite <- (lifeFraction_lt_1 a now HD).
  unfold alive, expired. rewrite negb_true_iff. apply Qle_bool_gt.
Qed.

(** ** The fade curve *)

Lemma jlimit01_cases (t : Q) :
  (t < 0 /\ jlimit 0 1 t = 0)
  \/ (1 < t /\ jlimit 0 1 t = 1)
  \/ (0 <= t <= 1 /\ jlimit 0 1 t = t).
Proof.
  unfold jlimit.
  destruct (Qltb t 0) eqn:E0.
  - left. apply Qltb_lt in E0. now split.
  - apply Qltb_ge in E0. destruct (Qltb 1 t) eqn:E1.
    + right; left. apply Qltb_lt in E1. now split.
    + right; right. apply Qltb_ge in E1. now repeat split.
Qed.

Lemma cube_expand (u : Q) : u ^ 3 == u * u * u.
Proof. simpl. ring. Qed.

Lemma cube_monotone (u v : Q) : 0 <= u -> u <= v -> u ^ 3 <= v ^ 3.
Proof.
  intros Hu Huv. rewrite !cube_expand.
  assert (H1 : u * u <= v * v) by nra.
  nra.
Qed.

Lemma fadeAlpha_cube (t : Q) : fadeAlpha t == (1 - jlimit 0 1 t) ^ 3.
Proof. unfold fadeAlpha, easeOutCubic01. cbv zeta. ring. Qed.

Lemma fadeAlpha_monotone (t1 t2 : Q) :
  t1 <= t2 -> fadeAlpha t2 <= fadeAlpha t1.
Proof.
  intro H. rewrite !fadeAlpha_cube.
  destruct (jlimit01_cases t1) as [[A1 ->] | [[A1 ->] | [A1 ->]]];
    destruct (jlimit01_cases t2) as [[A2 ->] | [[A2 ->] | [A2 ->]]];
    apply cube_monotone; lra.
Qed.

Lemma fadeAlpha_inside (t : Q) :
  0 <= t <= 1 -> fadeAlpha t == (1 - t) ^ 3.
Proof.
  intro H. rewrite fadeAlpha_cube.
  destruct (jlimit01_cases t) as [[A ->] | [[A ->] | [A ->]]];
    try lra; reflexivity.
Qed.

Lemma fadeAlpha_before (t : Q) : t <= 0 -> fadeAlpha t == 1.
Proof.
  intro H. rewrite fadeAlpha_cube.
  destruct (jlimit01_cases t) as [[A ->] | [[A ->] | [A ->]]];
    try lra; rewrite cube_expand; try ring.
  assert (E : t == 0) by lra. rewrite E. ring.
Qed.

Lemma fadeAlpha_after (t : Q) : 1 <= t -> fadeAlpha t == 0.
Proof.
  intro H. rewrite fadeAlpha_cube.
  destruct (jlimit01_cases t) as [[A ->] | [[A ->] | [A ->]]];
    try lra; rewrite cube_expand; try ring.
  assert (E : t == 1) by lra. rewrite E. ring.
Qed.

Lemma fadeAlpha_bounds (t : Q) : 0 <= fadeAlpha t <= 1.
Proof.
  rewrite fadeAlpha_cube, cube_expand.
  destruct (jlimit01_cases t) as [[A ->] | [[A ->] | [A ->]]]; try nra.
  assert (0 <= 1 - t <= 1) by lra.
  assert (0 <= (1 - t) * (1 - t) <= 1) by nra. nra.
Qed.

Lemma div_le_div (a b d : Q) : 0 < d -> a <= b -> a / d <= b / d.
Proof.
  intros Hd H. unfold Qdiv. apply Qmult_le_compat_r; [exact H|].
  apply Qlt_le_weak, Qinv_lt_0_compat, Hd.
Qed.

Lemma div_self (d : Q) : 0 < d -> d / d == 1.
Proof. intro H. field. intro E. rewrite E in H. exact (Qlt_irrefl _ H). Qed.

Lemma div_range (t d : Q) : 0 < d -> 0 <= t <= d -> 0 <= t / d <= 1.
Proof.
  intros Hd [H0 H1]. split.
  - apply Qle_shift_div_l; [exact Hd | lra].
  - apply Qle_shift_div_r; [exact Hd | lra].
Qed.

(** ** The geometry [rebuildStatic] computes *)

Lemma jmax_cases (a b : Q) :
  (a < b /\ jmax a b = b) \/ (b <= a /\ jmax a b = a).
Proof.
  unfold jmax. destruct (Qltb a b) eqn:E.
  - left. apply Qltb_lt in E. now split.
  - right. apply Qltb_ge in E. now split.
Qed.

Lemma jmin_cases (a b : Q) :
  (b < a /\ jmin a b = b) \/ (a <= b /\ jmin a b = a).
Proof.
  unfold jmin. destruct (Qltb b a) eqn:E.
  - left. apply Qltb_lt in E. now split.
  - right. apply Qltb_ge in E. now split.
Qed.

Lemma jmax0_nonneg (v : Q) : 0 <= jmax 0 v.
Proof. destruct (jmax_cases 0 v) as [[A ->] | [A ->]]; lra. Qed.

Lemma jlimit_range (lo hi v : Q) : lo <= hi -> lo <= jlimit lo hi v <= hi.
Proof.
  intro H. unfold jlimit.
  destruct (Qltb v lo) eqn:E0; [lra|]. apply Qltb_ge in E0.
  destruct (Qltb hi v) eqn:E1; [lra|]. apply Qltb_ge in E1. lra.
Qed.

Lemma round_board (wd ht : Z) : round (getX (boardBoundsFor wd ht)) = 90.
Proof. reflexivity. Qed.

Lemma boardBoundsFor_shape (wd ht : Z) :
  boardBoundsFor wd ht
  = rect 90 26 (getWidth (boardBoundsFor wd ht))
         (getHeight (boardBoundsFor wd ht)).
Proof. reflexivity. Qed.

Lemma board_width_nonneg (wd ht : Z) : 0 <= getWidth (boardBoundsFor wd ht).
Proof. apply jmax0_nonneg. Qed.

Lemma board_height_nonneg (wd ht : Z) : 0 <= getHeight (boardBoundsFor wd ht).
Proof. apply jmax0_nonneg. Qed.

(** Heights of the board. *)
Lemma board_height_value (wd ht : Z) :
  ((ht <= 52)%Z -> getHeight (boardBoundsFor wd ht) == 0)
  /\ ((52 <= ht)%Z ->
      getHeight (boardBoundsFor wd ht) == inject_Z ht - 52).
Proof.
  unfold boardBoundsFor, boardOuter, outer, reduced, reduced2, expanded2,
    withTrimmedLeft, withLeft, localBounds, getHeight, margin, edgeThickness.
  cbn [rect pos x y w h].
  split; intro H.
  - assert (L : inject_Z ht <= 52) by (change 52 with (inject_Z 52);
                                       rewrite <- Zle_Qle; exact H).
    destruct (jmax_cases 0 (inject_Z ht + - (16) * 2)) as [[A ->] | [A ->]];
      match goal with
      | |- jmax 0 ?v == _ =>
          destruct (jmax_cases 0 v) as [[B ->] | [B ->]]
      end; lra.
  - assert (L : 52 <= inject_Z ht) by (change 52 with (inject_Z 52);
                                       rewrite <- Zle_Qle; exact H).
    destruct (jmax_cases 0 (inject_Z ht + - (16) * 2)) as [[A ->] | [A ->]];
      match goal with
      | |- jmax 0 ?v == _ =>
          destruct (jmax_cases 0 v) as [[B ->] | [B ->]]
      end; lra.
Qed.

Lemma board_width_value (wd ht : Z) :
  ((wd <= 116)%Z -> getWidth (boardBoundsFor wd ht) == 0)
  /\ ((116 <= wd)%Z ->
      getWidth (boardBoundsFor wd ht) == inject_Z wd - 116).
Proof.
  unfold boardBoundsFor, boardOuter, outer, reduced, reduced2, expanded2,
    withTrimmedLeft, withLeft, localBounds, getWidth, margin, edgeThickness,
    leftOpenPad.
  cbn [rect pos x y w h].
  split; intro H.
  - assert (L : inject_Z wd <= 116) by (change 116 with (inject_Z 116);
                                        rewrite <- Zle_Qle; exact H).
    destruct (jmax_cases 0 (inject_Z wd + - (16) * 2)) as [[A ->] | [A ->]];
      match goal with
      | |- context [jmax 0 (?a + ?b - ?c)] =>
          destruct (jmax_cases 0 (a + b - c)) as [[B ->] | [B ->]]
      end;
      match goal with
      | |- jmax 0 ?v == _ =>
          destruct (jmax_cases 0 v) as [[D ->] | [D ->]]
      end; lra.
  - assert (L : 116 <= inject_Z wd) by (change 116 with (inject_Z 116);
                                        rewrite <- Zle_Qle; exact H).
    destruct (jmax_cases 0 (inject_Z wd + - (16) * 2)) as [[A ->] | [A ->]];
      match goal with
      | |- context [jmax 0 (?a + ?b - ?c)] =>
          destruct (jmax_cases 0 (a + b - c)) as [[B ->] | [B ->]]
      end;
      match goal with
      | |- jmax 0 ?v == _ =>
          destruct (jmax_cases 0 v) as [[D ->] | [D ->]]
      end; lra.
Qed.

Lemma openRadiusFor_range (wd ht : Z) : 12 <= openRadiusFor wd ht <= 22.
Proof. apply jlimit_range. lra. Qed.

Lemma openCircleFor_shape (wd ht s : Z) :
  openCircleFor wd ht s
  = circleAround
      (mkPoint (90 + (1 # 2) - (openRadiusFor wd ht + openGap))
               (getCentreY (rowRectFor wd ht s)))
      (openRadiusFor wd ht).
Proof. reflexivity. Qed.

(** A circle's square contains exactly the points of the half-open square
    around its center. *)
Lemma circleAround_contains (c p : Point) (radius : Q) :
  0 <= radius ->
  (contains (circleAround c radius) p = true <-> withinSquare c radius p).
Proof.
  intro Hr. rewrite contains_spec. unfold withinSquare.
  unfold circleAround, getX, getY, getRight, getBottom. cbn [rect pos x y w h].
  split; intros (A & B & C & D); repeat split; lra.
Qed.

Lemma circleAround_centre (c : Point) (radius : Q) :
  x (getCentre (circleAround c radius)) == x c
  /\ y (getCentre (circleAround c radius)) == y c.
Proof.
  unfold circleAround, getCentre. cbn [rect pos x y w h]. split; field.
Qed.

(** The open-string targets end at x = 78.5, left of the board, which
    starts at x = 90. *)
Lemma openCircle_left_of_board (wd ht s : Z) (p : Point) :
  contains (openCircleFor wd ht s) p = true -> x p < 90.
Proof.
  rewrite openCircleFor_shape.
  pose proof (openRadiusFor_range wd ht) as Hr.
  rewrite circleAround_contains by lra.
  unfold withinSquare, openGap. cbn [x y]. lra.
Qed.

Lemma board_contains_x (wd ht : Z) (p : Point) :
  contains (boardBoundsFor wd ht) p = true -> 90 <= x p.
Proof.
  rewrite contains_spec. rewrite boardBoundsFor_shape at 1.
  unfold getX. cbn [rect pos x]. tauto.
Qed.

Lemma firstContaining_none (arr : Array4 Rectangle) (p : Point) :
  contains (at0 arr) p = false -> contains (at1 arr) p = false ->
  contains (at2 arr) p = false -> contains (at3 arr) p = false ->
  firstContaining arr p = None.
Proof.
  intros H0 H1 H2 H3. unfold firstContaining. simpl.
  now rewrite H0, H1, H2, H3.
Qed.

Lemma firstContaining_some (arr : Array4 Rectangle) (p : Point) (s : Z) :
  firstContaining arr p = Some s ->
  (0 <= s <= 3)%Z
  /\ (exists r, index4 arr s = Some r /\ contains r p = true)
  /\ (forall s' r', (0 <= s' < s)%Z -> index4 arr s' = Some r' ->
                    contains r' p = false).
Proof.
  unfold firstContaining. simpl.
  destruct (contains (at0 arr) p) eqn:E0.
  { intro H; injection H as <-. split; [lia|]. split.
    - eexists; split; [reflexivity | exact E0].
    - intros; lia. }
  destruct (contains (at1 arr) p) eqn:E1.
  { intro H; injection H as <-. split; [lia|]. split.
    - eexists; split; [reflexivity | exact E1].
    - intros s' r' Hs' Hi. assert (s' = 0%Z) by lia. subst s'.
      simpl in Hi. injection Hi as <-. exact E0. }
  destruct (contains (at2 arr) p) eqn:E2.
  { intro H; injection H as <-. split; [lia|]. split.
    - eexists; split; [reflexivity | exact E2].
    - intros s' r' Hs' Hi.
      assert (C : (s' = 0 \/ s' = 1)%Z) by lia.
      destruct C as [-> | ->]; simpl in Hi; injection Hi as <-; assumption. }
  destruct (contains (at3 arr) p) eqn:E3.
  { intro H; injection H as <-. split; [lia|]. split.
    - eexists; split; [reflexivity | exact E3].
    - intros s' r' Hs' Hi.
      assert (C : (s' = 0 \/ s' = 1 \/ s' = 2)%Z) by lia.
      destruct C as [-> | [-> | ->]]; simpl in Hi; injection Hi as <-;
        assumption. }
  discriminate.
Qed.

Lemma openCircles_miss_right_of_nut (wd ht : Z) (p : Point) :
  90 <= x p -> firstContaining (openCirclesFor wd ht) p = None.
Proof.
  intro H.
  apply firstContaining_none; cbn [openCirclesFor tabulate4 at0 at1 at2 at3];
    match goal with
    | |- contains ?r p = false =>
        destruct (contains r p) eqn:E; [|reflexivity];
        apply openCircle_left_of_board in E; lra
    end.
Qed.

Lemma firstContaining_firstHit (arr : Array4 Rectangle) (p : Point) (s : Z) :
  firstHit arr p s -> firstContaining arr p = Some s.
Proof.
  intros [(r & Hi & Hc) Hbefore].
  destruct (firstContaining arr p) as [s0|] eqn:E.
  - destruct (firstContaining_some arr p s0 E)
      as (Hr0 & (r0 & Hi0 & Hc0) & Hb0).
    assert (Hr : (0 <= s <= 3)%Z).
    { destruct s as [|[[|[]|]|[]|]|]; simpl in Hi; try discriminate; lia. }
    destruct (Z.lt_trichotomy s0 s) as [L | [-> | L]]; [| reflexivity |].
    + rewrite (Hbefore s0 r0 ltac:(lia) Hi0) in Hc0. discriminate.
    + rewrite (Hb0 s r ltac:(lia) Hi) in Hc. discriminate.
  - exfalso. unfold firstContaining in E. simpl in E.
    destruct (contains (at0 arr) p) eqn:E0; [discriminate|].
    destruct (contains (at1 arr) p) eqn:E1; [discriminate|].
    destruct (contains (at2 arr) p) eqn:E2; [discriminate|].
    destruct (contains (at3 arr) p) eqn:E3; [discriminate|].
    destruct s as [|[[|[]|]|[]|]|]; simpl in Hi; try discriminate;
      injection Hi as <-; congruence.
Qed.


Lemma Qfloor_between (q : Q) (n : Z) :
  inject_Z n <= q -> q < inject_Z (n + 1) -> Qfloor q = n.
Proof.
  intros Hlo Hhi.
  assert (A : (n <= Qfloor q)%Z).
  { rewrite <- (Qfloor_Z n). now apply Qfloor_resp_le. }
  assert (B : (Qfloor q < n + 1)%Z).
  { rewrite Zlt_Qlt. eapply Qle_lt_trans; [apply Qfloor_le | exact Hhi]. }
  lia.
Qed.

Lemma rowRectFor_shape (wd ht s : Z) :
  rowRectFor wd ht s
  = (let hr := jmax 0 (rowH wd ht) in
     let d := jmin 3 (hr * (12 # 100)) in
     rect (90 - - 0) (26 + inject_Z s * rowH wd ht - - d)
          (jmax 0 (getWidth (boardBoundsFor wd ht) + - 0 * 2))
          (jmax 0 (hr + - d * 2))).
Proof. reflexivity. Qed.

(** A row lies inside the board. *)
Lemma row_inside_board (wd ht s : Z) (p : Point) :
  (0 <= s <= 3)%Z ->
  contains (rowRectFor wd ht s) p = true ->
  contains (boardBoundsFor wd ht) p = true.
Proof.
  intros Hs. rewrite !contains_spec.
  rewrite rowRectFor_shape, boardBoundsFor_shape. cbv zeta.
  unfold getX, getY, getRight, getBottom, getWidth, getHeight.
  cbn [rect pos x y w h].
  pose proof (board_width_nonneg wd ht) as Hw.
  pose proof (board_height_nonneg wd ht) as Hh.
  unfold getWidth, getHeight in Hw, Hh.
  unfold rowH, getHeight, kNumStrings.
  set (bw := w (boardBoundsFor wd ht)) in *.
  set (bh := h (boardBoundsFor wd ht)) in *.
  unfold Qdiv. change (/ inject_Z 4) with (1 # 4).
  assert (C : (s = 0 \/ s = 1 \/ s = 2 \/ s = 3)%Z) by lia.
  destruct (jmax_cases 0 (bh * (1 # 4))) as [[A1 ->] | [A1 ->]];
    match goal with
    | |- context [jmin 3 ?v] =>
        destruct (jmin_cases 3 v) as [[A2 ->] | [A2 ->]]
    end;
    match goal with
    | |- context [jmax 0 (bw + ?v)] =>
        destruct (jmax_cases 0 (bw + v)) as [[A3 ->] | [A3 ->]]
    end;
    match goal with
    | |- context [jmax 0 (?u + - ?d * 2)] =>
        destruct (jmax_cases 0 (u + - d * 2)) as [[A4 ->] | [A4 ->]]
    end;
    destruct C as [-> | [-> | [-> | ->]]];
    match goal with
    | |- context [inject_Z ?n] => change (inject_Z n) with (n # 1)
    end;
    intros (B1 & B2 & B3 & B4); repeat split; lra.
Qed.

(** ** Invariants of the reachable states *)

Lemma in_range_dec (sIdx fIdx : Z) :
  ((0 <= sIdx <= 3)%Z /\ (0 <= fIdx <= 12)%Z)
  \/ ~ ((0 <= sIdx <= 3)%Z /\ (0 <= fIdx <= 12)%Z).
Proof. lia. Qed.

Lemma openCirclesFit_rebuilt (wd ht : Z) (st : Fretboard) :
  openCirclesFit (rebuilt wd ht st).
Proof.
  split.
  - cbn [openRadius rebuilt]. pose proof (openRadiusFor_range wd ht). lra.
  - intros s oc Hi. cbn [openRadius openCircles rebuilt] in *.
    destruct s as [|[[|[]|]|[]|]|]; simpl in Hi; try discriminate;
      injection Hi as <-; eexists; apply openCircleFor_shape.
Qed.

Lemma wellFormed_afterRebuild (st : Fretboard) :
  Forall (fun a => duration a = 18 # 10) (active st) ->
  openCirclesFit st ->
  wellFormed (afterRebuild st).
Proof.
  intros Hd Hf. unfold afterRebuild.
  destruct (degenerate st) eqn:E.
  - split; [exact Hd | split; [intro E'; congruence | exact Hf]].
  - split; [exact Hd | split; [intros _; repeat split |]].
    apply openCirclesFit_rebuilt.
Qed.

Lemma wellFormed_ensured (st : Fretboard) :
  wellFormed st -> wellFormed (ensured st).
Proof.
  intros (Hd & Hg & Hf). unfold ensured.
  destruct (Qle_bool (openRadius st) 0);
    [now apply wellFormed_afterRebuild | exact (conj Hd (conj Hg Hf))].
Qed.

Lemma wellFormed_refreshed (st : Fretboard) :
  wellFormed st -> wellFormed (refreshed st).
Proof.
  intros (Hd & Hg & Hf). unfold refreshed.
  destruct (staticLayerStale st);
    [now apply wellFormed_afterRebuild | exact (conj Hd (conj Hg Hf))].
Qed.

Lemma wellFormed_triggerNote (st st' : Fretboard) (sIdx fIdx : Z) (now : Q)
  (evs : list Effect) :
  triggerNote sIdx fIdx now st = Some (tt, st', evs) ->
  wellFormed st -> wellFormed st'.
Proof.
  intros Hrun Hwf.
  destruct (in_range_dec sIdx fIdx) as [[Hs Hf] | Hout].
  - destruct (triggerNote_in_range st sIdx fIdx now Hs Hf)
      as (name & c & _ & _ & _ & E).
    rewrite E in Hrun. injection Hrun as <- _.
    destruct (wellFormed_ensured st Hwf) as (Hd & Hg).
    split; [|exact Hg].
    simpl. apply Forall_app. split; [exact Hd|].
    constructor; [reflexivity | constructor].
  - rewrite (triggerNote_out_of_range st sIdx fIdx now Hout) in Hrun.
    injection Hrun as <- _. exact Hwf.
Qed.

Lemma wellFormed_mouseDown (st st' : Fretboard) (p : Point) (now : Q)
  (evs : list Effect) :
  mouseDown p now st = Some (tt, st', evs) ->
  wellFormed st -> wellFormed st'.
Proof.
  unfold mouseDown. unfold bind at 1. unfold get at 1.
  intros Hrun Hwf.
  destruct (firstContaining (openCircles st) p) as [s|].
  - destruct (triggerNote s 0 now st) as [[[[] st1] e1]|] eqn:E;
      [|discriminate].
    injection Hrun as <- _.
    exact (wellFormed_triggerNote st st1 s 0 now e1 E Hwf).
  - destruct (negb (contains (boardBounds st) p)).
    + injection Hrun as <- _. exact Hwf.
    + destruct (firstContaining (rowRects st) p) as [s|].
      * match type of Hrun with
        | context [triggerNote ?s ?f ?n ?t] =>
            destruct (triggerNote s f n t) as [[[[] st1] e1]|] eqn:E;
              [|discriminate];
            injection Hrun as <- _;
            exact (wellFormed_triggerNote _ _ _ _ _ _ E Hwf)
        end.
      * injection Hrun as <- _. exact Hwf.
Qed.

Lemma wellFormed_run (op : Op) (st st' : Fretboard) (evs : list Effect) :
  run op st = Some (tt, st', evs) -> wellFormed st -> wellFormed st'.
Proof.
  destruct op as [wd ht | | b | now | p now | s f now]; cbn [run];
    intros Hrun Hwf.
  - unfold setSize in Hrun. unfold bind at 1 in Hrun. unfold get at 1 in Hrun.
    destruct ((jmaxZ 0 wd =? width st)%Z && (jmaxZ 0 ht =? height st)%Z).
    + injection Hrun as <- _. exact Hwf.
    + unfold bind, modify, resized in Hrun. rewrite rebuildStatic_run in Hrun.
      injection Hrun as <- _.
      apply wellFormed_afterRebuild;
        [exact (proj1 Hwf) | exact (proj2 (proj2 Hwf))].
  - unfold resized in Hrun. rewrite rebuildStatic_run in Hrun.
    injection Hrun as <- _.
    apply wellFormed_afterRebuild;
      [exact (proj1 Hwf) | exact (proj2 (proj2 Hwf))].
  - injection Hrun as <- _. exact Hwf.
  - rewrite paint_run in Hrun. injection Hrun as <- _.
    destruct (wellFormed_refreshed st Hwf) as (Hd & Hg).
    split; [|exact Hg].
    cbn [active setActive]. rewrite active_refreshed in Hd.
    apply Forall_forall. intros a Ha. apply filter_In in Ha.
    rewrite Forall_forall in Hd. apply Hd. tauto.
  - exact (wellFormed_mouseDown st st' p now evs Hrun Hwf).
  - exact (wellFormed_triggerNote st st' s f now evs Hrun Hwf).
Qed.

Lemma reachable_wellFormed (st : Fretboard) : reachable st -> wellFormed st.
Proof.
  induction 1 as [|st op st' evs _ IH Hrun].
  - split; [constructor | split; [discriminate|]].
    split; [apply Qle_refl|].
    intros s oc Hi. exists (mkPoint 0 0).
    destruct s as [|[[|[]|]|[]|]|]; simpl in Hi; try discriminate;
      injection Hi as <-; reflexivity.
  - exact (wellFormed_run op st st' evs Hrun IH).
Qed.

Lemma reachable_duration_pos (st : Fretboard) (a : Animation) :
  reachable st -> In a (active st) -> 0 < duration a.
Proof.
  intros Hr Ha. destruct (reachable_wellFormed st Hr) as (Hd & _).
  rewrite Forall_forall in Hd. rewrite (Hd a Ha). reflexivity.
Qed.

(** ** Note names and the contract of [triggerNote] *)

Lemma bind_get (A : Type) (k : Fretboard -> M A) (st : Fretboard) :
  bind get k st = k st st.
Proof.
  unfold bind, get. destruct (k st st) as [[[a s'] e]|]; reflexivity.
Qed.

Lemma specBase_base (sIdx : Z) :
  (0 <= sIdx <= 3)%Z -> specBase sIdx = baseMidiForString sIdx.
Proof.
  intro H. assert (C : (sIdx = 0 \/ sIdx = 1 \/ sIdx = 2 \/ sIdx = 3)%Z) by lia.
  destruct C as [-> | [-> | [-> | ->]]]; reflexivity.
Qed.

Lemma jmaxZ_nonneg (n : Z) : (0 <= n)%Z -> jmaxZ 0 n = n.
Proof.
  intro H. unfold jmaxZ. destruct (0 <? n)%Z eqn:E; [reflexivity|].
  apply Z.ltb_ge in E. lia.
Qed.

Lemma ensureEffects_rebuilds (st : Fretboard) :
  Forall (fun e => isStaticRebuilt e = true) (ensureEffects st).
Proof.
  unfold ensureEffects, rebuildEffects.
  destruct (Qle_bool (openRadius st) 0), (degenerate st);
    repeat constructor.
Qed.

(** C10: [midiToNote] is total: for every integer the index into
    [kNoteNames] lies in 0..11 and the name returned is not empty; on the
    path from [triggerNote] the pitch lies in 28..55, so the clamp
    [jmax (0, midi)] leaves it unchanged. *)
Theorem midiToNote_total :
  (forall midi : Z,
      (0 <= Z.rem (jmaxZ 0 midi) 12 <= 11)%Z
      /\ exists name, midiToNote midi = Some name /\ name <> EmptyString)
  /\ (forall sIdx fIdx : Z,
         (0 <= sIdx <= 3)%Z -> (0 <= fIdx <= 12)%Z ->
         (28 <= baseMidiForString sIdx + fIdx <= 55)%Z
         /\ jmaxZ 0 (baseMidiForString sIdx + fIdx)
            = (baseMidiForString sIdx + fIdx)%Z).
Proof.
  split.
  - intro midi. split; [apply midi_index_range | apply midiToNote_defined].
  - intros sIdx fIdx Hs Hf.
    pose proof (trigger_midi_range sIdx fIdx Hs Hf) as H.
    split; [exact H | apply jmaxZ_nonneg; lia].
Qed.

Lemma midiToNote_total_witness :
  (28 <= baseMidiForString 3 + 1 <= 55)%Z
  /\ jmaxZ 0 (baseMidiForString 3 + 1) = (baseMidiForString 3 + 1)%Z.
Proof.
  apply (proj2 midiToNote_total 3%Z 1%Z); lia.
Defined.

Lemma lastNoteName_appended (st st' : Fretboard) (a : Animation)
  (evs : list Effect) (r : option (unit * Fretboard * list Effect)) :
  r = Some (tt, st', evs) -> active st' = active st ++ [a] ->
  lastNoteName r = Some (noteName a).
Proof.
  intros -> E. unfold lastNoteName. cbn [stateOf].
  rewrite E, rev_app_distr. reflexivity.
Qed.

Lemma triggered_name (st : Fretboard) (sIdx fIdx : Z) (now : Q) :
  (0 <= sIdx <= 3)%Z -> (0 <= fIdx <= 12)%Z ->
  lastNoteName (triggerNote sIdx fIdx now st)
  = midiToNote (baseMidiForString sIdx + fIdx)
  /\ (onNotePlayed st = true ->
      forall name, midiToNote (baseMidiForString sIdx + fIdx) = Some name ->
                   In (NotePlayed name)
                      (effectsOf (triggerNote sIdx fIdx now st))).
Proof.
  intros Hs Hf.
  destruct (triggerNote_in_range st sIdx fIdx now Hs Hf)
    as (name & c & En & _ & _ & E).
  split.
  - rewrite En.
    apply (lastNoteName_appended (ensured st) _
             (newHighlight (ensured st) sIdx fIdx now name c) _ _ E).
    reflexivity.
  - intros Hcb name' En'. rewrite En in En'. injection En' as <-.
    rewrite E. cbn [effectsOf]. rewrite Hcb.
    apply in_or_app. right. left. reflexivity.
Qed.

(** C2: the name [triggerNote] gives to the highlight, and passes to the
    callback, is the chromatic name of [base (stringIndex) + fretIndex]
    with the bases 43, 38, 33, 28: table entry at [midi mod 12], octave
    [floor (midi / 12) - 1]; the open strings are G2, D2, A1, E1 and the
    first fret of the lowest string is F1. *)
Theorem triggerNote_note_name (st : Fretboard) (now : Q) :
  (forall sIdx fIdx : Z,
      (0 <= sIdx <= 3)%Z -> (0 <= fIdx <= 12)%Z ->
      lastNoteName (triggerNote sIdx fIdx now st)
      = Some (specNoteName (specBase sIdx + fIdx))
      /\ (onNotePlayed st = true ->
          In (NotePlayed (specNoteName (specBase sIdx + fIdx)))
             (effectsOf (triggerNote sIdx fIdx now st))))
  /\ lastNoteName (triggerNote 0 0 now st) = Some "G2"%string
  /\ lastNoteName (triggerNote 1 0 now st) = Some "D2"%string
  /\ lastNoteName (triggerNote 2 0 now st) = Some "A1"%string
  /\ lastNoteName (triggerNote 3 0 now st) = Some "E1"%string
  /\ lastNoteName (triggerNote 3 1 now st) = Some "F1"%string.
Proof.
  assert (G : forall sIdx fIdx : Z,
             (0 <= sIdx <= 3)%Z -> (0 <= fIdx <= 12)%Z ->
             lastNoteName (triggerNote sIdx fIdx now st)
             = Some (specNoteName (specBase sIdx + fIdx))
             /\ (onNotePlayed st = true ->
                 In (NotePlayed (specNoteName (specBase sIdx + fIdx)))
                    (effectsOf (triggerNote sIdx fIdx now st)))).
  { intros sIdx fIdx Hs Hf.
    destruct (triggered_name st sIdx fIdx now Hs Hf) as [E1 E2].
    pose proof (trigger_midi_range sIdx fIdx Hs Hf) as Hm.
    rewrite specBase_base by exact Hs.
    pose proof (midiToNote_spec (baseMidiForString sIdx + fIdx) ltac:(lia))
      as Espec.
    split; [now rewrite E1 | intro Hcb; now apply E2]. }
  split; [exact G|].
  repeat split.
  - exact (proj1 (G 0%Z 0%Z ltac:(lia) ltac:(lia))).
  - exact (proj1 (G 1%Z 0%Z ltac:(lia) ltac:(lia))).
  - exact (proj1 (G 2%Z 0%Z ltac:(lia) ltac:(lia))).
  - exact (proj1 (G 3%Z 0%Z ltac:(lia) ltac:(lia))).
  - exact (proj1 (G 3%Z 1%Z ltac:(lia) ltac:(lia))).
Qed.

Lemma triggerNote_note_name_witness :
  lastNoteName (triggerNote 2 7 0 editorBoard)
  = Some (specNoteName (specBase 2 + 7))
  /\ (onNotePlayed editorBoard = true ->
      In (NotePlayed (specNoteName (specBase 2 + 7)))
         (effectsOf (triggerNote 2 7 0 editorBoard))).
Proof.
  apply (proj1 (triggerNote_note_name editorBoard 0) 2%Z 7%Z); lia.
Defined.

(** C1: for a string in 0..3 and a fret in 0..12 [triggerNote] appends
    exactly one highlight and, when a callback is registered, calls it
    exactly once, with a name that is not empty, before the highlight is
    appended; anything the call does earlier is the rebuild of the static
    layer.  For any other pair the call changes nothing, has no effect and
    does not fail. *)
Theorem triggerNote_contract (st : Fretboard) (sIdx fIdx : Z) (now : Q) :
  ((0 <= sIdx <= 3)%Z /\ (0 <= fIdx <= 12)%Z ->
   exists st' a pre,
     triggerNote sIdx fIdx now st
     = Some (tt, st',
             pre
             ++ (if onNotePlayed st then [NotePlayed (noteName a)] else [])
             ++ [HighlightAdded a; Repaint (bounds a)])
     /\ Forall (fun e => isStaticRebuilt e = true) pre
     /\ active st' = active st ++ [a]
     /\ noteName a <> EmptyString)
  /\ (~ ((0 <= sIdx <= 3)%Z /\ (0 <= fIdx <= 12)%Z) ->
      triggerNote sIdx fIdx now st = Some (tt, st, [])).
Proof.
  split.
  - intros [Hs Hf].
    destruct (triggerNote_in_range st sIdx fIdx now Hs Hf)
      as (name & c & _ & Hne & _ & E).
    exists (addActive (newHighlight (ensured st) sIdx fIdx now name c)
                      (ensured st)),
      (newHighlight (ensured st) sIdx fIdx now name c),
      (ensureEffects st).
    split; [exact E|]. split; [apply ensureEffects_rebuilds|].
    split; [|exact Hne].
    cbn [addActive setActive active]. now rewrite active_ensured.
  - apply triggerNote_out_of_range.
Qed.

Lemma triggerNote_contract_witness :
  (exists st' a pre,
      triggerNote 0 5 0 editorBoard
      = Some (tt, st',
              pre
              ++ (if onNotePlayed editorBoard
                  then [NotePlayed (noteName a)] else [])
              ++ [HighlightAdded a; Repaint (bounds a)])
      /\ Forall (fun e => isStaticRebuilt e = true) pre
      /\ active st' = active editorBoard ++ [a]
      /\ noteName a <> EmptyString)
  /\ triggerNote 4 0 0 editorBoard = Some (tt, editorBoard, []).
Proof.
  split.
  - apply (proj1 (triggerNote_contract editorBoard 0 5 0)). lia.
  - apply (proj2 (triggerNote_contract editorBoard 4 0 0)). lia.
Defined.

(** ** Expiry and re-triggering *)

Lemma filter_alive_lt (now : Q) (l : list Animation) :
  Forall (fun a => 0 < duration a) l ->
  filter (alive now) l
  = filter (fun a => Qltb (now - t0 a) (duration a)) l.
Proof.
  intro H. apply filter_ext_in. intros a Ha.
  rewrite Forall_forall in H. specialize (H a Ha).
  destruct (Qltb (now - t0 a) (duration a)) eqn:E.
  - apply alive_iff; [exact H | now apply Qltb_lt].
  - destruct (alive now a) eqn:E'; [|reflexivity].
    apply alive_iff in E'; [|exact H].
    apply Qltb_lt in E'. congruence.
Qed.

Lemma reachable_durations_pos (st : Fretboard) :
  reachable st -> Forall (fun a => 0 < duration a) (active st).
Proof.
  intro H. apply Forall_forall. intros a Ha.
  exact (reachable_duration_pos st a H Ha).
Qed.

Lemma Permutation_filter {A : Type} (f : A -> bool) (l1 l2 : list A) :
  Permutation l1 l2 -> Permutation (filter f l1) (filter f l2).
Proof.
  induction 1 as [| a l1 l2 _ IH | a b l | l1 l2 l3 _ IH1 _ IH2]; simpl.
  - constructor.
  - destruct (f a); [now constructor | exact IH].
  - destruct (f a), (f b); try apply Permutation_refl. apply perm_swap.
  - exact (Permutation_trans IH1 IH2).
Qed.

(** C5: after a paint pass at [now] the active set holds exactly the
    highlights with [now - t0 < duration], in their order, whatever the
    order of insertion was; the survivors are drawn in the same backward
    traversal.  So a highlight is still present at [t0 + eps] for
    [0 < eps < duration] and gone after a paint at [t0 + duration] or
    later. *)
Theorem paint_keeps_unexpired (st : Fretboard) (now : Q) :
  reachable st ->
  exists st' evs,
    paint now st = Some (tt, st', evs)
    /\ active st'
       = filter (fun a => Qltb (now - t0 a) (duration a)) (active st)
    /\ (forall a, In a (active st')
                  <-> In a (active st) /\ now - t0 a < duration a)
    /\ evs = Draw (FillAll (Argb kPluginBg))
             :: refreshEffects st
             ++ DrawImageAt (staticLayer st')
             :: map (highlightDraw st' now) (rev (active st'))
    /\ (forall a eps, In a (active st) -> 0 < eps < duration a ->
                      now == t0 a + eps -> In a (active st'))
    /\ (forall a, t0 a + duration a <= now -> ~ In a (active st'))
    /\ (forall st2, reachable st2 -> Permutation (active st) (active st2) ->
        exists st2' evs2,
          paint now st2 = Some (tt, st2', evs2)
          /\ Permutation (active st') (active st2')).
Proof.
  intro Hr.
  pose proof (reachable_durations_pos st Hr) as Hpos.
  assert (Hin : forall a,
             In a (filter (alive now) (active st))
             <-> In a (active st) /\ now - t0 a < duration a).
  { intro a. rewrite filter_In. split; intros [Ha H]; split; try exact Ha.
    - apply alive_iff; [|exact H]. rewrite Forall_forall in Hpos. auto.
    - apply alive_iff; [|exact H]. rewrite Forall_forall in Hpos. auto. }
  eexists. eexists. split; [apply paint_run|].
  cbn [active setActive staticLayer].
  split; [now apply filter_alive_lt|].
  split; [exact Hin|].
  split; [reflexivity|].
  split; [|split].
  - intros a eps Ha Heps Hnow. apply Hin. split; [exact Ha|].
    rewrite Hnow. lra.
  - intros a Hlate Ha. apply Hin in Ha. lra.
  - intros st2 Hr2 Hperm. eexists. eexists. split; [apply paint_run|].
    cbn [active setActive]. now apply Permutation_filter.
Qed.

(** C9: a trigger only appends.  Two triggers of the same position leave
    the highlights that were active untouched and add two records, each
    with its own start time; while neither has expired a paint pass keeps
    both and draws each with the opacity of its own elapsed time. *)
Theorem retrigger_is_additive (st : Fretboard) (sIdx fIdx : Z)
  (t1 t2 now : Q) :
  (0 <= sIdx <= 3)%Z -> (0 <= fIdx <= 12)%Z ->
  exists a1 a2 st2 evs,
    (triggerNote sIdx fIdx t1 ;; triggerNote sIdx fIdx t2) st
    = Some (tt, st2, evs)
    /\ active st2 = active st ++ [a1; a2]
    /\ t0 a1 = t1 /\ t0 a2 = t2
    /\ duration a1 = 18 # 10 /\ duration a2 = 18 # 10
    /\ stringIdx a1 = sIdx /\ fretIdx a1 = fIdx
    /\ stringIdx a2 = sIdx /\ fretIdx a2 = fIdx
    /\ (now - t1 < 18 # 10 -> now - t2 < 18 # 10 ->
        exists st3 evs3,
          paint now st2 = Some (tt, st3, evs3)
          /\ In a1 (active st3) /\ In a2 (active st3)
          /\ In (Draw (FillEllipse
                         (WithAlpha kHighlightBB (opacity a1 (now - t1)))
                         (circleAround (center a1) (openRadius st3)))) evs3
          /\ In (Draw (FillEllipse
                         (WithAlpha kHighlightBB (opacity a2 (now - t2)))
                         (circleAround (center a2) (openRadius st3)))) evs3).
Proof.
  intros Hs Hf.
  destruct (triggerNote_in_range st sIdx fIdx t1 Hs Hf)
    as (n1 & c1 & _ & _ & _ & E1).
  set (a1 := newHighlight (ensured st) sIdx fIdx t1 n1 c1) in *.
  set (st1 := addActive a1 (ensured st)) in *.
  destruct (triggerNote_in_range st1 sIdx fIdx t2 Hs Hf)
    as (n2 & c2 & _ & _ & _ & E2).
  set (a2 := newHighlight (ensured st1) sIdx fIdx t2 n2 c2) in *.
  exists a1, a2. eexists. eexists.
  split; [unfold bind; rewrite E1, E2; reflexivity|].
  assert (Hact : active (addActive a2 (ensured st1))
                 = active st ++ [a1; a2]).
  { cbn [addActive setActive active]. rewrite active_ensured.
    unfold st1. cbn [addActive setActive active]. rewrite active_ensured.
    now rewrite <- app_assoc. }
  split; [exact Hact|].
  repeat (split; [reflexivity|]).
  intros H1 H2. eexists. eexists. split; [apply paint_run|].
  cbn [active setActive]. rewrite Hact.
  assert (L1 : alive now a1 = true)
    by (apply alive_iff; [reflexivity | exact H1]).
  assert (L2 : alive now a2 = true)
    by (apply alive_iff; [reflexivity | exact H2]).
  assert (I1 : In a1 (filter (alive now) (active st ++ [a1; a2]))).
  { apply filter_In. split; [|exact L1]. apply in_or_app. right. now left. }
  assert (I2 : In a2 (filter (alive now) (active st ++ [a1; a2]))).
  { apply filter_In. split; [|exact L2].
    apply in_or_app. right. right. now left. }
  split; [exact I1|]. split; [exact I2|].
  split.
  - right. apply in_or_app. right. right.
    apply in_map_iff. exists a1.
    split; [reflexivity | now apply in_rev in I1].
  - right. apply in_or_app. right. right.
    apply in_map_iff. exists a2.
    split; [reflexivity | now apply in_rev in I2].
Qed.

(** The sample states are reachable. *)
Lemma editorBoard_run :
  runAll editorOps newFretboard
  = Some (tt, editorBoard, [StaticRebuilt 960 292]).
Proof. reflexivity. Qed.

Lemma editorBoard_reachable : reachable editorBoard.
Proof.
  apply (@reachable_run (setCallback true newFretboard) (OpSetSize 960 292)
           editorBoard [StaticRebuilt 960 292]).
  - apply (@reachable_run newFretboard (OpSetCallback true)
             (setCallback true newFretboard) []).
    + exact reachable_new.
    + reflexivity.
  - reflexivity.
Defined.

Lemma playedBoard_reachable : reachable playedBoard.
Proof.
  eapply (@reachable_run editorBoard (OpTriggerNote 0 0 0) playedBoard).
  - exact editorBoard_reachable.
  - vm_compute. reflexivity.
Defined.

Lemma paint_keeps_unexpired_witness :
  exists st' evs,
    paint 1 playedBoard = Some (tt, st', evs)
    /\ active st' = [sampleHighlight].
Proof.
  destruct (paint_keeps_unexpired playedBoard 1 playedBoard_reachable)
    as (st' & evs & Hrun & Hact & _).
  exists st', evs. split; [exact Hrun|].
  rewrite Hact. reflexivity.
Defined.

Lemma retrigger_is_additive_witness :
  exists a1 a2 st2 evs,
    (triggerNote 1 3 0 ;; triggerNote 1 3 (1 # 2)) editorBoard
    = Some (tt, st2, evs)
    /\ active st2 = active editorBoard ++ [a1; a2]
    /\ t0 a1 = 0 /\ t0 a2 = 1 # 2.
Proof.
  destruct (retrigger_is_additive editorBoard 1 3 0 (1 # 2) 1)
    as (a1 & a2 & st2 & evs & H1 & H2 & H3 & H4 & _); [lia | lia |].
  exists a1, a2, st2, evs. repeat split; assumption.
Defined.

(** ** Opacity *)

(** C3, as stated, fails: a fresh highlight is drawn fully opaque, whereas
    [1 - (1 - t / duration) ^ 3] is 0 at [t = 0]. *)
Lemma opacity_formula_counterexample :
  opacity sampleHighlight 0 == 1
  /\ ~ (opacity sampleHighlight 0
        == 1 - (1 - 0 / duration sampleHighlight) ^ 3).
Proof.
  split.
  - vm_compute. reflexivity.
  - intro H. vm_compute in H. discriminate.
Qed.

(** C3, amended: the opacity of a highlight never increases with the elapsed
    time, is 1 until the highlight starts, is [(1 - t / duration) ^ 3], that
    is [1 - easeOutCubic01 (t / duration)], for [0 <= t <= duration], and is
    0 from [t = duration] on; [paint] draws a highlight with the opacity of
    [now - t0]. *)
Theorem opacity_fades_out (a : Animation) :
  0 < duration a ->
  (forall t1 t2, t1 <= t2 -> opacity a t2 <= opacity a t1)
  /\ opacity a (duration a) == 0
  /\ (forall t, 0 <= t <= duration a ->
                opacity a t == (1 - t / duration a) ^ 3)
  /\ (forall t, 0 <= t <= duration a ->
                opacity a t == 1 - easeOutCubic01 (t / duration a))
  /\ (forall t, t <= 0 -> opacity a t == 1)
  /\ (forall t, duration a <= t -> opacity a t == 0)
  /\ (forall st now,
         highlightDraw st now a
         = Draw (FillEllipse
                   (WithAlpha kHighlightBB (opacity a (now - t0 a)))
                   (circleAround (center a) (openRadius st)))).
Proof.
  intro HD. unfold opacity.
  assert (Hafter : forall t, duration a <= t ->
                             fadeAlpha (t / duration a) == 0).
  { intros t Ht. apply fadeAlpha_after.
    apply Qle_shift_div_l; [exact HD | lra]. }
  split.
  { intros t1 t2 H. apply fadeAlpha_monotone. now apply div_le_div. }
  split.
  { apply Hafter. apply Qle_refl. }
  split.
  { intros t Ht. apply fadeAlpha_inside. now apply div_range. }
  split.
  { intros t Ht. reflexivity. }
  split.
  { intros t Ht. apply fadeAlpha_before.
    apply Qle_shift_div_r; [exact HD | lra]. }
  split; [exact Hafter|].
  intros st now. reflexivity.
Qed.

Lemma opacity_fades_out_witness :
  opacity sampleHighlight (9 # 10) == 1 # 8
  /\ opacity sampleHighlight (duration sampleHighlight) == 0.
Proof.
  assert (HD : 0 < duration sampleHighlight) by reflexivity.
  destruct (opacity_fades_out sampleHighlight HD) as (_ & H0 & Hin & _).
  split; [|exact H0].
  rewrite (Hin (9 # 10)); [reflexivity|].
  split; discriminate.
Defined.

(** ** The size-change handler *)

Lemma afterRebuild_idempotent (st : Fretboard) :
  afterRebuild (afterRebuild st) = afterRebuild st.
Proof.
  unfold afterRebuild. destruct (degenerate st) eqn:E.
  - now rewrite E.
  - replace (degenerate (rebuilt (width st) (height st) st)) with false.
    reflexivity.
Qed.

Lemma rebuildEffects_afterRebuild (st : Fretboard) :
  rebuildEffects (afterRebuild st) = rebuildEffects st.
Proof.
  unfold afterRebuild, rebuildEffects. destruct (degenerate st) eqn:E.
  - now rewrite E.
  - replace (degenerate (rebuilt (width st) (height st) st)) with false.
    reflexivity.
Qed.

(** C6, as stated, fails: two calls of [resized] at an unchanged size
    rebuild the static layer twice. *)
Lemma resized_twice_counterexample :
  countRebuilds (effectsOf ((resized ;; resized) editorBoard)) = 2%nat
  /\ ~ (countRebuilds (effectsOf ((resized ;; resized) editorBoard))
        <= 1)%nat.
Proof.
  assert (E : countRebuilds (effectsOf ((resized ;; resized) editorBoard))
              = 2%nat) by (vm_compute; reflexivity).
  split; [exact E | rewrite E; lia].
Qed.

(** C6, amended: [resized] rebuilds the static layer at every call made
    with a width and a height above 2, and at no call otherwise.  A second
    call at the same size rebuilds again and leaves every member, the
    geometry and the static layer with it, as the first call left it; the
    geometry is that of the size.  A [paint] that follows does not rebuild:
    it does so only when the layer is missing or has another size. *)
Theorem resized_rebuilds_every_call (st : Fretboard) :
  exists st1 evs,
    resized st = Some (tt, st1, evs)
    /\ resized st1 = Some (tt, st1, evs)
    /\ evs = (if degenerate st then []
              else [StaticRebuilt (width st) (height st)])
    /\ st1 = (if degenerate st then st
              else rebuilt (width st) (height st) st)
    /\ countRebuilds (effectsOf ((resized ;; resized) st))
       = (if degenerate st then 0 else 2)%nat
    /\ (forall now, countRebuilds (effectsOf (paint now st1)) = 0%nat)
    /\ (if degenerate st then True
        else geometryIs (width st) (height st) st1
             /\ staticLayerStale st1 = false).
Proof.
  exists (afterRebuild st), (rebuildEffects st).
  unfold resized.
  split; [apply rebuildStatic_run|].
  split.
  { rewrite rebuildStatic_run, afterRebuild_idempotent,
      rebuildEffects_afterRebuild. reflexivity. }
  split; [reflexivity|]. split; [reflexivity|].
  split.
  { unfold bind. rewrite rebuildStatic_run, rebuildStatic_run.
    rewrite rebuildEffects_afterRebuild. cbn [effectsOf].
    unfold rebuildEffects. destruct (degenerate st); reflexivity. }
  split.
  { intro now. rewrite paint_run. cbn [effectsOf].
    unfold countRebuilds. cbn [filter isStaticRebuilt].
    rewrite filter_app. cbn [filter isStaticRebuilt].
    rewrite length_app.
    assert (Z : forall l : list Animation,
               filter isStaticRebuilt
                 (map (highlightDraw (refreshed (afterRebuild st)) now) l)
               = []).
    { induction l as [|a l IH]; [reflexivity | exact IH]. }
    rewrite Z. unfold refreshEffects.
    rewrite rebuildEffects_afterRebuild.
    unfold afterRebuild, rebuildEffects.
    destruct (degenerate st) eqn:E.
    - destruct (staticLayerStale st); reflexivity.
    - unfold staticLayerStale.
      cbn [staticLayer rebuilt imageWidth imageHeight width height].
      now rewrite !Z.eqb_refl. }
  unfold afterRebuild. destruct (degenerate st) eqn:E; [exact I|].
  split; [repeat split|].
  unfold staticLayerStale. cbn [staticLayer rebuilt imageWidth imageHeight
                                width height].
  now rewrite !Z.eqb_refl.
Qed.

(** The host does not reach the handler with an unchanged size: a second
    [setSize] with the same arguments does nothing. *)
Lemma setSize_same_size (st : Fretboard) (wd ht : Z) :
  exists st1 evs,
    setSize wd ht st = Some (tt, st1, evs)
    /\ setSize wd ht st1 = Some (tt, st1, []).
Proof.
  unfold setSize. rewrite bind_get.
  destruct ((jmaxZ 0 wd =? width st)%Z && (jmaxZ 0 ht =? height st)%Z) eqn:E.
  - exists st, []. split; [reflexivity|]. rewrite bind_get, E. reflexivity.
  - unfold bind at 1. unfold modify at 1. unfold resized.
    rewrite rebuildStatic_run.
    eexists. eexists. split; [reflexivity|]. rewrite bind_get.
    assert (W : width (afterRebuild (setDims (jmaxZ 0 wd) (jmaxZ 0 ht) st))
                = jmaxZ 0 wd
                /\ height (afterRebuild
                             (setDims (jmaxZ 0 wd) (jmaxZ 0 ht) st))
                   = jmaxZ 0 ht).
    { unfold afterRebuild.
      destruct (degenerate (setDims (jmaxZ 0 wd) (jmaxZ 0 ht) st));
        split; reflexivity. }
    destruct W as [-> ->]. now rewrite !Z.eqb_refl.
Qed.

(** ** Geometry on demand *)

Lemma ensured_skips (st : Fretboard) :
  degenerate st = true -> ensured st = st /\ ensureEffects st = [].
Proof.
  intros Hd. unfold ensured, ensureEffects, afterRebuild, rebuildEffects.
  rewrite Hd. destruct (Qle_bool (openRadius st) 0); now split.
Qed.

(** In a reachable state [openRadius <= 0] holds only while the component
    has a size that [rebuildStatic] refuses. *)
Lemma reachable_no_radius (st : Fretboard) :
  reachable st -> openRadius st <= 0 -> degenerate st = true.
Proof.
  intros Hreach Hle.
  destruct (degenerate st) eqn:Hd; [reflexivity | exfalso].
  destruct (reachable_wellFormed st Hreach) as (_ & Hg & _).
  destruct (Hg Hd) as (_ & _ & _ & Er).
  pose proof (openRadiusFor_range (width st) (height st)) as [L _].
  rewrite Er in Hle. lra.
Qed.

(** C7: a defect of the code.  The first statement of [triggerNote] is
    [if (openRadius <= 0.0f) rebuildStatic(); // ensure geometry exists],
    but [rebuildStatic] returns at its size guard on the component as
    constructed, whose size is 0 x 0: [triggerNote (0, 0)] then appends a
    highlight resolved from the zero geometry, centred at the origin, and
    [openRadius] is still 0.  In every reachable state in which the call is
    made, it rebuilds nothing, and the highlight is appended all the same
    with [openRadius] not above 0. *)
Theorem triggerNote_before_layout :
  (exists st' evs a,
      triggerNote 0 0 0 newFretboard = Some (tt, st', evs)
      /\ active st' = [a]
      /\ countRebuilds evs = 0%nat
      /\ openRadius st' = 0
      /\ boardBounds st' = emptyRectangle
      /\ x (center a) == 0 /\ y (center a) == 0)
  /\ (forall st sIdx fIdx now,
         reachable st -> openRadius st <= 0 ->
         (0 <= sIdx <= 3)%Z -> (0 <= fIdx <= 12)%Z ->
         rebuildStatic st = Some (tt, st, [])
         /\ exists st' evs a,
              triggerNote sIdx fIdx now st = Some (tt, st', evs)
              /\ countRebuilds evs = 0%nat
              /\ active st' = active st ++ [a]
              /\ openRadius st' = openRadius st
              /\ ~ 0 < openRadius st').
Proof.
  split.
  { eexists. eexists. eexists.
    split; [vm_compute; reflexivity|].
    repeat (split; [reflexivity|]). reflexivity. }
  intros st sIdx fIdx now Hreach Hle Hs Hf.
  pose proof (reachable_no_radius st Hreach Hle) as Hd.
  destruct (ensured_skips st Hd) as [Es Ee].
  split.
  { rewrite rebuildStatic_run. unfold afterRebuild, rebuildEffects.
    now rewrite Hd. }
  destruct (triggerNote_in_range st sIdx fIdx now Hs Hf)
    as (name & c & _ & _ & _ & E).
  rewrite Es, Ee in E.
  eexists. eexists. eexists. split; [exact E|].
  split; [destruct (onNotePlayed st); reflexivity|].
  split; [reflexivity|]. split; [reflexivity|].
  cbn [addActive setActive openRadius]. lra.
Qed.

Lemma triggerNote_before_layout_witness :
  rebuildStatic newFretboard = Some (tt, newFretboard, [])
  /\ exists st' evs a,
       triggerNote 3 12 0 newFretboard = Some (tt, st', evs)
       /\ countRebuilds evs = 0%nat
       /\ active st' = [a]
       /\ openRadius st' = 0.
Proof.
  destruct triggerNote_before_layout as [_ H].
  destruct (H newFretboard 3%Z 12%Z 0 reachable_new) as [R T];
    [discriminate | lia | lia |].
  split; [exact R|].
  destruct T as (st' & evs & a & H1 & H2 & H3 & H4 & _).
  exists st', evs, a. repeat split; assumption.
Defined.

(** ** The open-string targets *)

(** C8, as stated, fails: the top-left corner of the square around the
    first open-string circle is farther than [openRadius] from the center,
    and a click there plays the open string. *)
Lemma open_target_counterexample :
  contains (openCircleFor 960 292 0) cornerPoint = true
  /\ withinCircle (getCentre (openCircleFor 960 292 0))
                  (openRadius editorBoard) cornerPoint = false
  /\ index4 (openCircles editorBoard) 0 = Some (openCircleFor 960 292 0)
  /\ mouseDown cornerPoint 0 editorBoard = triggerNote 0 0 0 editorBoard
  /\ lastNoteName (mouseDown cornerPoint 0 editorBoard) = Some "G2"%string.
Proof.
  split; [vm_compute; reflexivity|].
  split; [vm_compute; reflexivity|].
  split; [reflexivity|].
  split; vm_compute; reflexivity.
Qed.

Lemma square_lt_bound (d r : Q) : 0 <= r -> d * d < r * r -> - r < d < r.
Proof.
  intros Hr H. split.
  - destruct (Qlt_le_dec (- r) d) as [L | L]; [exact L|].
    exfalso. assert (r * r <= d * d) by nra. lra.
  - destruct (Qlt_le_dec d r) as [L | L]; [exact L|].
    exfalso. assert (r * r <= d * d) by nra. lra.
Qed.

Lemma square_centre_strict (c p : Point) (radius : Q) :
  (x p - x c) ^ 2 + (y p - y c) ^ 2 < radius ^ 2 -> 0 <= radius ->
  withinSquare c radius p.
Proof.
  intros H Hr. unfold withinSquare.
  assert (E : forall u : Q, u ^ 2 == u * u) by (intro u; simpl; ring).
  rewrite !E in H.
  set (dx := x p - x c) in *. set (dy := y p - y c) in *.
  assert (Sx : 0 <= dx * dx) by nra.
  assert (Sy : 0 <= dy * dy) by nra.
  destruct (square_lt_bound dx radius Hr ltac:(lra)) as [X1 X2].
  destruct (square_lt_bound dy radius Hr ltac:(lra)) as [Y1 Y2].
  unfold dx in X1, X2. unfold dy in Y1, Y2.
  repeat split; lra.
Qed.

(** C8, amended: the test of an open-string target contains a point exactly
    when the point lies in the half-open square of half-side [openRadius]
    around the center of the target; this holds for every point closer than
    [openRadius] to the center, and also in the corners of the square. *)
Theorem open_target_is_square (st : Fretboard) (s : Z) (p : Point) :
  reachable st -> (0 <= s <= 3)%Z ->
  exists oc,
    index4 (openCircles st) s = Some oc
    /\ (contains oc p = true
        <-> withinSquare (getCentre oc) (openRadius st) p)
    /\ ((x p - x (getCentre oc)) ^ 2 + (y p - y (getCentre oc)) ^ 2
        < openRadius st ^ 2 -> contains oc p = true).
Proof.
  intros Hr Hs.
  destruct (reachable_wellFormed st Hr) as (_ & _ & Hrad & Hfit).
  destruct (index4_defined (openCircles st) s Hs) as (oc & Hi).
  destruct (Hfit s oc Hi) as (c & ->).
  exists (circleAround c (openRadius st)). split; [exact Hi|].
  destruct (circleAround_centre c (openRadius st)) as [Ex Ey].
  assert (Hsq : withinSquare (getCentre (circleAround c (openRadius st)))
                  (openRadius st) p
                <-> withinSquare c (openRadius st) p).
  { unfold withinSquare. rewrite Ex, Ey. reflexivity. }
  split.
  - rewrite Hsq. now apply circleAround_contains.
  - intro H. apply circleAround_contains; [exact Hrad|].
    apply Hsq. now apply square_centre_strict.
Qed.

Lemma open_target_is_square_witness :
  exists oc,
    index4 (openCircles editorBoard) 2 = Some oc
    /\ (contains oc cornerPoint = true
        <-> withinSquare (getCentre oc) (openRadius editorBoard) cornerPoint).
Proof.
  destruct (open_target_is_square editorBoard 2 cornerPoint
              editorBoard_reachable) as (oc & H1 & H2 & _); [lia|].
  exists oc. split; assumption.
Defined.

(** ** Pointer resolution *)

Lemma mouseDown_open (st : Fretboard) (p : Point) (now : Q) (s : Z) :
  firstContaining (openCircles st) p = Some s ->
  mouseDown p now st = triggerNote s 0 now st.
Proof.
  intro H. unfold mouseDown. rewrite bind_get, H. reflexivity.
Qed.

Lemma mouseDown_outside (st : Fretboard) (p : Point) (now : Q) :
  firstContaining (openCircles st) p = None ->
  contains (boardBounds st) p = false ->
  mouseDown p now st = Some (tt, st, []).
Proof.
  intros H Hb. unfold mouseDown. rewrite bind_get, H, Hb. reflexivity.
Qed.


Lemma mouseDown_fret (st : Fretboard) (p : Point) (now : Q) (s : Z) :
  firstContaining (openCircles st) p = None ->
  contains (boardBounds st) p = true ->
  firstContaining (rowRects st) p = Some s ->
  mouseDown p now st = triggerNote s (fretAt st p) now st.
Proof.
  intros H Hb Hr. unfold mouseDown. rewrite bind_get, H, Hb, Hr.
  reflexivity.
Qed.

(** A board that contains a point is at least one pixel wide, and its left
    edge is at 90. *)
Lemma board_cell_width (wd ht : Z) (p : Point) :
  contains (boardBoundsFor wd ht) p = true ->
  getX (boardBoundsFor wd ht) = 90
  /\ 1 # 12 <= getWidth (boardBoundsFor wd ht) / 12
  /\ 0 <= x p - 90
  /\ x p - 90 < 12 * (getWidth (boardBoundsFor wd ht) / 12).
Proof.
  intro H. apply contains_spec in H. destruct H as (A & _ & B & _).
  assert (Bx : getX (boardBoundsFor wd ht) = 90) by reflexivity.
  unfold getRight in B.
  change (x (pos (boardBoundsFor wd ht))) with (getX (boardBoundsFor wd ht))
    in B.
  change (w (boardBoundsFor wd ht)) with (getWidth (boardBoundsFor wd ht))
    in B.
  rewrite Bx in A, B.
  destruct (board_width_value wd ht) as [W0 W1].
  set (bw := getWidth (boardBoundsFor wd ht)) in *. clearbody bw.
  assert (Hw : 1 <= bw).
  { destruct (Z_le_gt_dec wd 116) as [L | G].
    - specialize (W0 L). lra.
    - rewrite W1 by lia.
      assert (I : inject_Z 117 <= inject_Z wd) by (rewrite <- Zle_Qle; lia).
      change (inject_Z 117) with 117 in I. lra. }
  assert (E : 12 * (bw / 12) == bw) by field.
  split; [exact Bx|]. split; [|split]; lra.
Qed.

(** In a computed geometry the rounded quotient of a point of the board is
    the real one up to a ten-thousandth of a cell. *)
Lemma fretQuotient_spec (wd ht : Z) (st : Fretboard) (p : Point) :
  geometryIs wd ht st -> contains (boardBounds st) p = true ->
  0 <= fretQuotient st p
  /\ (x p - getX (boardBounds st))
     - getWidth (boardBounds st) / 12 * (1 # 10000)
     <= fretQuotient st p * (getWidth (boardBounds st) / 12)
  /\ fretQuotient st p * (getWidth (boardBounds st) / 12)
     <= (x p - getX (boardBounds st))
        + getWidth (boardBounds st) / 12 * (1 # 10000).
Proof.
  intros (Eb & _) H. rewrite Eb in H.
  destruct (board_cell_width wd ht p H) as (Bx & Hc & A0 & A1).
  unfold fretQuotient. rewrite Eb, Bx.
  apply quotient_rounding; [exact A0 | lra | exact Hc].
Qed.


(** The index before the clamp is within 1..13 for a point of the board,
    and within 1..12 when the point keeps a thousandth of a cell away from
    the right edge. *)
Lemma rawFret_range (wd ht : Z) (st : Fretboard) (p : Point) :
  geometryIs wd ht st -> contains (boardBounds st) p = true ->
  (1 <= Qfloor (fretQuotient st p) + 1 <= 13)%Z
  /\ (x p <= getRight (boardBounds st)
             - getWidth (boardBounds st) / 12 * (1 # 1000) ->
      (Qfloor (fretQuotient st p) + 1 <= 12)%Z).
Proof.
  intros Hg H. destruct (fretQuotient_spec wd ht st p Hg H) as (R0 & _ & U).
  destruct Hg as (Eb & _). rewrite Eb in H.
  destruct (board_cell_width wd ht p H) as (Bx & Hc & A0 & A1).
  rewrite Eb in *. unfold getRight.
  change (x (pos (boardBoundsFor wd ht))) with (getX (boardBoundsFor wd ht)).
  change (w (boardBoundsFor wd ht)) with (getWidth (boardBoundsFor wd ht)).
  rewrite Bx in *.
  assert (Ew : getWidth (boardBoundsFor wd ht)
               == 12 * (getWidth (boardBoundsFor wd ht) / 12)) by field.
  set (cw := getWidth (boardBoundsFor wd ht) / 12) in *.
  set (bw := getWidth (boardBoundsFor wd ht)) in *.
  clearbody cw bw.
  set (R := fretQuotient st p) in *. clearbody R.
  assert (Hpos : 0 < cw) by lra.
  assert (F0 : (0 <= Qfloor R)%Z).
  { rewrite <- (Qfloor_Z 0). now apply Qfloor_resp_le. }
  pose proof (Qfloor_le R) as FL.
  assert (K : forall k : Z, R * cw < inject_Z k * cw -> (Qfloor R < k)%Z).
  { intros k Hk. apply (proj1 (Qmult_lt_r _ _ cw Hpos)) in Hk.
    rewrite Zlt_Qlt. lra. }
  split.
  - split; [lia|].
    assert (L : (Qfloor R < 13)%Z).
    { apply K. change (inject_Z 13) with 13. lra. }
    lia.
  - intro M.
    assert (L : (Qfloor R < 12)%Z).
    { apply K. change (inject_Z 12) with 12. lra. }
    lia.
Qed.

(** The fret resolved for a point of the board: its cell contains the point
    or ends within a thousandth of a cell of it. *)
Lemma fretAt_near_cell (wd ht : Z) (st : Fretboard) (p : Point) :
  geometryIs wd ht st -> contains (boardBounds st) p = true ->
  (1 <= fretAt st p <= 12)%Z
  /\ getX (boardBounds st)
     + inject_Z (fretAt st p - 1) * (getWidth (boardBounds st) / 12)
     - getWidth (boardBounds st) / 12 * (1 # 1000) <= x p
  /\ x p < getX (boardBounds st)
           + inject_Z (fretAt st p - 1) * (getWidth (boardBounds st) / 12)
           + getWidth (boardBounds st) / 12
           + getWidth (boardBounds st) / 12 * (1 # 1000).
Proof.
  intros Hg H.
  destruct (fretQuotient_spec wd ht st p Hg H) as (R0 & L & U).
  destruct (rawFret_range wd ht st p Hg H) as ((N1 & N13) & _).
  destruct Hg as (Eb & _). rewrite Eb in H.
  destruct (board_cell_width wd ht p H) as (Bx & Hc & A0 & A1).
  unfold fretAt. rewrite Eb in *. rewrite Bx in *.
  set (cw := getWidth (boardBoundsFor wd ht) / 12) in *. clearbody cw.
  set (R := fretQuotient st p) in *. clearbody R.
  assert (Hpos : 0 < cw) by lra.
  pose proof (Qfloor_le R) as FL. pose proof (Qlt_floor R) as FU.
  rewrite inject_Z_plus in FU. change (inject_Z 1) with 1 in FU.
  set (n := Qfloor R) in *. clearbody n.
  assert (M1 : inject_Z n * cw <= R * cw)
    by (apply Qmult_le_compat_r; lra).
  assert (M2 : R * cw < (inject_Z n + 1) * cw)
    by (apply Qmult_lt_compat_r; lra).
  setoid_replace ((inject_Z n + 1) * cw) with (inject_Z n * cw + cw)
    in M2 by ring.
  unfold jlimitZ.
  destruct (n + 1 <? 1)%Z eqn:E1; [apply Z.ltb_lt in E1; lia|].
  destruct (12 <? n + 1)%Z eqn:E2.
  - apply Z.ltb_lt in E2. assert (n = 12%Z) by lia. subst n.
    change (inject_Z (12 - 1)) with 11. change (inject_Z 12) with 12 in *.
    split; [lia|]. split; lra.
  - apply Z.ltb_ge in E2.
    replace (n + 1 - 1)%Z with n by lia.
    split; [lia|]. split; lra.
Qed.

(** A point of the board that keeps a thousandth of a cell away from the
    edges of the cell of fret [f] resolves to [f]. *)
Lemma fretAt_in_cell (wd ht f : Z) (st : Fretboard) (p : Point) :
  geometryIs wd ht st -> contains (boardBounds st) p = true ->
  (1 <= f <= 12)%Z ->
  getX (boardBounds st)
  + inject_Z (f - 1) * (getWidth (boardBounds st) / 12)
  + getWidth (boardBounds st) / 12 * (1 # 1000) <= x p ->
  x p <= getX (boardBounds st)
         + inject_Z (f - 1) * (getWidth (boardBounds st) / 12)
         + getWidth (boardBounds st) / 12
         - getWidth (boardBounds st) / 12 * (1 # 1000) ->
  fretAt st p = f.
Proof.
  intros Hg H Hf X1 X2.
  destruct (fretQuotient_spec wd ht st p Hg H) as (R0 & L & U).
  destruct Hg as (Eb & _). rewrite Eb in H.
  destruct (board_cell_width wd ht p H) as (Bx & Hc & A0 & A1).
  unfold fretAt. rewrite Eb in *. rewrite Bx in *.
  set (cw := getWidth (boardBoundsFor wd ht) / 12) in *. clearbody cw.
  set (R := fretQuotient st p) in *. clearbody R.
  assert (Hpos : 0 < cw) by lra.
  rewrite (Qfloor_between R (f - 1)).
  - unfold jlimitZ.
    destruct (f - 1 + 1 <? 1)%Z eqn:E1; [apply Z.ltb_lt in E1; lia|].
    destruct (12 <? f - 1 + 1)%Z eqn:E2; [apply Z.ltb_lt in E2; lia|].
    lia.
  - apply (Qmult_le_r _ _ cw Hpos). lra.
  - apply (Qmult_lt_r _ _ cw Hpos).
    replace (f - 1 + 1)%Z with (f - 1 + 1)%Z by reflexivity.
    rewrite inject_Z_plus. change (inject_Z 1) with 1.
    setoid_replace ((inject_Z (f - 1) + 1) * cw)
      with (inject_Z (f - 1) * cw + cw) by ring.
    lra.
Qed.

Lemma cell_contains (R : Rectangle) (bx cw : Q) (n : Z) (p : Point) :
  contains (setWidth (setX R (bx + inject_Z n * cw)) cw) p = true ->
  bx + inject_Z n * cw <= x p /\ x p < bx + inject_Z n * cw + cw
  /\ getY R <= y p /\ y p < getBottom R.
Proof.
  intro H. apply contains_spec in H.
  unfold getX, getY, getRight, getBottom in *.
  cbn [setWidth setX rect pos x y w h] in H. tauto.
Qed.

Lemma cell_clearOfSides (R : Rectangle) (bx cw : Q) (n : Z) (p : Point) :
  clearOfSides (setWidth (setX R (bx + inject_Z n * cw)) cw) p ->
  bx + inject_Z n * cw + cw * (1 # 1000) <= x p
  /\ x p <= bx + inject_Z n * cw + cw - cw * (1 # 1000).
Proof.
  unfold clearOfSides, getX, getRight, getWidth.
  cbn [setWidth setX rect pos x y w h]. tauto.
Qed.


(** Rounding can move a click across a fret line: at the width 300 the
    real quotient of this point is just below 7, the single-precision one
    is 7, and the click plays fret 8. *)
Lemma fretAt_rounds_up :
  contains (boardBounds slimBoard) belowSeventhLine = true
  /\ (Qfloor (exactQuotient slimBoard belowSeventhLine) + 1 = 7)%Z
  /\ fretAt slimBoard belowSeventhLine = 8%Z.
Proof. repeat split. Qed.


Lemma editorBoard_geometry : geometryIs 960 292 editorBoard.
Proof. repeat split. Defined.




(** * Further properties *)

(** ** Names determine pitches *)

Lemma string_of_uint_head (d : Decimal.uint) :
  d <> Decimal.Nil ->
  exists a r, NilZero.string_of_uint d = String a r
              /\ Ascii.eqb a "#" = false /\ Ascii.eqb a "-" = false.
Proof.
  destruct d; intro H; try congruence;
    (eexists; eexists; split; [reflexivity | split; reflexivity]).
Qed.

Lemma String_of_int_head (z : Z) :
  exists a r, String_of_int z = String a r /\ Ascii.eqb a "#" = false.
Proof.
  unfold String_of_int. destruct z as [|p|p]; simpl.
  - eexists; eexists; split; reflexivity.
  - destruct (string_of_uint_head (Pos.to_uint p)) as (a & r & E & H & _).
    { apply Unsigned.to_uint_nonnil. }
    exists a, r. split; [exact E | exact H].
  - eexists; eexists; split; reflexivity.
Qed.

Lemma parseInt_String_of_int (z : Z) : parseInt (String_of_int z) = Some z.
Proof.
  unfold parseInt, String_of_int.
  rewrite NilZero.isi.
  - simpl. now rewrite DecimalZ.of_to.
  - destruct z as [|p|p]; simpl; try discriminate.
    intro E. injection E as E. now apply Unsigned.to_uint_nonnil in E.
  - destruct z as [|p|p]; simpl; try discriminate.
    intro E. injection E as E. now apply Unsigned.to_uint_nonnil in E.
Qed.

Lemma noteToMidi_natural (letter : ascii) (i oct : Z) :
  naturalIndex letter = Some i ->
  noteToMidi (String letter (String_of_int oct))
  = Some (12 * (oct + 1) + i)%Z.
Proof.
  intro H. destruct (String_of_int_head oct) as (a & r & E & Ha).
  pose proof (parseInt_String_of_int oct) as P. rewrite E in P.
  rewrite E. cbn [noteToMidi]. rewrite Ha, H, P. reflexivity.
Qed.

Lemma noteToMidi_sharp (letter : ascii) (i oct : Z) :
  sharpIndex letter = Some i ->
  noteToMidi (String letter (String "#" (String_of_int oct)))
  = Some (12 * (oct + 1) + i)%Z.
Proof.
  intro H. cbn [noteToMidi]. rewrite Ascii.eqb_refl, H.
  now rewrite parseInt_String_of_int.
Qed.

Lemma noteToMidi_midiToNote (midi : Z) :
  (0 <= midi)%Z ->
  noteToMidi (specNoteName midi) = Some midi.
Proof.
  intro H. unfold specNoteName.
  pose proof (Z.mod_pos_bound midi 12 ltac:(lia)) as B.
  pose proof (Z.div_mod midi 12 ltac:(lia)) as D.
  set (i := (midi mod 12)%Z) in *. set (q := (midi / 12)%Z) in *.
  assert (E : (12 * (q - 1 + 1) + i = midi)%Z) by lia.
  assert (C : (i = 0 \/ i = 1 \/ i = 2 \/ i = 3 \/ i = 4 \/ i = 5 \/ i = 6
               \/ i = 7 \/ i = 8 \/ i = 9 \/ i = 10 \/ i = 11)%Z) by lia.
  clearbody i q. rewrite <- E.
  repeat (destruct C as [-> | C]); try rewrite C;
    cbn [Z.to_nat Pos.to_nat Pos.iter_op Nat.add nth specChromatic
           String.append];
    first [ apply (noteToMidi_natural _ _ (q - 1)); reflexivity
          | apply (noteToMidi_sharp _ _ (q - 1)); reflexivity ].
Qed.

Lemma midiToNote_injective (m1 m2 : Z) :
  (0 <= m1)%Z -> (0 <= m2)%Z -> midiToNote m1 = midiToNote m2 -> m1 = m2.
Proof.
  intros H1 H2 E.
  rewrite (midiToNote_spec m1 H1), (midiToNote_spec m2 H2) in E.
  injection E as E.
  pose proof (noteToMidi_midiToNote m1 H1) as R1.
  pose proof (noteToMidi_midiToNote m2 H2) as R2.
  rewrite E in R1. congruence.
Qed.

(** X1: a name read back gives the pitch it was made from, so pitches from
    0 on that differ have names that differ. *)
Theorem midiToNote_round_trip :
  (forall midi : Z,
      (0 <= midi)%Z ->
      exists name, midiToNote midi = Some name
                   /\ noteToMidi name = Some midi)
  /\ (forall m1 m2 : Z,
         (0 <= m1)%Z -> (0 <= m2)%Z ->
         midiToNote m1 = midiToNote m2 -> m1 = m2).
Proof.
  split.
  - intros midi H. exists (specNoteName midi).
    split; [now apply midiToNote_spec | now apply noteToMidi_midiToNote].
  - exact midiToNote_injective.
Qed.

Lemma midiToNote_round_trip_witness :
  exists name, midiToNote 61 = Some name /\ noteToMidi name = Some 61%Z.
Proof.
  apply (proj1 midiToNote_round_trip 61%Z). lia.
Defined.

(** X2: every pitch below 0 is clamped to 0 and named like it, "C-1". *)
Theorem midiToNote_clamps_negative (midi : Z) :
  (midi <= 0)%Z -> midiToNote midi = Some "C-1"%string.
Proof.
  intro H. unfold midiToNote.
  assert (E : jmaxZ 0 midi = 0%Z).
  { unfold jmaxZ. destruct (0 <? midi)%Z eqn:L; [|reflexivity].
    apply Z.ltb_lt in L. lia. }
  rewrite E. reflexivity.
Qed.

Lemma midiToNote_clamps_negative_witness :
  midiToNote (-40) = Some "C-1"%string.
Proof.
  apply (midiToNote_clamps_negative (-40)). lia.
Defined.

(** X3: two positions of the fretboard are given the same name exactly when
    they have the same pitch; with strings a fourth apart, fret [f + 5] of a
    string sounds like fret [f] of the string above it. *)
Theorem same_name_same_pitch (st st' : Fretboard) (now now' : Q)
  (s f s' f' : Z) :
  (0 <= s <= 3)%Z -> (0 <= f <= 12)%Z ->
  (0 <= s' <= 3)%Z -> (0 <= f' <= 12)%Z ->
  (lastNoteName (triggerNote s f now st)
   = lastNoteName (triggerNote s' f' now' st')
   <-> (baseMidiForString s + f = baseMidiForString s' + f')%Z)
  /\ ((s' = s + 1)%Z -> (f' = f + 5)%Z ->
      lastNoteName (triggerNote s f now st)
      = lastNoteName (triggerNote s' f' now' st')).
Proof.
  intros Hs Hf Hs' Hf'.
  rewrite (proj1 (triggered_name st s f now Hs Hf)).
  rewrite (proj1 (triggered_name st' s' f' now' Hs' Hf')).
  pose proof (trigger_midi_range s f Hs Hf) as R.
  pose proof (trigger_midi_range s' f' Hs' Hf') as R'.
  assert (I : midiToNote (baseMidiForString s + f)
              = midiToNote (baseMidiForString s' + f')
              <-> (baseMidiForString s + f
                   = baseMidiForString s' + f')%Z).
  { split; [apply midiToNote_injective; lia | now intros ->]. }
  split; [exact I|].
  intros E1 E2. apply I.
  assert (C : (s = 0 /\ s' = 1 \/ s = 1 /\ s' = 2 \/ s = 2 /\ s' = 3)%Z)
    by lia.
  destruct C as [[-> ->] | [[-> ->] | [-> ->]]];
    unfold baseMidiForString; lia.
Qed.

Lemma same_name_same_pitch_witness :
  lastNoteName (triggerNote 0 0 0 editorBoard)
  = lastNoteName (triggerNote 1 5 1 newFretboard).
Proof.
  apply (proj2 (same_name_same_pitch editorBoard newFretboard 0 1
                  0 0 1 5 ltac:(lia) ltac:(lia) ltac:(lia) ltac:(lia)));
    reflexivity.
Defined.

(** ** The ease-out curve *)

(** X4: [easeOutCubic01] stays within 0..1, never decreases, is 0 up to
    [t = 0] and 1 from [t = 1] on. *)
Theorem easeOutCubic01_shape :
  (forall t, 0 <= easeOutCubic01 t <= 1)
  /\ (forall t1 t2, t1 <= t2 -> easeOutCubic01 t1 <= easeOutCubic01 t2)
  /\ (forall t, t <= 0 -> easeOutCubic01 t == 0)
  /\ (forall t, 1 <= t -> easeOutCubic01 t == 1)
  /\ (forall t, 0 <= t <= 1 -> easeOutCubic01 t == 1 - (1 - t) ^ 3).
Proof.
  assert (E : forall t, easeOutCubic01 t == 1 - fadeAlpha t).
  { intro t. unfold fadeAlpha. ring. }
  split.
  { intro t. rewrite E. pose proof (fadeAlpha_bounds t). lra. }
  split.
  { intros t1 t2 H. rewrite !E.
    pose proof (fadeAlpha_monotone t1 t2 H). lra. }
  split.
  { intros t H. rewrite E, (fadeAlpha_before t H). ring. }
  split.
  { intros t H. rewrite E, (fadeAlpha_after t H). ring. }
  intros t H. rewrite E, (fadeAlpha_inside t H). ring.
Qed.

Lemma easeOutCubic01_shape_witness :
  easeOutCubic01 (1 # 4) <= easeOutCubic01 (3 # 4)
  /\ easeOutCubic01 (-2) == 0 /\ easeOutCubic01 5 == 1.
Proof.
  destruct easeOutCubic01_shape as (_ & Hm & H0 & H1 & _).
  split; [apply Hm; discriminate|].
  split; [apply H0 | apply H1]; discriminate.
Defined.

(** ** Rows and open-string targets of a computed geometry *)

(** Top and bottom of a row, from the height [bh] of the board. *)
Lemma rowRectFor_vertical (wd ht s : Z) :
  (0 <= s <= 3)%Z ->
  let bh := getHeight (boardBoundsFor wd ht) in
  exists d, 0 <= d /\ d <= bh * (3 # 100)
            /\ getY (rowRectFor wd ht s) == 26 + inject_Z s * (bh / 4) + d
            /\ getBottom (rowRectFor wd ht s)
               == 26 + inject_Z (s + 1) * (bh / 4) - d
            /\ getCentreY (rowRectFor wd ht s)
               == 26 + inject_Z s * (bh / 4) + bh / 8.
Proof.
  intros Hs bh.
  pose proof (board_height_nonneg wd ht) as Hh. fold bh in Hh.
  rewrite rowRectFor_shape. cbv zeta.
  unfold getY, getBottom, getCentreY. cbn [rect pos y h].
  unfold rowH, kNumStrings. fold bh.
  change (inject_Z 4) with 4.
  generalize (getWidth (boardBoundsFor wd ht)). intro bw.
  clearbody bh.
  assert (Q4 : bh / 4 == bh * (1 # 4)) by field.
  assert (Q8 : bh / 8 == bh * (1 # 8)) by field.
  rewrite inject_Z_plus. change (inject_Z 1) with 1.
  set (k := inject_Z s).
  destruct (jmax_cases 0 (bh / 4)) as [[A1 E1] | [A1 E1]]; rewrite E1;
    match goal with
    | |- context [jmin 3 ?v] =>
        destruct (jmin_cases 3 v) as [[A2 E2] | [A2 E2]]; rewrite E2
    end;
    match goal with
    | |- context [jmax 0 (?u + - ?d * 2)] =>
        destruct (jmax_cases 0 (u + - d * 2)) as [[A3 E3] | [A3 E3]];
          rewrite E3; exists d
    end;
    rewrite ?Q4 in *; rewrite Q8;
    (split; [lra | split; [lra | split; [|split]]];
     try (field_simplify_eq; lra); try lra).
Qed.

Lemma rows_ordered (wd ht s s' : Z) :
  (0 <= s)%Z -> (s < s')%Z -> (s' <= 3)%Z ->
  getBottom (rowRectFor wd ht s) <= getY (rowRectFor wd ht s').
Proof.
  intros H0 H1 H2.
  destruct (rowRectFor_vertical wd ht s ltac:(lia)) as (d & D0 & _ & _ & B & _).
  destruct (rowRectFor_vertical wd ht s' ltac:(lia))
    as (d' & D0' & _ & T & _ & _).
  rewrite B, T.
  pose proof (board_height_nonneg wd ht) as Hh.
  set (bh := getHeight (boardBoundsFor wd ht)) in *.
  assert (Q4 : bh / 4 == bh * (1 # 4)) by field. rewrite Q4.
  assert (L : inject_Z (s + 1) <= inject_Z s')
    by (rewrite <- Zle_Qle; lia).
  assert (M : inject_Z (s + 1) * (bh * (1 # 4))
              <= inject_Z s' * (bh * (1 # 4))).
  { apply Qmult_le_compat_r; [exact L | lra]. }
  lra.
Qed.

Lemma rows_disjoint (wd ht s s' : Z) (p : Point) :
  (0 <= s <= 3)%Z -> (0 <= s' <= 3)%Z -> s <> s' ->
  contains (rowRectFor wd ht s) p = true ->
  contains (rowRectFor wd ht s') p = false.
Proof.
  intros Hs Hs' Hne Hin.
  destruct (contains (rowRectFor wd ht s') p) eqn:Hin'; [|reflexivity].
  exfalso. apply contains_spec in Hin, Hin'.
  destruct Hin as (_ & Y1 & _ & Y2), Hin' as (_ & Y1' & _ & Y2').
  destruct (Z.lt_trichotomy s s') as [L | [E | L]]; [| contradiction |].
  - pose proof (rows_ordered wd ht s s' ltac:(lia) L ltac:(lia)). lra.
  - pose proof (rows_ordered wd ht s' s ltac:(lia) L ltac:(lia)). lra.
Qed.

(** In a computed geometry the first row that contains a point is the only
    one. *)
Lemma firstContaining_row (wd ht s : Z) (p : Point) :
  (0 <= s <= 3)%Z ->
  contains (rowRectFor wd ht s) p = true ->
  firstContaining (rowRectsFor wd ht) p = Some s.
Proof.
  intros Hs Hin. apply firstContaining_firstHit. split.
  - exists (rowRectFor wd ht s). split; [|exact Hin].
    assert (C : (s = 0 \/ s = 1 \/ s = 2 \/ s = 3)%Z) by lia.
    destruct C as [-> | [-> | [-> | ->]]]; reflexivity.
  - intros s' r' Hs' Hi.
    assert (r' = rowRectFor wd ht s').
    { assert (C : (s' = 0 \/ s' = 1 \/ s' = 2)%Z) by lia.
      destruct C as [-> | [-> | ->]]; simpl in Hi; congruence. }
    subst r'. apply (rows_disjoint wd ht s s' p); try lia. exact Hin.
Qed.

(** X5: the four rows of a computed geometry lie inside the board, one
    below the other without overlap, so a point is in one row at most. *)
Theorem rows_stack_inside_board (wd ht : Z) :
  (forall s p, (0 <= s <= 3)%Z ->
               contains (rowRectFor wd ht s) p = true ->
               contains (boardBoundsFor wd ht) p = true)
  /\ (forall s s', (0 <= s)%Z -> (s < s')%Z -> (s' <= 3)%Z ->
                   getBottom (rowRectFor wd ht s)
                   <= getY (rowRectFor wd ht s'))
  /\ (forall s s' p, (0 <= s <= 3)%Z -> (0 <= s' <= 3)%Z -> s <> s' ->
                     contains (rowRectFor wd ht s) p = true ->
                     contains (rowRectFor wd ht s') p = false).
Proof.
  split; [|split].
  - intros s p. apply row_inside_board.
  - apply rows_ordered.
  - intros s s' p. apply rows_disjoint.
Qed.

Lemma rows_stack_inside_board_witness :
  getBottom (rowRectFor 960 292 1) <= getY (rowRectFor 960 292 2)
  /\ contains (rowRectFor 960 292 3) fifthCellPoint = false.
Proof.
  destruct (rows_stack_inside_board 960 292) as (_ & Ho & Hd).
  split.
  - apply Ho; lia.
  - apply (Hd 0%Z 3%Z fifthCellPoint); [lia | lia | discriminate |].
    vm_compute. reflexivity.
Defined.

Lemma openCircleFor_vertical (wd ht s : Z) :
  (0 <= s <= 3)%Z ->
  let bh := getHeight (boardBoundsFor wd ht) in
  getY (openCircleFor wd ht s)
  == 26 + inject_Z s * (bh / 4) + bh / 8 - openRadiusFor wd ht
  /\ getBottom (openCircleFor wd ht s)
     == 26 + inject_Z s * (bh / 4) + bh / 8 + openRadiusFor wd ht.
Proof.
  intros Hs bh.
  destruct (rowRectFor_vertical wd ht s Hs) as (_ & _ & _ & _ & _ & C).
  fold bh in C.
  rewrite openCircleFor_shape.
  unfold circleAround, getY, getBottom. cbn [rect pos x y w h].
  rewrite C. split; ring.
Qed.

Lemma openRadius_fits_row (wd ht : Z) :
  (148 <= ht)%Z ->
  2 * openRadiusFor wd ht <= getHeight (boardBoundsFor wd ht) / 4.
Proof.
  intro H.
  pose proof (proj2 (board_height_value wd ht) ltac:(lia)) as E.
  assert (L : 148 <= inject_Z ht)
    by (change 148 with (inject_Z 148); rewrite <- Zle_Qle; exact H).
  unfold openRadiusFor.
  set (bh := getHeight (boardBoundsFor wd ht)) in *.
  assert (Q4 : bh / 4 == bh * (1 # 4)) by field. rewrite Q4.
  unfold jlimit.
  destruct (Qltb (bh * (65 # 1000)) 12) eqn:E0;
    [apply Qltb_lt in E0; lra | apply Qltb_ge in E0].
  destruct (Qltb 22 (bh * (65 # 1000))) eqn:E1;
    [apply Qltb_lt in E1 | apply Qltb_ge in E1]; lra.
Qed.

Lemma open_targets_ordered (wd ht s s' : Z) :
  (148 <= ht)%Z -> (0 <= s)%Z -> (s < s')%Z -> (s' <= 3)%Z ->
  getBottom (openCircleFor wd ht s) <= getY (openCircleFor wd ht s').
Proof.
  intros H H0 H1 H2.
  destruct (openCircleFor_vertical wd ht s ltac:(lia)) as [_ B].
  destruct (openCircleFor_vertical wd ht s' ltac:(lia)) as [T _].
  rewrite B, T.
  pose proof (openRadius_fits_row wd ht H) as F.
  pose proof (board_height_nonneg wd ht) as Hh.
  set (bh := getHeight (boardBoundsFor wd ht)) in *.
  set (r := openRadiusFor wd ht) in *.
  assert (Q4 : bh / 4 == bh * (1 # 4)) by field. rewrite Q4 in *.
  assert (L : inject_Z s + 1 <= inject_Z s').
  { change 1 with (inject_Z 1). rewrite <- inject_Z_plus, <- Zle_Qle. lia. }
  assert (M : (inject_Z s + 1) * (bh * (1 # 4))
              <= inject_Z s' * (bh * (1 # 4))).
  { apply Qmult_le_compat_r; [exact L | lra]. }
  lra.
Qed.

Lemma index4_tabulate4 {A : Type} (f : Z -> A) (s : Z) :
  (0 <= s <= 3)%Z -> index4 (tabulate4 f) s = Some (f s).
Proof.
  intro H. assert (C : (s = 0 \/ s = 1 \/ s = 2 \/ s = 3)%Z) by lia.
  destruct C as [-> | [-> | [-> | ->]]]; reflexivity.
Qed.

(** X6: from a height of 148 on the four open-string targets of a computed
    geometry do not overlap, and a click in the target of a string plays
    that string, open. *)
Theorem open_targets_apart (wd ht : Z) (st : Fretboard) :
  geometryIs wd ht st -> (148 <= ht)%Z ->
  (forall s s', (0 <= s)%Z -> (s < s')%Z -> (s' <= 3)%Z ->
                getBottom (openCircleFor wd ht s)
                <= getY (openCircleFor wd ht s'))
  /\ (forall s p now, (0 <= s <= 3)%Z ->
                      contains (openCircleFor wd ht s) p = true ->
                      mouseDown p now st = triggerNote s 0 now st).
Proof.
  intros (_ & _ & Eo & _) H. split.
  - intros s s'. now apply open_targets_ordered.
  - intros s p now Hs Hin. apply mouseDown_open. rewrite Eo.
    apply firstContaining_firstHit. split.
    + exists (openCircleFor wd ht s). split; [|exact Hin].
      now apply index4_tabulate4.
    + intros s' r' Hs' Hi.
      unfold openCirclesFor in Hi.
      rewrite index4_tabulate4 in Hi by lia. injection Hi as <-.
      destruct (contains (openCircleFor wd ht s') p) eqn:Hin';
        [|reflexivity].
      exfalso. apply contains_spec in Hin, Hin'.
      destruct Hin as (_ & Y1 & _ & Y2), Hin' as (_ & Y1' & _ & Y2').
      pose proof (open_targets_ordered wd ht s' s H ltac:(lia) ltac:(lia)
                    ltac:(lia)).
      lra.
Qed.

Lemma open_targets_apart_witness :
  mouseDown thirdOpenPoint 0 editorBoard = triggerNote 2 0 0 editorBoard.
Proof.
  destruct (open_targets_apart 960 292 editorBoard editorBoard_geometry
              ltac:(lia)) as [_ H].
  apply H; [lia | vm_compute; reflexivity].
Defined.

Lemma empty_rectangle_contains (r : Rectangle) (p : Point) :
  w r == 0 \/ h r == 0 -> contains r p = false.
Proof.
  intro H. destruct (contains r p) eqn:E; [|reflexivity].
  exfalso. apply contains_spec in E.
  unfold getX, getY, getRight, getBottom in E. lra.
Qed.

Lemma board_empty (wd ht : Z) (st : Fretboard) (p : Point) :
  geometryIs wd ht st -> (wd <= 116)%Z \/ (ht <= 52)%Z ->
  contains (boardBounds st) p = false.
Proof.
  intros (Eb & _) H. rewrite Eb. apply empty_rectangle_contains.
  destruct H as [H | H].
  - left. exact (proj1 (board_width_value wd ht) H).
  - right. exact (proj1 (board_height_value wd ht) H).
Qed.

(** X7: with a width of at most 116 or a height of at most 52 the board of
    a computed geometry is empty: no click is inside it, and a click plays
    an open string or nothing. *)
Theorem no_board_no_frets (wd ht : Z) (st : Fretboard) :
  geometryIs wd ht st -> (wd <= 116)%Z \/ (ht <= 52)%Z ->
  (forall p, contains (boardBounds st) p = false)
  /\ (forall p now,
         mouseDown p now st = Some (tt, st, [])
         \/ exists s, (0 <= s <= 3)%Z
                      /\ mouseDown p now st = triggerNote s 0 now st).
Proof.
  intros Hg H.
  assert (Hb : forall p, contains (boardBounds st) p = false)
    by (intro p; now apply (board_empty wd ht)).
  split; [exact Hb|].
  intros p now.
  destruct (firstContaining (openCircles st) p) as [s|] eqn:E.
  - right. exists s. split.
    + exact (proj1 (firstContaining_some _ _ _ E)).
    + now apply mouseDown_open.
  - left. apply mouseDown_outside; [exact E | apply Hb].
Qed.

Lemma narrowBoard_reachable : reachable narrowBoard.
Proof.
  apply (@reachable_run newFretboard (OpSetSize 100 292) narrowBoard
           [StaticRebuilt 100 292]); [exact reachable_new | reflexivity].
Qed.

Lemma flatBoard_reachable : reachable flatBoard.
Proof.
  apply (@reachable_run newFretboard (OpSetSize 960 40) flatBoard
           [StaticRebuilt 960 40]); [exact reachable_new | reflexivity].
Qed.

Lemma narrowBoard_geometry : geometryIs 100 292 narrowBoard.
Proof. repeat split. Defined.

Lemma flatBoard_geometry : geometryIs 960 40 flatBoard.
Proof. repeat split. Defined.

Lemma no_board_no_frets_witness :
  contains (boardBounds narrowBoard) (mkPoint 95 60) = false
  /\ contains (boardBounds flatBoard) fifthCellPoint = false.
Proof.
  split.
  - destruct (no_board_no_frets 100 292 narrowBoard narrowBoard_geometry)
      as [H _]; [left; lia | apply H].
  - destruct (no_board_no_frets 960 40 flatBoard flatBoard_geometry)
      as [H _]; [right; lia | apply H].
Defined.

Lemma circleAround_getX (c : Point) (radius : Q) :
  getX (circleAround c radius) = x c - radius.
Proof. reflexivity. Qed.

Lemma circleAround_getRight (c : Point) (radius : Q) :
  getRight (circleAround c radius) = x c - radius + 2 * radius.
Proof. reflexivity. Qed.

(** X8: with a height of at most 52 the four open-string targets of a
    computed geometry coincide, and the scan stops at the first: a click
    plays the top string, open, or nothing. *)
Theorem flat_board_plays_top_string (wd ht : Z) (st : Fretboard)
  (p : Point) (now : Q) :
  geometryIs wd ht st -> (ht <= 52)%Z ->
  (forall s, (0 <= s <= 3)%Z ->
             contains (openCircleFor wd ht s) p
             = contains (openCircleFor wd ht 0) p)
  /\ (mouseDown p now st = Some (tt, st, [])
      \/ mouseDown p now st = triggerNote 0 0 now st).
Proof.
  intros Hg H.
  pose proof (proj1 (board_height_value wd ht) H) as Hbh.
  assert (Same : forall s, (0 <= s <= 3)%Z ->
                           contains (openCircleFor wd ht s) p
                           = contains (openCircleFor wd ht 0) p).
  { intros s Hs.
    destruct (openCircleFor_vertical wd ht s Hs) as [T B].
    destruct (openCircleFor_vertical wd ht 0 ltac:(lia)) as [T0 B0].
    cbv zeta in T, B, T0, B0. rewrite Hbh in T, B, T0, B0.
    assert (Ey : getY (openCircleFor wd ht s)
                 == getY (openCircleFor wd ht 0))
      by (rewrite T, T0; field).
    assert (Eb : getBottom (openCircleFor wd ht s)
                 == getBottom (openCircleFor wd ht 0))
      by (rewrite B, B0; field).
    assert (Ex : getX (openCircleFor wd ht s)
                 = getX (openCircleFor wd ht 0))
      by (rewrite !openCircleFor_shape, !circleAround_getX; cbn [x];
          reflexivity).
    assert (Er : getRight (openCircleFor wd ht s)
                 = getRight (openCircleFor wd ht 0))
      by (rewrite !openCircleFor_shape, !circleAround_getRight; cbn [x];
          reflexivity).
    destruct (contains (openCircleFor wd ht s) p) eqn:C1;
      destruct (contains (openCircleFor wd ht 0) p) eqn:C0;
      try reflexivity; exfalso.
    - apply contains_spec in C1. rewrite Ex, Er, Ey, Eb in C1.
      apply contains_spec in C1. congruence.
    - apply contains_spec in C0. rewrite <- Ex, <- Er, <- Ey, <- Eb in C0.
      apply contains_spec in C0. congruence. }
  split; [exact Same|].
  pose proof (board_empty wd ht st p Hg (or_intror H)) as Hb.
  destruct Hg as (_ & _ & Eo & _).
  destruct (firstContaining (openCircles st) p) as [s|] eqn:E.
  - right. rewrite (mouseDown_open st p now s E).
    destruct (firstContaining_some _ _ _ E) as (Hs & (oc & Hi & Hc) & Hmin).
    rewrite Eo in Hi, Hmin. unfold openCirclesFor in Hi, Hmin.
    rewrite index4_tabulate4 in Hi by exact Hs. injection Hi as <-.
    rewrite (Same s Hs) in Hc.
    destruct (Z.eq_dec s 0) as [-> | Hne]; [reflexivity|].
    rewrite (Hmin 0%Z (openCircleFor wd ht 0) ltac:(lia) eq_refl) in Hc.
    discriminate.
  - left. now apply mouseDown_outside.
Qed.

Lemma flat_board_plays_top_string_witness :
  mouseDown (getCentre (openCircleFor 960 40 3)) 0 flatBoard
  = Some (tt, flatBoard, [])
  \/ mouseDown (getCentre (openCircleFor 960 40 3)) 0 flatBoard
     = triggerNote 0 0 0 flatBoard.
Proof.
  apply (proj2 (flat_board_plays_top_string 960 40 flatBoard
                  (getCentre (openCircleFor 960 40 3)) 0
                  flatBoard_geometry ltac:(lia))).
Defined.

(** ** Cells and clicks *)

Lemma rowRectFor_horizontal (wd ht s : Z) :
  getX (rowRectFor wd ht s) == 90
  /\ getRight (rowRectFor wd ht s) == 90 + getWidth (boardBoundsFor wd ht).
Proof.
  pose proof (board_width_nonneg wd ht) as Hw.
  rewrite rowRectFor_shape. cbv zeta. unfold getX, getRight.
  cbn [rect pos x w].
  set (bw := getWidth (boardBoundsFor wd ht)) in *.
  destruct (jmax_cases 0 (bw + - 0 * 2)) as [[A ->] | [A ->]]; split; lra.
Qed.

(** A point of the cell of string [s] and fret [f] of a computed geometry,
    clear of the fret lines on either side: how [mouseDown] resolves it. *)
Lemma cell_point (wd ht s f : Z) (st : Fretboard) (cell : Rectangle)
  (p : Point) :
  geometryIs wd ht st -> (0 <= s <= 3)%Z -> (1 <= f <= 12)%Z ->
  cellRect st s f = Some cell -> contains cell p = true ->
  clearOfSides cell p ->
  firstContaining (openCircles st) p = None
  /\ contains (boardBounds st) p = true
  /\ firstContaining (rowRects st) p = Some s
  /\ fretAt st p = f.
Proof.
  intros Hg Hs Hf Hcell Hin Hclear.
  pose proof Hg as (Eb & Er & Eo & _).
  unfold cellRect in Hcell. rewrite Er, Eb in Hcell.
  unfold rowRectsFor in Hcell. rewrite index4_tabulate4 in Hcell by exact Hs.
  pose proof (board_width_nonneg wd ht) as Hw.
  assert (Bx : getX (boardBoundsFor wd ht) = 90) by reflexivity.
  rewrite Bx in Hcell.
  destruct (rowRectFor_horizontal wd ht s) as [Rx Rr].
  remember (getWidth (boardBoundsFor wd ht)) as bw eqn:Ebw.
  remember (rowRectFor wd ht s) as R eqn:ER.
  injection Hcell as <-.
  apply cell_contains in Hin. apply cell_clearOfSides in Hclear.
  change (inject_Z kNumFrets) with 12 in Hin, Hclear.
  destruct Hin as (X1 & X2 & Y1 & Y2). destruct Hclear as (C1 & C2).
  assert (Hbw : bw == 12 * (bw / 12)) by field.
  set (cw := bw / 12) in *.
  set (k := inject_Z (f - 1)) in *.
  assert (Hc : 0 < cw) by lra.
  assert (K0 : 0 <= k).
  { unfold k. change 0 with (inject_Z 0). rewrite <- Zle_Qle. lia. }
  assert (K11 : k <= 11).
  { unfold k. change 11 with (inject_Z 11). rewrite <- Zle_Qle. lia. }
  assert (P0 : 0 <= k * cw) by (apply Qmult_le_0_compat; lra).
  assert (P11 : k * cw <= 11 * cw)
    by (apply Qmult_le_compat_r; lra).
  assert (Hrow : contains R p = true).
  { apply contains_spec. repeat split; try assumption; lra. }
  subst R.
  assert (Hboard : contains (boardBoundsFor wd ht) p = true)
    by (apply (row_inside_board wd ht s p); assumption).
  rewrite Eo, Er.
  split.
  { apply openCircles_miss_right_of_nut.
    now apply (board_contains_x wd ht). }
  split; [rewrite Eb; exact Hboard|].
  split; [now apply firstContaining_row|].
  apply (fretAt_in_cell wd ht f st p Hg); [now rewrite Eb | exact Hf | |];
    rewrite Eb, Bx, <- Ebw; fold cw; fold k; assumption.
Qed.

(** X9: in a computed geometry a click in the cell of string [s] and fret
    [f], for any of the 4 x 12 cells, plays [(s, f)] when it keeps a
    thousandth of the cell's width away from the fret lines on its left
    and on its right. *)
Theorem click_in_cell (wd ht s f : Z) (st : Fretboard) (cell : Rectangle)
  (p : Point) (now : Q) :
  geometryIs wd ht st -> (0 <= s <= 3)%Z -> (1 <= f <= 12)%Z ->
  cellRect st s f = Some cell -> contains cell p = true ->
  clearOfSides cell p ->
  mouseDown p now st = triggerNote s f now st.
Proof.
  intros Hg Hs Hf Hcell Hin Hclear.
  destruct (cell_point wd ht s f st cell p Hg Hs Hf Hcell Hin Hclear)
    as (H1 & H2 & H3 & H4).
  rewrite (mouseDown_fret st p now s H1 H2 H3), H4. reflexivity.
Qed.

Lemma click_in_cell_witness :
  mouseDown (mkPoint 900 250) 0 editorBoard = triggerNote 3 12 0 editorBoard.
Proof.
  apply (click_in_cell 960 292 3 12 editorBoard
           (setWidth
              (setX (rowRectFor 960 292 3)
                    (getX (boardBoundsFor 960 292)
                     + inject_Z (12 - 1)
                       * (getWidth (boardBoundsFor 960 292)
                          / inject_Z kNumFrets)))
              (getWidth (boardBoundsFor 960 292) / inject_Z kNumFrets))).
  - exact editorBoard_geometry.
  - lia.
  - lia.
  - reflexivity.
  - vm_compute. reflexivity.
  - split; apply Qle_bool_iff; vm_compute; reflexivity.
Defined.

Lemma cell_nearlyContains_intro (R : Rectangle) (bx cw : Q) (n : Z)
  (p : Point) :
  bx + inject_Z n * cw - cw * (1 # 1000) <= x p ->
  x p < bx + inject_Z n * cw + cw + cw * (1 # 1000) ->
  getY R <= y p -> y p < getBottom R ->
  nearlyContains (setWidth (setX R (bx + inject_Z n * cw)) cw) p.
Proof.
  intros X1 X2 Y1 Y2.
  unfold nearlyContains, getX, getY, getRight, getBottom, getWidth in *.
  cbn [setWidth setX rect pos x y w h]. tauto.
Qed.

(** X10: in a computed geometry a click in a row plays the string of that
    row, at a fret whose cell contains the click or ends within a
    thousandth of a cell width of it: the cells of a row leave no gap, and
    a click is not taken to a fret further away. *)
Theorem click_in_row (wd ht s : Z) (st : Fretboard) (p : Point) (now : Q) :
  geometryIs wd ht st -> (0 <= s <= 3)%Z ->
  contains (rowRectFor wd ht s) p = true ->
  (1 <= fretAt st p <= 12)%Z
  /\ mouseDown p now st = triggerNote s (fretAt st p) now st
  /\ exists cell, cellRect st s (fretAt st p) = Some cell
                  /\ nearlyContains cell p.
Proof.
  intros Hg Hs Hrow.
  pose proof Hg as (Eb & Er & Eo & Erad).
  assert (Hboard : contains (boardBounds st) p = true)
    by (rewrite Eb; now apply (row_inside_board wd ht s p)).
  destruct (fretAt_near_cell wd ht st p Hg Hboard) as (Hrange & L & U).
  split; [exact Hrange|].
  split.
  { apply mouseDown_fret; [| exact Hboard |].
    - rewrite Eo. apply openCircles_miss_right_of_nut.
      apply (board_contains_x wd ht). now rewrite <- Eb.
    - rewrite Er. now apply firstContaining_row. }
  unfold cellRect. rewrite Er. unfold rowRectsFor.
  rewrite index4_tabulate4 by exact Hs.
  eexists. split; [reflexivity|].
  apply contains_spec in Hrow. destruct Hrow as (_ & Y1 & _ & Y2).
  change (inject_Z kNumFrets) with 12.
  set (f := fretAt st p) in *. clearbody f.
  set (bx := getX (boardBounds st)) in *.
  set (cw := getWidth (boardBounds st) / 12) in *.
  clearbody bx cw.
  apply cell_nearlyContains_intro; assumption || lra.
Qed.

Lemma click_in_row_witness :
  mouseDown fifthCellPoint 0 editorBoard
  = triggerNote 0 (fretAt editorBoard fifthCellPoint) 0 editorBoard.
Proof.
  destruct (click_in_row 960 292 0 editorBoard fifthCellPoint 0
              editorBoard_geometry) as (_ & H & _).
  - lia.
  - vm_compute. reflexivity.
  - exact H.
Defined.

(** ** Where a highlight is put *)

Lemma centre_of_cell (st : Fretboard) (s f : Z) (c : Point)
  (cell : Rectangle) :
  f <> 0%Z ->
  centerFor st s f = Some c -> cellRect st s f = Some cell ->
  x c == x (getCentre cell) /\ y c == y (getCentre cell)
  /\ (0 < w cell -> 0 < h cell -> contains cell c = true).
Proof.
  intros Hf Hc Hcell. unfold centerFor in Hc. unfold cellRect in Hcell.
  destruct (f =? 0)%Z eqn:E; [apply Z.eqb_eq in E; contradiction|].
  destruct (index4 (rowRects st) s) as [row|]; [|discriminate].
  cbn [option_map] in Hc. injection Hc as <-. injection Hcell as <-.
  change (inject_Z kNumFrets) with 12.
  unfold getCentre, getCentreY, getX, getWidth.
  cbn [setWidth setX rect pos x y w h].
  assert (K : inject_Z (f - 1) == inject_Z f - 1).
  { unfold Z.sub. rewrite inject_Z_plus. reflexivity. }
  set (bx := x (pos (boardBounds st))).
  set (cw := w (boardBounds st) / 12).
  assert (Ex : bx + (inject_Z f - (1 # 2)) * cw
               == bx + inject_Z (f - 1) * cw + cw / 2)
    by (rewrite K; field).
  split; [exact Ex|]. split; [reflexivity|].
  intros Hw Hh. fold cw in Hw. apply contains_spec.
  unfold getX, getY, getRight, getBottom. cbn [rect pos x y w h].
  rewrite Ex.
  assert (H2 : cw / 2 == cw * (1 # 2)) by field.
  assert (H3 : h row / 2 == h row * (1 # 2)) by field.
  rewrite H2, H3. cbn [setWidth setX rect pos x y w h].
  repeat split; lra.
Qed.

(** X11: the highlight of a fretted position is centred on the cell of that
    position, and lies in it when the cell is not empty. *)
Theorem highlight_centred_on_cell (st : Fretboard) (s f : Z) (now : Q) :
  (0 <= s <= 3)%Z -> (1 <= f <= 12)%Z ->
  exists st' evs a cell,
    triggerNote s f now st = Some (tt, st', evs)
    /\ active st' = active st ++ [a]
    /\ cellRect st' s f = Some cell
    /\ x (center a) == x (getCentre cell)
    /\ y (center a) == y (getCentre cell)
    /\ (0 < w cell -> 0 < h cell -> contains cell (center a) = true).
Proof.
  intros Hs Hf.
  destruct (triggerNote_in_range st s f now Hs ltac:(lia))
    as (name & c & _ & _ & Ec & E).
  assert (Hcell : exists cell, cellRect (ensured st) s f = Some cell).
  { unfold cellRect.
    destruct (index4_defined (rowRects (ensured st)) s Hs) as (row & ->).
    eexists. reflexivity. }
  destruct Hcell as (cell & Hcell).
  destruct (centre_of_cell (ensured st) s f c cell ltac:(lia) Ec Hcell)
    as (Cx & Cy & Cin).
  eexists. eexists. eexists. exists cell.
  split; [exact E|].
  split; [cbn [addActive setActive active]; now rewrite active_ensured|].
  split; [exact Hcell|].
  split; [exact Cx|]. split; [exact Cy | exact Cin].
Qed.

Lemma highlight_centred_on_cell_witness :
  exists st' evs a cell,
    triggerNote 2 7 0 editorBoard = Some (tt, st', evs)
    /\ cellRect st' 2 7 = Some cell
    /\ x (center a) == x (getCentre cell).
Proof.
  destruct (highlight_centred_on_cell editorBoard 2 7 0)
    as (st' & evs & a & cell & H1 & _ & H3 & H4 & _); [lia | lia |].
  exists st', evs, a, cell. repeat split; assumption.
Defined.

Lemma jlimitZ_range (lo hi v : Z) :
  (lo <= hi)%Z -> (lo <= jlimitZ lo hi v <= hi)%Z.
Proof.
  intro H. unfold jlimitZ.
  destruct (v <? lo)%Z eqn:E1; [lia | apply Z.ltb_ge in E1].
  destruct (hi <? v)%Z eqn:E2; [lia | apply Z.ltb_ge in E2]. lia.
Qed.

Lemma triggerNote_appends (st : Fretboard) (s f : Z) (now : Q) :
  (0 <= s <= 3)%Z -> (0 <= f <= 12)%Z ->
  exists st' evs a,
    triggerNote s f now st = Some (tt, st', evs)
    /\ active st' = active st ++ [a]
    /\ stringIdx a = s /\ fretIdx a = f /\ t0 a = now.
Proof.
  intros Hs Hf.
  destruct (triggerNote_in_range st s f now Hs Hf)
    as (name & c & _ & _ & _ & E).
  eexists. eexists. eexists. split; [exact E|].
  split; [cbn [addActive setActive active]; now rewrite active_ensured|].
  repeat split.
Qed.

(** X12: [mouseDown] never reads outside an array, whatever the geometry;
    it leaves the component alone or appends one highlight, started at the
    time of the click, for a string in 0..3 and a fret in 0..12. *)
Theorem mouseDown_plays_at_most_one (st : Fretboard) (p : Point) (now : Q) :
  exists st' evs,
    mouseDown p now st = Some (tt, st', evs)
    /\ ((st' = st /\ evs = [])
        \/ exists a, active st' = active st ++ [a]
                     /\ (0 <= stringIdx a <= 3)%Z
                     /\ (0 <= fretIdx a <= 12)%Z
                     /\ t0 a = now).
Proof.
  unfold mouseDown. rewrite bind_get.
  destruct (firstContaining (openCircles st) p) as [s|] eqn:Eo.
  - pose proof (proj1 (firstContaining_some _ _ _ Eo)) as Hs.
    destruct (triggerNote_appends st s 0 now Hs ltac:(lia))
      as (st' & evs & a & E & Ha & As & Af & At).
    exists st', evs. split; [exact E|]. right. exists a.
    rewrite As, Af. repeat split; try assumption; lia.
  - destruct (negb (contains (boardBounds st) p)).
    { exists st, []. split; [reflexivity | now left]. }
    destruct (firstContaining (rowRects st) p) as [s|] eqn:Er.
    + pose proof (proj1 (firstContaining_some _ _ _ Er)) as Hs.
      cbv zeta.
      match goal with
      | |- context [triggerNote s (jlimitZ 1 kNumFrets ?v) now st] =>
          pose proof (jlimitZ_range 1 12 v ltac:(lia)) as Hf;
          change (jlimitZ 1 kNumFrets v) with (jlimitZ 1 12 v);
          set (f := jlimitZ 1 12 v) in *
      end.
      destruct (triggerNote_appends st s f now Hs ltac:(lia))
        as (st' & evs & a & E & Ha & As & Af & At).
      exists st', evs. split; [exact E|]. right. exists a.
      rewrite As, Af. repeat split; try assumption; lia.
    + exists st, []. split; [reflexivity | now left].
Qed.

(** X13: for a point inside the board of a computed geometry the fret
    index before the clamp, [floor (xRel / cw) + 1] with the quotient of
    single precision, lies in 1..13: the lower bound of [jlimit] never
    acts, and the upper bound only turns a 13 into 12.  It leaves alone
    every point that keeps a thousandth of a cell away from the right edge
    of the board, and it does act next to that edge: at the width 1000 the
    last [float] below the right edge, 974, gives 13. *)
Theorem fret_index_within_range :
  (forall wd ht st p,
      geometryIs wd ht st -> contains (boardBounds st) p = true ->
      (1 <= Qfloor (fretQuotient st p) + 1 <= 13)%Z
      /\ (x p <= getRight (boardBounds st)
                 - getWidth (boardBounds st) / 12 * (1 # 1000) ->
          jlimitZ 1 12 (Qfloor (fretQuotient st p) + 1)
          = (Qfloor (fretQuotient st p) + 1)%Z))
  /\ (contains (boardBounds wideBoard) lastBeforeRightEdge = true
      /\ (Qfloor (fretQuotient wideBoard lastBeforeRightEdge) + 1 = 13)%Z
      /\ fretAt wideBoard lastBeforeRightEdge = 12%Z).
Proof.
  split.
  - intros wd ht st p Hg H.
    destruct (rawFret_range wd ht st p Hg H) as [R M].
    split; [exact R|]. intro Hx. specialize (M Hx).
    unfold jlimitZ.
    destruct (Qfloor (fretQuotient st p) + 1 <? 1)%Z eqn:E1;
      [apply Z.ltb_lt in E1; lia|].
    destruct (12 <? Qfloor (fretQuotient st p) + 1)%Z eqn:E2;
      [apply Z.ltb_lt in E2; lia|].
    reflexivity.
  - split; [|split]; vm_compute; reflexivity.
Qed.

Lemma fret_index_within_range_witness :
  (1 <= Qfloor (fretQuotient editorBoard fifthCellPoint) + 1 <= 13)%Z
  /\ jlimitZ 1 12 (Qfloor (fretQuotient editorBoard fifthCellPoint) + 1)
     = (Qfloor (fretQuotient editorBoard fifthCellPoint) + 1)%Z.
Proof.
  destruct fret_index_within_range as [H _].
  destruct (H 960%Z 292%Z editorBoard fifthCellPoint editorBoard_geometry)
    as [R M]; [vm_compute; reflexivity|].
  split; [exact R|].
  apply M. apply Qle_bool_iff. vm_compute. reflexivity.
Defined.

Lemma expanded_covers (c : Point) (radius : Q) :
  covers (expanded (circleAround c radius) 3) (circleAround c radius).
Proof.
  intros p H. apply contains_spec in H. apply contains_spec.
  unfold expanded, expanded2, circleAround, getX, getY, getRight,
    getBottom in *.
  cbn [rect pos x y w h] in *.
  destruct H as (X1 & Y1 & X2 & Y2).
  destruct (jmax_cases 0 (2 * radius + 3 * 2)) as [[A ->] | [A ->]];
    repeat split; lra.
Qed.

(** X14: an in-range [triggerNote] asks for one repaint, of the bounds of
    the new highlight, and these contain the circle that [paint] draws for
    it at the radius in force. *)
Theorem triggerNote_repaint_covers_circle (st : Fretboard) (s f : Z)
  (now : Q) :
  (0 <= s <= 3)%Z -> (0 <= f <= 12)%Z ->
  exists st' evs a,
    triggerNote s f now st = Some (tt, st', evs)
    /\ active st' = active st ++ [a]
    /\ repaintRegions evs = [bounds a]
    /\ covers (bounds a) (circleAround (center a) (openRadius st')).
Proof.
  intros Hs Hf.
  destruct (triggerNote_in_range st s f now Hs Hf)
    as (name & c & _ & _ & _ & E).
  eexists. eexists. eexists. split; [exact E|].
  split; [cbn [addActive setActive active]; now rewrite active_ensured|].
  split.
  - unfold repaintRegions. rewrite !flat_map_app.
    assert (Z : flat_map (fun e => match e with
                                   | Repaint r => [r]
                                   | _ => []
                                   end) (ensureEffects st) = []).
    { unfold ensureEffects, rebuildEffects.
      destruct (Qle_bool (openRadius st) 0), (degenerate st); reflexivity. }
    rewrite Z. destruct (onNotePlayed st); reflexivity.
  - apply expanded_covers.
Qed.

Lemma triggerNote_repaint_covers_circle_witness :
  exists st' evs a,
    triggerNote 1 3 0 editorBoard = Some (tt, st', evs)
    /\ repaintRegions evs = [bounds a]
    /\ covers (bounds a) (circleAround (center a) (openRadius st')).
Proof.
  destruct (triggerNote_repaint_covers_circle editorBoard 1 3 0)
    as (st' & evs & a & H1 & _ & H3 & H4); [lia | lia |].
  exists st', evs, a. repeat split; assumption.
Defined.

(** ** Induction over the reachable states, by what a step does to the
    members *)

Lemma reachable_members_ind (P : Fretboard -> Prop) :
  P newFretboard ->
  (forall st wd ht, P st -> P (afterRebuild (setDims wd ht st))) ->
  (forall st, P st -> P (afterRebuild st)) ->
  (forall st b, P st -> P (setCallback b st)) ->
  (forall st now, P st ->
                  P (setActive (filter (alive now) (active st)) st)) ->
  (forall st s f now name c,
      P st -> (0 <= s <= 3)%Z -> (0 <= f <= 12)%Z ->
      centerFor st s f = Some c ->
      P (addActive (newHighlight st s f now name c) st)) ->
  forall st, reachable st -> P st.
Proof.
  intros Hnew Hsize Hreb Hcb Hpaint Hadd.
  assert (Hens : forall st, P st -> P (ensured st)).
  { intros st H. unfold ensured.
    destruct (Qle_bool (openRadius st) 0); [now apply Hreb | exact H]. }
  assert (Htrig : forall st st' s f now evs,
             triggerNote s f now st = Some (tt, st', evs) -> P st -> P st').
  { intros st st' s f now evs Hrun H.
    destruct (in_range_dec s f) as [[Hs Hf] | Hout].
    - destruct (triggerNote_in_range st s f now Hs Hf)
        as (name & c & _ & _ & Ec & E).
      rewrite E in Hrun. injection Hrun as <- _.
      apply Hadd; try assumption. now apply Hens.
    - rewrite (triggerNote_out_of_range st s f now Hout) in Hrun.
      injection Hrun as <- _. exact H. }
  induction 1 as [|st op st' evs _ IH Hrun]; [exact Hnew|].
  destruct op as [wd ht | | b | now | p now | s f now]; cbn [run] in Hrun.
  - unfold setSize in Hrun. rewrite bind_get in Hrun.
    destruct ((jmaxZ 0 wd =? width st)%Z && (jmaxZ 0 ht =? height st)%Z).
    + injection Hrun as <- _. exact IH.
    + unfold bind, modify, resized in Hrun.
      rewrite rebuildStatic_run in Hrun. injection Hrun as <- _.
      now apply Hsize.
  - unfold resized in Hrun. rewrite rebuildStatic_run in Hrun.
    injection Hrun as <- _. now apply Hreb.
  - injection Hrun as <- _. now apply Hcb.
  - rewrite paint_run in Hrun. injection Hrun as <- _.
    rewrite <- (active_refreshed st). apply Hpaint.
    unfold refreshed. destruct (staticLayerStale st);
      [now apply Hreb | exact IH].
  - unfold mouseDown in Hrun. rewrite bind_get in Hrun.
    destruct (firstContaining (openCircles st) p) as [s|].
    + exact (Htrig _ _ _ _ _ _ Hrun IH).
    + destruct (negb (contains (boardBounds st) p)).
      * injection Hrun as <- _. exact IH.
      * destruct (firstContaining (rowRects st) p) as [s|].
        -- exact (Htrig _ _ _ _ _ _ Hrun IH).
        -- injection Hrun as <- _. exact IH.
  - exact (Htrig _ _ _ _ _ _ Hrun IH).
Qed.

(** ** More on the paint pass *)

Lemma reachable_layer (st : Fretboard) :
  reachable st -> degenerate st = false ->
  layerIsFor (width st) (height st) st.
Proof.
  assert (R : forall st,
             degenerate (afterRebuild st) = false ->
             layerIsFor (width (afterRebuild st)) (height (afterRebuild st))
                        (afterRebuild st)).
  { intros st0. unfold afterRebuild.
    destruct (degenerate st0) eqn:E; [congruence | reflexivity]. }
  revert st.
  apply (reachable_members_ind
           (fun st => degenerate st = false ->
                      layerIsFor (width st) (height st) st)).
  - discriminate.
  - intros st wd ht _. apply R.
  - intros st _. apply R.
  - intros st b H. exact H.
  - intros st now H. exact H.
  - intros st s f now name c H _ _ _. exact H.
Qed.

Lemma countRebuilds_app (l1 l2 : list Effect) :
  countRebuilds (l1 ++ l2) = (countRebuilds l1 + countRebuilds l2)%nat.
Proof. unfold countRebuilds. now rewrite filter_app, length_app. Qed.

Lemma countRebuilds_draws (st : Fretboard) (now : Q) (l : list Animation) :
  countRebuilds (map (highlightDraw st now) l) = 0%nat.
Proof. induction l as [|a l IH]; [reflexivity | exact IH]. Qed.

(** X15: in a reachable state [paint] never rebuilds the static layer, and
    on a component wider and higher than 2 it blits the drawing made for
    the size the component has. *)
Theorem paint_never_rebuilds (st : Fretboard) (now : Q) :
  reachable st ->
  countRebuilds (effectsOf (paint now st)) = 0%nat
  /\ (degenerate st = false ->
      In (DrawImageAt
            (Some (mkImage (width st) (height st)
                           (staticOps (width st) (height st)))))
         (effectsOf (paint now st))).
Proof.
  intro Hr. rewrite paint_run. cbn [effectsOf].
  assert (Hstale : degenerate st = false -> staticLayerStale st = false).
  { intro Hd. pose proof (reachable_layer st Hr Hd) as L.
    unfold layerIsFor in L. unfold staticLayerStale. rewrite L.
    cbn [imageWidth imageHeight]. now rewrite !Z.eqb_refl. }
  assert (Heff : refreshEffects st = []).
  { unfold refreshEffects, rebuildEffects.
    destruct (degenerate st) eqn:Hd.
    - destruct (staticLayerStale st); reflexivity.
    - now rewrite (Hstale eq_refl). }
  rewrite Heff. split.
  - cbn [app]. unfold countRebuilds at 1. cbn [filter isStaticRebuilt].
    apply countRebuilds_draws.
  - intro Hd. right. left.
    unfold refreshed. rewrite (Hstale Hd).
    now rewrite (reachable_layer st Hr Hd).
Qed.

Lemma paint_never_rebuilds_witness :
  countRebuilds (effectsOf (paint 1 playedBoard)) = 0%nat.
Proof.
  apply (proj1 (paint_never_rebuilds playedBoard 1 playedBoard_reachable)).
Defined.

Lemma filter_idempotent {A : Type} (f : A -> bool) (l : list A) :
  filter f (filter f l) = filter f l.
Proof.
  induction l as [|a l IH]; [reflexivity|].
  simpl. destruct (f a) eqn:E; [|exact IH].
  simpl. now rewrite E, IH.
Qed.

Lemma refreshed_fixed (st : Fretboard) (l : list Animation) :
  refreshed (setActive l (refreshed st)) = setActive l (refreshed st)
  /\ refreshEffects (setActive l (refreshed st)) = [].
Proof.
  unfold refreshed, refreshEffects, afterRebuild, rebuildEffects.
  destruct (staticLayerStale st) eqn:Es.
  - destruct (degenerate st) eqn:Ed.
    + change (staticLayerStale (setActive l st)) with (staticLayerStale st).
      change (degenerate (setActive l st)) with (degenerate st).
      rewrite Es, Ed. now split.
    + assert (F : staticLayerStale
                    (setActive l (rebuilt (width st) (height st) st))
                  = false).
      { unfold staticLayerStale.
        cbn [staticLayer setActive rebuilt imageWidth imageHeight
               width height].
        now rewrite !Z.eqb_refl. }
      rewrite F. now split.
  - change (staticLayerStale (setActive l st)) with (staticLayerStale st).
    rewrite Es. now split.
Qed.

(** X16: a second [paint] at the same time changes nothing any more: it
    removes no highlight, does not rebuild, and draws what the first
    drew. *)
Theorem paint_twice (st : Fretboard) (now : Q) :
  exists st' evs,
    paint now st = Some (tt, st', evs)
    /\ evs = Draw (FillAll (Argb kPluginBg))
             :: refreshEffects st
             ++ DrawImageAt (staticLayer st')
             :: map (highlightDraw st' now) (rev (active st'))
    /\ paint now st'
       = Some (tt, st',
               Draw (FillAll (Argb kPluginBg))
               :: DrawImageAt (staticLayer st')
               :: map (highlightDraw st' now) (rev (active st'))).
Proof.
  eexists. eexists. split; [apply paint_run|].
  split; [reflexivity|].
  rewrite paint_run.
  destruct (refreshed_fixed st (filter (alive now) (active st))) as [F E].
  rewrite F, E. cbn [active setActive app].
  rewrite filter_idempotent. reflexivity.
Qed.


Lemma drawnAlphas_refresh (st : Fretboard) :
  drawnAlphas (refreshEffects st) = [].
Proof.
  unfold refreshEffects, rebuildEffects.
  destruct (staticLayerStale st), (degenerate st); reflexivity.
Qed.





(** ** The periodic tick *)

Lemma roundToInt_near (v : Q) :
  v - (1 # 2) <= inject_Z (JuceInt.roundToInt v)
  /\ inject_Z (JuceInt.roundToInt v) <= v + (1 # 2).
Proof.
  unfold JuceInt.roundToInt. cbv zeta.
  pose proof (Qfloor_le v) as F1. pose proof (Qlt_floor v) as F2.
  rewrite inject_Z_plus in F2. change (inject_Z 1) with 1 in F2.
  destruct (Qltb (v - inject_Z (Qfloor v)) (1 # 2)) eqn:E1.
  - apply Qltb_lt in E1. split; lra.
  - apply Qltb_ge in E1.
    destruct (Qltb (1 # 2) (v - inject_Z (Qfloor v))) eqn:E2.
    + rewrite inject_Z_plus. change (inject_Z 1) with 1. split; lra.
    + apply Qltb_ge in E2.
      destruct (Z.even (Qfloor v));
        [|rewrite inject_Z_plus; change (inject_Z 1) with 1]; split; lra.
Qed.

Lemma inject_Z_sub (a b : Z) : inject_Z (a - b) == inject_Z a - inject_Z b.
Proof. unfold Z.sub. rewrite inject_Z_plus, inject_Z_opp. ring. Qed.

Lemma roundToInt_at_least (v : Q) (n : Z) :
  inject_Z n <= v -> (n <= JuceInt.roundToInt v)%Z.
Proof.
  intro H. destruct (roundToInt_near v) as [L _].
  assert (S : inject_Z (n - 1) < inject_Z (JuceInt.roundToInt v)).
  { rewrite inject_Z_sub. change (inject_Z 1) with 1. lra. }
  rewrite <- Zlt_Qlt in S. lia.
Qed.

Lemma encloses_refl (b : JuceInt.IntRectangle) : encloses b b.
Proof. unfold encloses. lia. Qed.

Lemma encloses_trans (a b c : JuceInt.IntRectangle) :
  encloses a b -> encloses b c -> encloses a c.
Proof. unfold encloses. lia. Qed.

Lemma isEmpty_false (r : JuceInt.IntRectangle) :
  JuceInt.isEmpty r = false <-> (0 < JuceInt.iw r /\ 0 < JuceInt.ih r)%Z.
Proof.
  unfold JuceInt.isEmpty. rewrite orb_false_iff, !Z.leb_gt. tauto.
Qed.

Lemma getUnion_encloses (r other : JuceInt.IntRectangle) :
  JuceInt.isEmpty r = false -> JuceInt.isEmpty other = false ->
  JuceInt.isEmpty (JuceInt.getUnion r other) = false
  /\ encloses (JuceInt.getUnion r other) r
  /\ encloses (JuceInt.getUnion r other) other.
Proof.
  intros Hr Ho. unfold JuceInt.getUnion. rewrite Ho, Hr.
  apply isEmpty_false in Hr, Ho. rewrite isEmpty_false.
  unfold encloses, JuceInt.jminZ, jmaxZ.
  cbn [JuceInt.ix JuceInt.iy JuceInt.iw JuceInt.ih].
  destruct (JuceInt.ix other <? JuceInt.ix r)%Z eqn:E1;
    [apply Z.ltb_lt in E1 | apply Z.ltb_ge in E1];
    destruct (JuceInt.iy other <? JuceInt.iy r)%Z eqn:E2;
    [apply Z.ltb_lt in E2 | apply Z.ltb_ge in E2
     | apply Z.ltb_lt in E2 | apply Z.ltb_ge in E2];
    destruct (JuceInt.ix r + JuceInt.iw r
              <? JuceInt.ix other + JuceInt.iw other)%Z eqn:E3;
    try (apply Z.ltb_lt in E3); try (apply Z.ltb_ge in E3);
    destruct (JuceInt.iy r + JuceInt.ih r
              <? JuceInt.iy other + JuceInt.ih other)%Z eqn:E4;
    try (apply Z.ltb_lt in E4); try (apply Z.ltb_ge in E4);
    lia.
Qed.

Lemma roomy_rounds_nonempty (a : Animation) :
  roomy a -> JuceInt.isEmpty (JuceInt.toNearestInt (bounds a)) = false.
Proof.
  intros [Hw Hh]. apply isEmpty_false.
  cbn [JuceInt.toNearestInt JuceInt.iw JuceInt.ih].
  pose proof (roundToInt_at_least (w (bounds a)) 6 Hw).
  pose proof (roundToInt_at_least (h (bounds a)) 6 Hh). lia.
Qed.

Lemma dirtyUnion_encloses (l : list Animation) :
  Forall roomy l ->
  forall dirty,
    JuceInt.isEmpty dirty = false ->
    JuceInt.isEmpty (dirtyUnion dirty l) = false
    /\ encloses (dirtyUnion dirty l) dirty
    /\ forall a, In a l ->
                 encloses (dirtyUnion dirty l)
                          (JuceInt.toNearestInt (bounds a)).
Proof.
  induction 1 as [|a l Ha _ IH]; intros dirty Hd.
  - split; [exact Hd|]. split; [apply encloses_refl | intros a []].
  - cbn [dirtyUnion fold_left]. rewrite Hd.
    pose proof (roomy_rounds_nonempty a Ha) as Hb.
    destruct (getUnion_encloses dirty _ Hd Hb) as (U0 & U1 & U2).
    destruct (IH _ U0) as (I0 & I1 & I2).
    fold (dirtyUnion
            (JuceInt.getUnion dirty (JuceInt.toNearestInt (bounds a))) l)
      in *.
    split; [exact I0|].
    split; [exact (encloses_trans _ _ _ I1 U1)|].
    intros a' [<- | Hin]; [exact (encloses_trans _ _ _ I1 U2) | now apply I2].
Qed.

Lemma dirtyUnion_from_empty (l : list Animation) :
  Forall roomy l ->
  forall a, In a l ->
            encloses (dirtyUnion JuceInt.emptyIntRectangle l)
                     (JuceInt.toNearestInt (bounds a)).
Proof.
  intros H a Ha. destruct l as [|a0 l]; [destruct Ha|].
  cbn [dirtyUnion fold_left].
  change (JuceInt.isEmpty JuceInt.emptyIntRectangle) with true. cbv iota.
  inversion H as [|? ? H0 Hl]; subst.
  destruct (dirtyUnion_encloses l Hl _ (roomy_rounds_nonempty a0 H0))
    as (_ & I1 & I2).
  destruct Ha as [<- | Ha]; [exact I1 | now apply I2].
Qed.

Lemma expanded_encloser_covers (u : JuceInt.IntRectangle) (r : Rectangle) :
  encloses u (JuceInt.toNearestInt r) ->
  covers (JuceInt.toFloat (JuceInt.expanded u 2)) r.
Proof.
  intros (E1 & E2 & E3 & E4) p Hp.
  apply contains_spec in Hp. destruct Hp as (X1 & Y1 & X2 & Y2).
  unfold getX, getY, getRight, getBottom in *.
  cbn [JuceInt.toNearestInt JuceInt.ix JuceInt.iy JuceInt.iw JuceInt.ih]
    in E1, E2, E3, E4.
  destruct (roundToInt_near (x (pos r))) as [Ax Bx].
  destruct (roundToInt_near (y (pos r))) as [Ay By].
  destruct (roundToInt_near (w r)) as [Aw Bw].
  destruct (roundToInt_near (h r)) as [Ah Bh].
  rewrite Zle_Qle in E1, E2, E3, E4.
  rewrite !inject_Z_plus in E3, E4.
  apply contains_spec.
  unfold JuceInt.toFloat, JuceInt.expanded, getX, getY, getRight, getBottom.
  cbn [rect pos x y w h JuceInt.ix JuceInt.iy JuceInt.iw JuceInt.ih].
  assert (Mw : inject_Z (JuceInt.iw u) + 4
               <= inject_Z (jmaxZ 0 (JuceInt.iw u + 2 * 2))).
  { unfold jmaxZ. destruct (0 <? JuceInt.iw u + 2 * 2)%Z eqn:E.
    - rewrite inject_Z_plus. change (inject_Z (2 * 2)) with 4. lra.
    - apply Z.ltb_ge in E.
      assert (L : inject_Z (JuceInt.iw u + 2 * 2) <= inject_Z 0)
        by (rewrite <- Zle_Qle; exact E).
      rewrite inject_Z_plus in L. change (inject_Z (2 * 2)) with 4 in L.
      change (inject_Z 0) with 0 in *. lra. }
  assert (Mh : inject_Z (JuceInt.ih u) + 4
               <= inject_Z (jmaxZ 0 (JuceInt.ih u + 2 * 2))).
  { unfold jmaxZ. destruct (0 <? JuceInt.ih u + 2 * 2)%Z eqn:E.
    - rewrite inject_Z_plus. change (inject_Z (2 * 2)) with 4. lra.
    - apply Z.ltb_ge in E.
      assert (L : inject_Z (JuceInt.ih u + 2 * 2) <= inject_Z 0)
        by (rewrite <- Zle_Qle; exact E).
      rewrite inject_Z_plus in L. change (inject_Z (2 * 2)) with 4 in L.
      change (inject_Z 0) with 0 in *. lra. }
  rewrite !inject_Z_sub. change (inject_Z 2) with 2.
  repeat split; lra.
Qed.

Lemma reachable_roomy (st : Fretboard) :
  reachable st -> 0 <= openRadius st /\ Forall roomy (active st).
Proof.
  revert st.
  apply (reachable_members_ind
           (fun st => 0 <= openRadius st /\ Forall roomy (active st))).
  - split; [apply Qle_refl | constructor].
  - intros st wd ht [H0 H1]. unfold afterRebuild.
    destruct (degenerate (setDims wd ht st)); [now split|].
    split; [|exact H1]. cbn [openRadius rebuilt].
    pose proof (openRadiusFor_range (width (setDims wd ht st))
                  (height (setDims wd ht st))). lra.
  - intros st [H0 H1]. unfold afterRebuild.
    destruct (degenerate st); [now split|].
    split; [|exact H1]. cbn [openRadius rebuilt].
    pose proof (openRadiusFor_range (width st) (height st)). lra.
  - intros st b H. exact H.
  - intros st now [H0 H1]. split; [exact H0|].
    cbn [active setActive]. apply Forall_forall. intros a Ha.
    apply filter_In in Ha. rewrite Forall_forall in H1. now apply H1.
  - intros st s f now name c [H0 H1] _ _ _. split; [exact H0|].
    cbn [active addActive setActive]. apply Forall_app. split; [exact H1|].
    constructor; [|constructor].
    unfold roomy, newHighlight, expanded, expanded2, circleAround.
    cbn [bounds rect w h].
    destruct (jmax_cases 0 (2 * openRadius st + 3 * 2)) as [[A ->] | [A ->]];
      split; lra.
Qed.

Lemma timerCallback_run (st : Fretboard) :
  timerCallback st
  = Some (tt, st,
          match active st with
          | [] => []
          | _ => [Repaint
                    (JuceInt.toFloat
                       (JuceInt.expanded
                          (dirtyUnion JuceInt.emptyIntRectangle (active st))
                          2))]
          end).
Proof.
  unfold timerCallback. rewrite bind_get.
  destruct (active st); reflexivity.
Qed.

(** X18: while highlights are active, [timerCallback] changes nothing and
    asks for one repaint, of a region that contains the bounds of every
    active highlight. *)
Theorem timer_repaints_all_highlights (st : Fretboard) :
  reachable st -> active st <> [] ->
  exists region,
    timerCallback st = Some (tt, st, [Repaint region])
    /\ forall a, In a (active st) -> covers region (bounds a).
Proof.
  intros Hr Hne. rewrite timerCallback_run.
  destruct (active st) as [|a0 l] eqn:E; [contradiction|].
  eexists. split; [reflexivity|].
  intros a Ha. apply expanded_encloser_covers.
  apply dirtyUnion_from_empty; [|exact Ha].
  rewrite <- E. exact (proj2 (reachable_roomy st Hr)).
Qed.

Lemma timer_repaints_all_highlights_witness :
  exists region,
    timerCallback playedBoard = Some (tt, playedBoard, [Repaint region])
    /\ covers region (bounds sampleHighlight).
Proof.
  destruct (timer_repaints_all_highlights playedBoard playedBoard_reachable)
    as (region & H1 & H2).
  - discriminate.
  - exists region. split; [exact H1|]. apply H2. left. reflexivity.
Defined.

(** X19: once every highlight is 1.8 s old or older, a [paint] empties the
    active set, draws no highlight, and the next [timerCallback] asks for
    nothing. *)
Theorem fretboard_goes_idle (st : Fretboard) (now : Q) :
  reachable st ->
  (forall a, In a (active st) -> t0 a + (18 # 10) <= now) ->
  exists st' evs,
    paint now st = Some (tt, st', evs)
    /\ active st' = []
    /\ drawnAlphas evs = []
    /\ timerCallback st' = Some (tt, st', []).
Proof.
  intros Hr Hold.
  destruct (reachable_wellFormed st Hr) as (Hd & _).
  assert (F : filter (alive now) (active st) = []).
  { rewrite Forall_forall in Hd.
    induction (active st) as [|a l IH]; [reflexivity|].
    cbn [filter].
    assert (Ea : alive now a = false).
    { destruct (alive now a) eqn:E; [|reflexivity].
      apply alive_iff in E.
      - rewrite (Hd a (or_introl eq_refl)) in E.
        pose proof (Hold a (or_introl eq_refl)). lra.
      - rewrite (Hd a (or_introl eq_refl)). reflexivity. }
    rewrite Ea. apply IH.
    - intros a' Ha'. apply Hold. now right.
    - intros a' Ha'. apply Hd. now right. }
  eexists. eexists. split; [apply paint_run|].
  rewrite F. cbn [active setActive rev map].
  split; [reflexivity|]. split.
  - change (Draw (FillAll (Argb kPluginBg)) :: ?l)
      with ([Draw (FillAll (Argb kPluginBg))] ++ l).
    unfold drawnAlphas. rewrite !flat_map_app. cbn [flat_map app].
    fold (drawnAlphas (refreshEffects st)).
    now rewrite drawnAlphas_refresh.
  - rewrite timerCallback_run. reflexivity.
Qed.

Lemma fretboard_goes_idle_witness :
  exists st' evs,
    paint 2 playedBoard = Some (tt, st', evs) /\ active st' = [].
Proof.
  destruct (fretboard_goes_idle playedBoard 2 playedBoard_reachable)
    as (st' & evs & H1 & H2 & _).
  - intros a [<- | []]. vm_compute. discriminate.
  - exists st', evs. split; assumption.
Defined.

(** ** The editor window *)

Lemma newPluginEditor_run :
  newPluginEditor
  = Some (mkPluginEditor 980 340 editorBoard
                         "Click a fret or an open circle",
          [StaticRebuilt 960 292]).
Proof. reflexivity. Qed.

Lemma fretboardArea_value (edW edH : Z) :
  fretboardArea edW edH
  = JuceInt.mkIntRectangle 10 (10 + Z.min 28 (Z.max 0 (edH - 20)))
      (Z.max 0 (edW - 20)) (Z.max 0 (edH - 48)).
Proof.
  unfold fretboardArea, JuceInt.removeFromTop, JuceInt.reduced,
    JuceInt.expanded, JuceInt.jminZ, jmaxZ.
  cbn [snd JuceInt.ix JuceInt.iy JuceInt.iw JuceInt.ih].
  repeat match goal with
         | |- context [(?a <? ?b)%Z] =>
             let E := fresh "E" in
             destruct (a <? b)%Z eqn:E;
               [apply Z.ltb_lt in E | apply Z.ltb_ge in E]
         end;
    f_equal; lia.
Qed.

Lemma setSize_run (st : Fretboard) (wd ht : Z) :
  (0 <= wd)%Z -> (0 <= ht)%Z ->
  setSize wd ht st
  = if (wd =? width st)%Z && (ht =? height st)%Z
    then Some (tt, st, [])
    else Some (tt, afterRebuild (setDims wd ht st),
               rebuildEffects (setDims wd ht st)).
Proof.
  intros Hw Hh. unfold setSize. rewrite bind_get.
  rewrite (jmaxZ_nonneg wd Hw), (jmaxZ_nonneg ht Hh).
  destruct ((wd =? width st)%Z && (ht =? height st)%Z); [reflexivity|].
  unfold bind, modify, resized. rewrite rebuildStatic_run. reflexivity.
Qed.

(** X20: [PluginEditor::resized] gives the fretboard the window less 10 on
    each side and 28 more at the top.  In a window wider than 22 and
    higher than 50 the fretboard then has the geometry and the static layer
    of that size; in a smaller window its geometry and layer stay as they
    were.  The label is not touched. *)
Theorem editor_lays_out_fretboard (ed : PluginEditor) :
  reachable (fretboard ed) ->
  (0 <= editorWidth ed)%Z -> (0 <= editorHeight ed)%Z ->
  exists ed' evs,
    editorResized ed = Some (ed', evs)
    /\ lastNoteLabel ed' = lastNoteLabel ed
    /\ width (fretboard ed') = Z.max 0 (editorWidth ed - 20)
    /\ height (fretboard ed') = Z.max 0 (editorHeight ed - 48)
    /\ ((22 < editorWidth ed)%Z -> (50 < editorHeight ed)%Z ->
        geometryIs (editorWidth ed - 20) (editorHeight ed - 48)
                   (fretboard ed')
        /\ layerIsFor (editorWidth ed - 20) (editorHeight ed - 48)
                      (fretboard ed'))
    /\ ((editorWidth ed <= 22)%Z \/ (editorHeight ed <= 50)%Z ->
        evs = []
        /\ boardBounds (fretboard ed') = boardBounds (fretboard ed)
        /\ rowRects (fretboard ed') = rowRects (fretboard ed)
        /\ openCircles (fretboard ed') = openCircles (fretboard ed)
        /\ openRadius (fretboard ed') = openRadius (fretboard ed)
        /\ staticLayer (fretboard ed') = staticLayer (fretboard ed)).
Proof.
  intros Hr HW HH. unfold editorResized, onFretboard.
  rewrite fretboardArea_value. cbn [JuceInt.iw JuceInt.ih].
  set (wd := Z.max 0 (editorWidth ed - 20)).
  set (ht := Z.max 0 (editorHeight ed - 48)).
  rewrite (setSize_run (fretboard ed) wd ht) by (unfold wd, ht; lia).
  destruct ((wd =? width (fretboard ed))%Z
            && (ht =? height (fretboard ed))%Z) eqn:Esame.
  - apply andb_true_iff in Esame. destruct Esame as [Ew Eh].
    apply Z.eqb_eq in Ew, Eh.
    eexists. eexists. split; [reflexivity|].
    cbn [lastNoteLabel fretboard labelAfter fold_left].
    split; [reflexivity|]. split; [now rewrite Ew|].
    split; [now rewrite Eh|]. split.
    + intros H1 H2.
      assert (Hd : degenerate (fretboard ed) = false).
      { unfold degenerate. rewrite <- Ew, <- Eh. unfold wd, ht.
        apply orb_false_iff. split; apply Z.leb_gt; lia. }
      replace (editorWidth ed - 20)%Z with (width (fretboard ed))
        by (rewrite <- Ew; unfold wd; lia).
      replace (editorHeight ed - 48)%Z with (height (fretboard ed))
        by (rewrite <- Eh; unfold ht; lia).
      split.
      * exact (proj1 (proj2 (reachable_wellFormed _ Hr)) Hd).
      * exact (reachable_layer _ Hr Hd).
    + intros _. repeat split.
  - eexists. eexists. split; [reflexivity|].
    cbn [lastNoteLabel fretboard].
    assert (Hlab : forall l, labelAfter
                               (rebuildEffects
                                  (setDims wd ht (fretboard ed))) l = l).
    { intro l. unfold rebuildEffects.
      destruct (degenerate (setDims wd ht (fretboard ed))); reflexivity. }
    split; [apply Hlab|].
    unfold afterRebuild, rebuildEffects.
    change (degenerate (setDims wd ht (fretboard ed)))
      with ((wd <=? 2)%Z || (ht <=? 2)%Z).
    destruct ((wd <=? 2)%Z || (ht <=? 2)%Z) eqn:Ed.
    + split; [reflexivity|]. split; [reflexivity|]. split.
      * intros H1 H2. exfalso.
        apply orb_true_iff in Ed. unfold wd, ht in Ed.
        destruct Ed as [Ed | Ed]; apply Z.leb_le in Ed; lia.
      * intros _. repeat split.
    + split; [reflexivity|]. split; [reflexivity|]. split.
      * intros H1 H2.
        replace (editorWidth ed - 20)%Z with wd by (unfold wd; lia).
        replace (editorHeight ed - 48)%Z with ht by (unfold ht; lia).
        split; [repeat split | reflexivity].
      * intros H. exfalso.
        apply orb_false_iff in Ed. destruct Ed as [E1 E2].
        apply Z.leb_gt in E1, E2. unfold wd, ht in E1, E2. lia.
Qed.

Lemma editor_lays_out_fretboard_witness :
  exists ed' evs,
    editorResized
      (mkPluginEditor 980 340 (setCallback true newFretboard)
                      "Click a fret or an open circle")
    = Some (ed', evs)
    /\ geometryIs 960 292 (fretboard ed').
Proof.
  destruct (editor_lays_out_fretboard
              (mkPluginEditor 980 340 (setCallback true newFretboard)
                              "Click a fret or an open circle"))
    as (ed' & evs & H1 & _ & _ & _ & H5 & _).
  - apply (@reachable_run newFretboard (OpSetCallback true)
             (setCallback true newFretboard) []);
      [exact reachable_new | reflexivity].
  - cbn. lia.
  - cbn. lia.
  - exists ed', evs. split; [exact H1|].
    apply (H5 ltac:(cbn; lia) ltac:(cbn; lia)).
Defined.

Lemma labelAfter_app (l1 l2 : list Effect) (old : string) :
  labelAfter (l1 ++ l2) old = labelAfter l2 (labelAfter l1 old).
Proof. unfold labelAfter. apply fold_left_app. Qed.

Lemma labelAfter_refresh (st : Fretboard) (old : string) :
  labelAfter (refreshEffects st) old = old.
Proof.
  unfold refreshEffects, rebuildEffects.
  destruct (staticLayerStale st), (degenerate st); reflexivity.
Qed.

Lemma labelAfter_draws (st : Fretboard) (now : Q) (l : list Animation)
  (old : string) :
  labelAfter (map (highlightDraw st now) l) old = old.
Proof. induction l as [|a l IH]; [reflexivity | exact IH]. Qed.

Lemma labelAfter_rebuilds (pre : list Effect) (old : string) :
  Forall (fun e => isStaticRebuilt e = true) pre ->
  labelAfter pre old = old.
Proof.
  induction 1 as [|e l He _ IH]; [reflexivity|].
  destruct e; try discriminate. exact IH.
Qed.

Lemma labelAfter_trigger (pre : list Effect) (name : string) (a : Animation)
  (old : string) :
  Forall (fun e => isStaticRebuilt e = true) pre ->
  labelAfter (pre ++ [NotePlayed name] ++ [HighlightAdded a;
                                           Repaint (bounds a)]) old
  = noteLabelText name.
Proof.
  intro H. rewrite labelAfter_app, (labelAfter_rebuilds pre old H).
  reflexivity.
Qed.

Lemma triggerNote_label (st : Fretboard) (s f : Z) (now : Q) :
  onNotePlayed st = true ->
  exists st' evs,
    triggerNote s f now st = Some (tt, st', evs)
    /\ ((st' = st /\ evs = [])
        \/ exists a, active st' = active st ++ [a]
                     /\ forall old,
                          labelAfter evs old = noteLabelText (noteName a)).
Proof.
  intro Hcb.
  destruct (in_range_dec s f) as [[Hs Hf] | Hout].
  - destruct (triggerNote_in_range st s f now Hs Hf)
      as (name & c & _ & _ & _ & E).
    rewrite Hcb in E.
    eexists. eexists. split; [exact E|]. right.
    eexists. split.
    + cbn [addActive setActive active]. now rewrite active_ensured.
    + intro old. apply labelAfter_trigger. apply ensureEffects_rebuilds.
  - eexists. eexists.
    split; [apply (triggerNote_out_of_range st s f now Hout)|].
    left. now split.
Qed.

Lemma onFretboard_label (m : M unit) (ed : PluginEditor) :
  (exists st' evs,
      m (fretboard ed) = Some (tt, st', evs)
      /\ ((st' = fretboard ed /\ evs = [])
          \/ exists a, active st' = active (fretboard ed) ++ [a]
                       /\ forall old,
                            labelAfter evs old
                            = noteLabelText (noteName a))) ->
  exists ed' evs,
    onFretboard m ed = Some (ed', evs)
    /\ (ed' = ed
        \/ exists a,
             active (fretboard ed') = active (fretboard ed) ++ [a]
             /\ lastNoteLabel ed' = noteLabelText (noteName a)).
Proof.
  intros (st' & evs & E & H). unfold onFretboard. rewrite E.
  eexists. eexists. split; [reflexivity|].
  destruct H as [[-> ->] | (a & Ha & Hl)].
  - left. destruct ed; reflexivity.
  - right. exists a. cbn [fretboard lastNoteLabel]. split; [exact Ha|].
    apply Hl.
Qed.

(** X21: with the callback of the editor registered, a trigger or a click
    that plays a note leaves "Note: " and the name of the new highlight in
    the label; one that plays nothing leaves the editor as it was, and so
    does the label stay through a [paint]. *)
Theorem label_shows_last_note (ed : PluginEditor) :
  onNotePlayed (fretboard ed) = true ->
  (forall s f now,
      exists ed' evs,
        onFretboard (triggerNote s f now) ed = Some (ed', evs)
        /\ (ed' = ed
            \/ exists a,
                 active (fretboard ed') = active (fretboard ed) ++ [a]
                 /\ lastNoteLabel ed' = noteLabelText (noteName a)))
  /\ (forall p now,
         exists ed' evs,
           onFretboard (mouseDown p now) ed = Some (ed', evs)
           /\ (ed' = ed
               \/ exists a,
                    active (fretboard ed') = active (fretboard ed) ++ [a]
                    /\ lastNoteLabel ed' = noteLabelText (noteName a)))
  /\ (forall now,
         exists ed' evs,
           onFretboard (paint now) ed = Some (ed', evs)
           /\ lastNoteLabel ed' = lastNoteLabel ed).
Proof.
  intro Hcb. split; [|split].
  - intros s f now. apply onFretboard_label.
    now apply triggerNote_label.
  - intros p now. apply onFretboard_label.
    unfold mouseDown. rewrite bind_get.
    destruct (firstContaining (openCircles (fretboard ed)) p) as [s|].
    { now apply triggerNote_label. }
    destruct (negb (contains (boardBounds (fretboard ed)) p)).
    { eexists. eexists. split; [reflexivity | left; now split]. }
    destruct (firstContaining (rowRects (fretboard ed)) p) as [s|].
    { now apply triggerNote_label. }
    eexists. eexists. split; [reflexivity | left; now split].
  - intro now. unfold onFretboard. rewrite paint_run.
    eexists. eexists. split; [reflexivity|].
    cbn [lastNoteLabel].
    change (labelAfter (Draw (FillAll (Argb kPluginBg)) :: ?l) ?x)
      with (labelAfter l x).
    rewrite labelAfter_app, labelAfter_refresh.
    change (labelAfter (DrawImageAt ?i :: ?l) ?x) with (labelAfter l x).
    apply labelAfter_draws.
Qed.

Lemma label_shows_last_note_witness :
  exists ed' evs,
    onFretboard (triggerNote 3 1 0)
      (mkPluginEditor 980 340 editorBoard "Click a fret or an open circle")
    = Some (ed', evs)
    /\ lastNoteLabel ed' = "Note: F1"%string.
Proof.
  destruct (label_shows_last_note
              (mkPluginEditor 980 340 editorBoard
                              "Click a fret or an open circle") eq_refl)
    as (H & _).
  destruct (H 3%Z 1%Z 0) as (ed' & evs & E & _).
  exists ed', evs. split; [exact E|].
  vm_compute in E. injection E as <- _. reflexivity.
Defined.

(** ** Highlights and the geometry *)

Lemma paint_draws_alive (st : Fretboard) (now : Q) :
  exists st' evs,
    paint now st = Some (tt, st', evs)
    /\ forall a, alive now a = true -> In a (active st) ->
                 In (Draw (FillEllipse
                             (WithAlpha kHighlightBB
                                        (fadeAlpha (lifeFraction a now)))
                             (circleAround (center a) (openRadius st'))))
                    evs.
Proof.
  eexists. eexists. split; [apply paint_run|].
  intros a Hal Ha. right. apply in_or_app. right. right.
  apply in_map_iff. exists a. split; [reflexivity|].
  apply -> in_rev. apply filter_In. now split.
Qed.

(** X22: a resize keeps the active highlights as they are, start time,
    center and bounds included: they are not moved to the new geometry,
    and the next [paint] draws those still alive around their old
    centers. *)
Theorem resize_keeps_highlights (st : Fretboard) (wd ht : Z) (now : Q) :
  exists st1 evs1 st2 evs2,
    setSize wd ht st = Some (tt, st1, evs1)
    /\ active st1 = active st
    /\ onNotePlayed st1 = onNotePlayed st
    /\ paint now st1 = Some (tt, st2, evs2)
    /\ forall a, alive now a = true -> In a (active st) ->
                 In (Draw (FillEllipse
                             (WithAlpha kHighlightBB
                                        (fadeAlpha (lifeFraction a now)))
                             (circleAround (center a) (openRadius st2))))
                    evs2.
Proof.
  assert (S : exists st1 evs1,
             setSize wd ht st = Some (tt, st1, evs1)
             /\ active st1 = active st
             /\ onNotePlayed st1 = onNotePlayed st).
  { unfold setSize. rewrite bind_get.
    destruct ((jmaxZ 0 wd =? width st)%Z && (jmaxZ 0 ht =? height st)%Z).
    - exists st, []. repeat split.
    - unfold bind, modify, resized. rewrite rebuildStatic_run.
      eexists. eexists. split; [reflexivity|].
      unfold afterRebuild.
      destruct (degenerate (setDims (jmaxZ 0 wd) (jmaxZ 0 ht) st));
        split; reflexivity. }
  destruct S as (st1 & evs1 & E1 & Ha & Hc).
  destruct (paint_draws_alive st1 now) as (st2 & evs2 & E2 & Hd).
  exists st1, evs1, st2, evs2.
  split; [exact E1|]. split; [exact Ha|]. split; [exact Hc|].
  split; [exact E2|]. intros a Hal Hin. apply Hd; [exact Hal|].
  now rewrite Ha.
Qed.

Lemma resize_keeps_highlights_witness :
  exists st1 evs1,
    setSize 600 200 playedBoard = Some (tt, st1, evs1)
    /\ active st1 = [sampleHighlight].
Proof.
  destruct (resize_keeps_highlights playedBoard 600 200 1)
    as (st1 & evs1 & _ & _ & H1 & H2 & _).
  exists st1, evs1. split; [exact H1 | exact H2].
Defined.

(** X23: in a reachable state the highlight of an open string has the
    square of the open-string target of that string: same corner, same
    size. *)
Theorem open_highlight_overlays_target (st : Fretboard) (s : Z) (now : Q) :
  reachable st -> (0 <= s <= 3)%Z ->
  exists st' evs a oc,
    triggerNote s 0 now st = Some (tt, st', evs)
    /\ active st' = active st ++ [a]
    /\ index4 (openCircles st') s = Some oc
    /\ getX (circleAround (center a) (openRadius st')) == getX oc
    /\ getY (circleAround (center a) (openRadius st')) == getY oc
    /\ w (circleAround (center a) (openRadius st')) == w oc
    /\ h (circleAround (center a) (openRadius st')) == h oc.
Proof.
  intros Hr Hs.
  destruct (triggerNote_in_range st s 0 now Hs ltac:(lia))
    as (name & c & _ & _ & Ec & E).
  destruct (wellFormed_ensured st (reachable_wellFormed st Hr))
    as (_ & _ & _ & Hfit).
  unfold centerFor in Ec. cbn [Z.eqb] in Ec.
  destruct (index4 (openCircles (ensured st)) s) as [oc|] eqn:Ei;
    [|discriminate].
  cbn [option_map] in Ec. injection Ec as <-.
  destruct (Hfit s oc Ei) as (c1 & ->).
  destruct (circleAround_centre c1 (openRadius (ensured st))) as [Cx Cy].
  eexists. eexists. eexists. eexists.
  split; [exact E|].
  split; [cbn [addActive setActive active]; now rewrite active_ensured|].
  split; [exact Ei|].
  cbn [newHighlight center addActive setActive openRadius].
  remember (getCentre (circleAround c1 (openRadius (ensured st)))) as g.
  unfold getX, getY, circleAround. cbn [rect pos x y w h].
  rewrite Cx, Cy. repeat split; reflexivity.
Qed.

Lemma open_highlight_overlays_target_witness :
  exists st' evs a oc,
    triggerNote 2 0 0 editorBoard = Some (tt, st', evs)
    /\ index4 (openCircles st') 2 = Some oc
    /\ w (circleAround (center a) (openRadius st')) == w oc.
Proof.
  destruct (open_highlight_overlays_target editorBoard 2 0
              editorBoard_reachable)
    as (st' & evs & a & oc & H1 & _ & H3 & _ & _ & H6 & _); [lia|].
  exists st', evs, a, oc. repeat split; assumption.
Defined.
